(** * go_length_similarity: a shallow embedding and its verified properties

    The development follows the layout of the Go repository.  Part I embeds
    the code: the text normalizers, the chunked word and line tokenizers
    (sequential and worker-pool variants), the similarity scorer and the
    stream orchestrators.  Part II states and proves the properties; Part III
    adds further properties of the decoders, the normalizers, the read
    loops, the worker pools and the line ranges.

    Conventions.
    - A Go [string] or [[]byte] is a [list byte]; a [rune] is a [Z].
    - A Go [int] is a [Z]; every count in the code is bounded by the number
      of input bytes, so the 64-bit wrap-around is never reached and is not
      written out.
    - A [float64] is a primitive binary64 float, so comparisons and
      arithmetic round exactly as the Go code does.
    - [io.Reader] is the script of results its successive [Read] calls
      return, together with a counter of the calls made.
    - [context.Context] is observed through [ctx.Done()] only. *)

From Stdlib Require Import ZArith Lia List Bool.
From Stdlib Require Import Strings.String Strings.Ascii Strings.Byte.
From Stdlib Require Import Floats.PrimFloat Floats.FloatOps Floats.FloatAxioms Floats.SpecFloat.
From Stdlib Require Import Numbers.Cyclic.Int63.Uint63.
From stdpp Require Import base option list gmap strings.
From Equations Require Import Equations.
Import ListNotations.

Local Open Scope Z_scope.

(* 0.7 and 0.3 denote the nearest binary64 values, as in Go. *)
Set Warnings "-inexact-float".

(* ===================================================================== *)
(** * Part I.  The embedding                                              *)
(* ===================================================================== *)

(** ** Bytes *)

(** The numeric value of a byte, [0 <= bz b < 256]. *)
Definition bz (b : byte) : Z := Z.of_N (Byte.to_N b).

(** Go's conversion [byte(x)]: the low eight bits. *)
Definition byte_of_Z (x : Z) : byte :=
  match Byte.of_N (Z.to_N (x mod 256)) with
  | Some b => b
  | None => x00
  end.

(** A string literal as Go bytes. *)
Definition bytes (s : string) : list byte := list_byte_of_string s.

#[global] Instance byte_eq_decision : EqDecision byte := Byte.byte_eq_dec.

(** ** Package unicode (Go standard library)

    The repository calls [unicode.IsPunct], [IsSpace], [IsUpper], [IsLetter],
    [IsNumber] and [ToLower].  Their ASCII range is written out below exactly
    as Go defines it; the tables for code points from U+0080 on belong to the
    Go distribution and are a parameter of the development. *)

Module unicode.

Definition MaxASCII : Z := 127.
Definition ReplacementChar : Z := 65533. (* U+FFFD *)
Definition MaxRune : Z := 1114111.       (* U+10FFFF *)

(** Go's category tables for the code points above ASCII. *)
Class Tables := {
  tIsPunct : Z -> bool;
  tIsSpace : Z -> bool;
  tIsUpper : Z -> bool;
  tIsLetter : Z -> bool;
  tIsNumber : Z -> bool;
  tToLower : Z -> Z
}.

(** ASCII punctuation (categories Pc Pd Ps Pe Pi Pf Po), by code: the
    exclamation mark 33, the double quote 34, then # % & ' ( ) * , - . / : ;
    ? @ [ \ ] _ { }.  The symbols $ + < = > ^ ` | ~ are category S and are
    not punctuation. *)
Definition asciiPunct (r : Z) : bool :=
  existsb (Z.eqb r)
    [33; 34; 35; 37; 38; 39; 40; 41; 42; 44; 45; 46; 47; 58; 59; 63; 64;
     91; 92; 93; 95; 123; 125].

(** ASCII white space: \t \n \v \f \r and the space. *)
Definition asciiSpace (r : Z) : bool :=
  ((9 <=? r) && (r <=? 13)) || (r =? 32).

Definition asciiUpper (r : Z) : bool := (65 <=? r) && (r <=? 90).
Definition asciiLower (r : Z) : bool := (97 <=? r) && (r <=? 122).
Definition asciiDigit (r : Z) : bool := (48 <=? r) && (r <=? 57).

Section WithTables.
Context {T : Tables}.

Definition IsPunct (r : Z) : bool :=
  if r <=? MaxASCII then asciiPunct r else tIsPunct r.

Definition IsSpace (r : Z) : bool :=
  if r <=? MaxASCII then asciiSpace r else tIsSpace r.

Definition IsUpper (r : Z) : bool :=
  if r <=? MaxASCII then asciiUpper r else tIsUpper r.

Definition IsLetter (r : Z) : bool :=
  if r <=? MaxASCII then asciiUpper r || asciiLower r else tIsLetter r.

Definition IsNumber (r : Z) : bool :=
  if r <=? MaxASCII then asciiDigit r else tIsNumber r.

Definition ToLower (r : Z) : Z :=
  if r <=? MaxASCII then (if asciiUpper r then r + 32 else r) else tToLower r.

End WithTables.

(** The Latin-1 supplement (U+0080..U+00FF) as Go's [properties] array has
    it; code points above U+00FF are outside this instance (no category, no
    case mapping).  It serves to evaluate the code on concrete inputs whose
    code points all lie below U+0100. *)
Definition latin1Punct (r : Z) : bool :=
  existsb (Z.eqb r) [161; 167; 171; 182; 183; 187; 191].
Definition latin1Space (r : Z) : bool := (r =? 133) || (r =? 160).
Definition latin1Upper (r : Z) : bool :=
  ((192 <=? r) && (r <=? 214)) || ((216 <=? r) && (r <=? 222)).
Definition latin1Letter (r : Z) : bool :=
  (r =? 170) || (r =? 181) || (r =? 186) ||
  ((192 <=? r) && (r <=? 214)) || ((216 <=? r) && (r <=? 246)) ||
  ((248 <=? r) && (r <=? 255)).
Definition latin1Number (r : Z) : bool :=
  (r =? 178) || (r =? 179) || (r =? 185) || ((188 <=? r) && (r <=? 190)).

Definition latin1 : Tables := {|
  tIsPunct := latin1Punct;
  tIsSpace := latin1Space;
  tIsUpper := latin1Upper;
  tIsLetter := latin1Letter;
  tIsNumber := latin1Number;
  tToLower := fun r => if latin1Upper r then r + 32 else r
|}.

End unicode.

(** ** Package unicode/utf8 and the string conversions (Go standard library) *)

Module utf8.

Definition RuneError : Z := 65533.
Definition RuneSelf : Z := 128.

(** [utf8.DecodeRune]: the rune at the head of [p] and its width.  The
    [first] and [acceptRanges] tables are unfolded into the ranges they
    encode; an invalid or truncated sequence is [(RuneError, 1)]. *)
Definition DecodeRune (p : list byte) : Z * nat :=
  match p with
  | [] => (RuneError, 0%nat)
  | b0 :: rest =>
    let p0 := bz b0 in
    if p0 <? 128 then (p0, 1%nat)
    else if (p0 <? 194) || (244 <? p0) then (RuneError, 1%nat)
    else
      let sz : nat := if p0 <? 224 then 2%nat else if p0 <? 240 then 3%nat else 4%nat in
      let lo := if p0 =? 224 then 160 else if p0 =? 240 then 144 else 128 in
      let hi := if p0 =? 237 then 159 else if p0 =? 244 then 143 else 191 in
      if (length p <? sz)%nat then (RuneError, 1%nat)
      else
        match rest with
        | b1 :: rest1 =>
          let c1 := bz b1 in
          if (c1 <? lo) || (hi <? c1) then (RuneError, 1%nat)
          else if (sz <=? 2)%nat then
            (Z.lor (Z.shiftl (Z.land p0 31) 6) (Z.land c1 63), 2%nat)
          else
            match rest1 with
            | b2 :: rest2 =>
              let c2 := bz b2 in
              if (c2 <? 128) || (191 <? c2) then (RuneError, 1%nat)
              else if (sz <=? 3)%nat then
                (Z.lor (Z.lor (Z.shiftl (Z.land p0 15) 12)
                              (Z.shiftl (Z.land c1 63) 6))
                       (Z.land c2 63), 3%nat)
              else
                match rest2 with
                | b3 :: _ =>
                  let c3 := bz b3 in
                  if (c3 <? 128) || (191 <? c3) then (RuneError, 1%nat)
                  else
                    (Z.lor (Z.lor (Z.lor (Z.shiftl (Z.land p0 7) 18)
                                         (Z.shiftl (Z.land c1 63) 12))
                                  (Z.shiftl (Z.land c2 63) 6))
                           (Z.land c3 63), 4%nat)
                | [] => (RuneError, 1%nat)
                end
            | [] => (RuneError, 1%nat)
            end
        | [] => (RuneError, 1%nat)
        end
  end.

(** [utf8.AppendRune] / [strings.Builder.WriteRune]: the encoding of one
    rune; surrogates and out-of-range values are written as U+FFFD. *)
Definition EncodeRune (r : Z) : list byte :=
  if (0 <=? r) && (r <=? 127) then [byte_of_Z r]
  else if (0 <=? r) && (r <=? 2047) then
    [byte_of_Z (Z.lor 192 (Z.shiftr r 6));
     byte_of_Z (Z.lor 128 (Z.land r 63))]
  else
    let r := if (r <? 0) || (1114111 <? r) || ((55296 <=? r) && (r <=? 57343))
             then RuneError else r in
    if r <=? 65535 then
      [byte_of_Z (Z.lor 224 (Z.shiftr r 12));
       byte_of_Z (Z.lor 128 (Z.land (Z.shiftr r 6) 63));
       byte_of_Z (Z.lor 128 (Z.land r 63))]
    else
      [byte_of_Z (Z.lor 240 (Z.shiftr r 18));
       byte_of_Z (Z.lor 128 (Z.land (Z.shiftr r 12) 63));
       byte_of_Z (Z.lor 128 (Z.land (Z.shiftr r 6) 63));
       byte_of_Z (Z.lor 128 (Z.land r 63))].

(** The runes of a string with the bytes each one was decoded from: what
    [for _, r := range s] and [[]rune(s)] iterate over.  The rune at offset
    [i] has width [size >= 1], and the scan resumes at [i + size]. *)
Equations? stringTokens (s : list byte) : list (Z * list byte) by wf (length s) lt :=
  stringTokens [] := [];
  stringTokens (b :: rest) :=
    let size := snd (DecodeRune (b :: rest)) in
    (fst (DecodeRune (b :: rest)), b :: firstn (size - 1) rest)
      :: stringTokens (skipn (size - 1) rest).
Proof. rewrite length_skipn. simpl. lia. Qed.

(** [[]rune(s)]. *)
Definition stringRunes (s : list byte) : list Z := map fst (stringTokens s).

(** [len([]rune(s))], which is [utf8.RuneCountInString]. *)
Definition RuneCount (s : list byte) : Z := Z.of_nat (length (stringRunes s)).

(** [string(rs)] for a rune slice. *)
Definition runesString (rs : list Z) : list byte := flat_map EncodeRune rs.

End utf8.


(** ** Package strings (Go standard library) *)

Module strings.
Section WithTables.
Context {T : unicode.Tables}.

(** [strings.Map(mapping, s)]: every rune of [s] (an invalid byte reads as
    U+FFFD) is replaced by its image, re-encoded; negative images are
    dropped. *)
Definition Map (mapping : Z -> Z) (s : list byte) : list byte :=
  flat_map (fun c => let r := mapping c in
                     if r <? 0 then [] else utf8.EncodeRune r)
           (utf8.stringRunes s).

(** [strings.ToLower]: byte-wise on ASCII-only strings, [Map] otherwise. *)
Definition ToLower (s : list byte) : list byte :=
  if forallb (fun c => bz c <? utf8.RuneSelf) s then
    map (fun c => if unicode.asciiUpper (bz c) then byte_of_Z (bz c + 32) else c) s
  else Map unicode.ToLower s.

(** The loop of [strings.FieldsFunc(s, unicode.IsSpace)] over the decoded
    runes: [cur] is the field being read, if any. *)
Fixpoint fieldsLoop (cur : option (list byte)) (toks : list (Z * list byte))
  : list (list byte) :=
  match toks with
  | [] => match cur with Some f => [f] | None => [] end
  | (r, bs) :: rest =>
    if unicode.IsSpace r then
      match cur with
      | Some f => f :: fieldsLoop None rest
      | None => fieldsLoop None rest
      end
    else
      match cur with
      | Some f => fieldsLoop (Some (f ++ bs)) rest
      | None => fieldsLoop (Some bs) rest
      end
  end.

(** [strings.Fields]: the maximal runs of non-space runes. *)
Definition Fields (s : list byte) : list (list byte) :=
  fieldsLoop None (utf8.stringTokens s).

End WithTables.
End strings.

(** ** Package internal/adapters/normalizer *)

Module normalizer.

(** [b[i]] as a number; reading is guarded by a length test in the code. *)
Definition at_ (b : list byte) (i : nat) : Z := bz (nth i b x00).

(** [decodeRune] (allocation_efficient.go): the repository's own decoder.
    Unlike [utf8.DecodeRune] it accepts overlong forms, surrogates and lead
    bytes up to 0xF7, and checks only the [10xxxxxx] shape of the
    continuation bytes. *)
Definition decodeRune (b : list byte) : Z * nat :=
  if (length b =? 0)%nat then (0, 0%nat)
  else if at_ b 0 <? 128 then (at_ b 0, 1%nat)
  else if (at_ b 0 <? 192) || (247 <? at_ b 0) then (unicode.ReplacementChar, 1%nat)
  else if at_ b 0 <? 224 then
    if (length b <? 2)%nat || negb (Z.land (at_ b 1) 192 =? 128)
    then (unicode.ReplacementChar, 1%nat)
    else (Z.lor (Z.shiftl (Z.land (at_ b 0) 31) 6) (Z.land (at_ b 1) 63), 2%nat)
  else if at_ b 0 <? 240 then
    if (length b <? 3)%nat || negb (Z.land (at_ b 1) 192 =? 128)
       || negb (Z.land (at_ b 2) 192 =? 128)
    then (unicode.ReplacementChar, 1%nat)
    else (Z.lor (Z.lor (Z.shiftl (Z.land (at_ b 0) 15) 12)
                       (Z.shiftl (Z.land (at_ b 1) 63) 6))
                (Z.land (at_ b 2) 63), 3%nat)
  else
    if (length b <? 4)%nat || negb (Z.land (at_ b 1) 192 =? 128)
       || negb (Z.land (at_ b 2) 192 =? 128)
       || negb (Z.land (at_ b 3) 192 =? 128)
    then (unicode.ReplacementChar, 1%nat)
    else (Z.lor (Z.lor (Z.lor (Z.shiftl (Z.land (at_ b 0) 7) 18)
                              (Z.shiftl (Z.land (at_ b 1) 63) 12))
                       (Z.shiftl (Z.land (at_ b 2) 63) 6))
                (Z.land (at_ b 3) 63), 4%nat).

(** An entry of the ASCII decision table. *)
Record asciiEntry := { replace : bool; char : byte }.

Definition SP : byte := x20.

Section WithTables.
Context {T : unicode.Tables}.

(** *** DefaultNormalizer (default.go) *)

(** [DefaultNormalizer.Normalize]: lower-case the text, then write a space
    for every punctuation rune and the rune itself otherwise. *)
Definition DefaultNormalize (text : list byte) : list byte :=
  let text := strings.ToLower text in
  fold_left (fun sb r => if unicode.IsPunct r
                         then sb ++ utf8.EncodeRune 32
                         else sb ++ utf8.EncodeRune r)
            (utf8.stringRunes text) [].

(** *** AllocationEfficientNormalizer (allocation_efficient.go) *)

(** The table built by [NewAllocationEfficientNormalizer] for [i] in
    [0..127]. *)
Definition asciiTableEntry (i : Z) : asciiEntry :=
  if unicode.IsPunct i then {| replace := true; char := SP |}
  else if unicode.IsUpper i then
    {| replace := true; char := byte_of_Z (unicode.ToLower i) |}
  else {| replace := false; char := x00 |}.

Definition asciiTable : list asciiEntry :=
  map (fun i => asciiTableEntry (Z.of_nat i)) (seq 0 128).

(** [n.asciiTable[b]] for [b < 128]. *)
Definition tableAt (b : Z) : asciiEntry :=
  nth (Z.to_nat b) asciiTable {| replace := false; char := x00 |}.

(** One ASCII byte through the table: shared by the bodies of
    [normalizeASCII] and of the ASCII branch of [normalizeUnicode], which
    are the same statements in the source. *)
Definition asciiStep (dest : list byte) (lastWasSpace : bool) (b : byte)
  : list byte * bool :=
  let entry := tableAt (bz b) in
  if replace entry then
    if decide (char entry = SP) then
      if negb lastWasSpace then (dest ++ [SP], true) else (dest, lastWasSpace)
    else (dest ++ [char entry], false)
  else (dest ++ [b], false).

(** The loop of [normalizeASCII]. *)
Fixpoint normalizeASCIILoop (src : list byte) (dest : list byte)
  (lastWasSpace : bool) : list byte :=
  match src with
  | [] => dest
  | b :: rest =>
    if bz b <? 128 then
      let '(dest', lws') := asciiStep dest lastWasSpace b in
      normalizeASCIILoop rest dest' lws'
    else normalizeASCIILoop rest (dest ++ [b]) false
  end.

(** [normalizeASCII(src, dest)]: [dest] is truncated first. *)
Definition normalizeASCII (src dest : list byte) : list byte :=
  normalizeASCIILoop src [] false.

(** The UTF-8 bytes [normalizeUnicode] appends for a lower-cased rune. *)
Definition encodeLower (lower : Z) : list byte :=
  if lower <? 128 then [byte_of_Z lower]
  else if lower <? 2048 then
    [byte_of_Z (Z.lor 192 (Z.shiftr lower 6));
     byte_of_Z (Z.lor 128 (Z.land lower 63))]
  else if lower <? 65536 then
    [byte_of_Z (Z.lor 224 (Z.shiftr lower 12));
     byte_of_Z (Z.lor 128 (Z.land (Z.shiftr lower 6) 63));
     byte_of_Z (Z.lor 128 (Z.land lower 63))]
  else
    [byte_of_Z (Z.lor 240 (Z.shiftr lower 18));
     byte_of_Z (Z.lor 128 (Z.land (Z.shiftr lower 12) 63));
     byte_of_Z (Z.lor 128 (Z.land (Z.shiftr lower 6) 63));
     byte_of_Z (Z.lor 128 (Z.land lower 63))].

(** One multi-byte step of [normalizeUnicode] at [src[i:]] = [s]. *)
Definition unicodeStep (dest : list byte) (lastWasSpace : bool) (s : list byte)
  : list byte * bool :=
  let '(r, size) := decodeRune s in
  if unicode.IsPunct r || unicode.IsSpace r then
    if negb lastWasSpace then (dest ++ [SP], true) else (dest, lastWasSpace)
  else if unicode.IsUpper r then
    (dest ++ encodeLower (unicode.ToLower r), false)
  else (dest ++ firstn size s, false).

(** The loop of [normalizeUnicode]; [s] is [src[i:]].  After an ASCII byte
    [i++], after a multi-byte step [i += size] with [size >= 1]. *)
Equations? normalizeUnicodeLoop (s : list byte) (dest : list byte)
  (lastWasSpace : bool) : list byte by wf (length s) lt :=
  normalizeUnicodeLoop [] dest _ := dest;
  normalizeUnicodeLoop (b :: rest) dest lastWasSpace :=
    if bz b <? 128 then
      normalizeUnicodeLoop rest (fst (asciiStep dest lastWasSpace b))
                           (snd (asciiStep dest lastWasSpace b))
    else
      normalizeUnicodeLoop
        (skipn (snd (decodeRune (b :: rest)) - 1) rest)
        (fst (unicodeStep dest lastWasSpace (b :: rest)))
        (snd (unicodeStep dest lastWasSpace (b :: rest))).
Proof. rewrite length_skipn. simpl. lia. Qed.

(** [normalizeUnicode(src, dest)]. *)
Definition normalizeUnicode (src dest : list byte) : list byte :=
  normalizeUnicodeLoop src [] false.

(** [AllocationEfficientNormalizer.Normalize]. *)
Definition Normalize (text : list byte) : list byte :=
  if (length text =? 0)%nat then []
  else
    let asciiOnly := forallb (fun c => negb (128 <=? bz c)) text in
    if asciiOnly then normalizeASCII text [] else normalizeUnicode text [].

(** [AllocationEfficientNormalizer.NormalizeBytes]. *)
Definition NormalizeBytes (src dest : list byte) : list byte :=
  if (length src =? 0)%nat then []
  else
    let asciiOnly := forallb (fun c => negb (128 <=? bz c)) src in
    if asciiOnly then normalizeASCII src dest else normalizeUnicode src dest.

(** *** OptimizedNormalizer, with the byte buffer and the decision table

    The entries of the table built by [NewOptimizedNormalizer]: 0 keeps the
    character, 1 replaces it with a space, 2 lower-cases it. *)
Definition optimizedTableEntry (i : Z) : Z :=
  if unicode.IsPunct i || unicode.IsSpace i then 1
  else if unicode.IsUpper i then 2
  else 0.

Definition optimizedTable : list Z :=
  map (fun i => optimizedTableEntry (Z.of_nat i)) (seq 0 128).

(** [n.asciiTable[b]] for [b < 128]. *)
Definition optimizedAt (b : Z) : Z := nth (Z.to_nat b) optimizedTable 0.

(** The [switch n.asciiTable[b]] of both loops; the buffer is returned from
    the pool with length zero, so a call starts from the empty buffer. *)
Definition optimizedSwitch (buffer : list byte) (lastWasSpace : bool) (b : byte)
  : list byte * bool :=
  match optimizedAt (bz b) with
  | 0 => (buffer ++ [b], false)
  | 1 => if negb lastWasSpace then (buffer ++ [SP], true) else (buffer, lastWasSpace)
  | 2 => (buffer ++ [byte_of_Z (bz b + (97 - 65))], false)
  | _ => (buffer, lastWasSpace)
  end.

(** One turn of [for _, r := range text] in the path for mixed text. *)
Definition optimizedRune (st : list byte * bool) (r : Z) : list byte * bool :=
  let '(buffer, lastWasSpace) := st in
  if r <? 128 then optimizedSwitch buffer lastWasSpace (byte_of_Z r)
  else if unicode.IsPunct r || unicode.IsSpace r then
    if negb lastWasSpace then (buffer ++ [SP], true) else (buffer, lastWasSpace)
  else (buffer ++ utf8.EncodeRune (unicode.ToLower r), false).

(** [OptimizedNormalizer.Normalize]. *)
Definition OptimizedNormalize (text : list byte) : list byte :=
  if (length text =? 0)%nat then []
  else
    let asciiOnly := forallb (fun c => negb (128 <=? bz c)) text in
    if asciiOnly then
      fst (fold_left (fun st b => optimizedSwitch (fst st) (snd st) b) text ([], false))
    else fst (fold_left optimizedRune (utf8.stringRunes text) ([], false)).

(** *** OptimizedNormalizer, with the rune buffer

    The other [OptimizedNormalizer.Normalize] of the sources: one pass over
    [[]rune(text)]. *)
Definition OptimizedNormalizeRunes (text : list byte) : list byte :=
  if (length text =? 0)%nat then []
  else
    fold_left (fun sb r => if unicode.IsPunct r then sb ++ utf8.EncodeRune 32
                           else sb ++ utf8.EncodeRune (unicode.ToLower r))
              (utf8.stringRunes text) [].

(** *** FastNormalizer *)

Record fastEntry := { fastReplace : bool; fastChar : Z }.

(** The table built by [NewFastNormalizer] for [i] in [0..127]. *)
Definition fastTableEntry (i : Z) : fastEntry :=
  if unicode.IsPunct i then {| fastReplace := true; fastChar := 32 |}
  else if unicode.IsUpper i then
    {| fastReplace := true; fastChar := unicode.ToLower i |}
  else {| fastReplace := false; fastChar := 0 |}.

Definition fastTable : list fastEntry :=
  map (fun i => fastTableEntry (Z.of_nat i)) (seq 0 128).

(** [n.asciiTable[r]] for [r < 128]. *)
Definition fastAt (r : Z) : fastEntry :=
  nth (Z.to_nat r) fastTable {| fastReplace := false; fastChar := 0 |}.

(** The table lookup of both loops, for an ASCII rune. *)
Definition fastASCII (sb : list byte) (r : Z) : list byte :=
  let entry := fastAt r in
  if fastReplace entry then sb ++ utf8.EncodeRune (fastChar entry)
  else sb ++ utf8.EncodeRune r.

(** [FastNormalizer.Normalize]; the builder comes reset from the pool. *)
Definition FastNormalize (text : list byte) : list byte :=
  if (length text =? 0)%nat then []
  else
    let asciiOnly := forallb (fun r => negb (128 <=? r)) (utf8.stringRunes text) in
    if asciiOnly then fold_left fastASCII (utf8.stringRunes text) []
    else
      fold_left (fun sb r =>
                   if r <? 128 then fastASCII sb r
                   else if unicode.IsPunct r then sb ++ utf8.EncodeRune 32
                   else sb ++ utf8.EncodeRune (unicode.ToLower r))
                (utf8.stringRunes text) [].

End WithTables.
End normalizer.


(** A value together with the proof that it is the value of the term: lets
    a well-founded definition remember which branch of a lookup it took. *)
Definition inspect {A} (a : A) : {b : A | a = b} := exist _ a eq_refl.

(** ** Errors, contexts and readers (Go standard library) *)

Module io.

(** The error values the code can meet; [New msg] is [errors.New(msg)] or
    any other failure of a reader, with its message. *)
Inductive error :=
| EOF
| ErrUnexpectedEOF
| Canceled
| DeadlineExceeded
| New (msg : string).

(** [err.Error()]. *)
Definition Error (e : error) : string :=
  match e with
  | EOF => "EOF"
  | ErrUnexpectedEOF => "unexpected EOF"
  | Canceled => "context canceled"
  | DeadlineExceeded => "context deadline exceeded"
  | New msg => msg
  end.

Definition isEOF (e : error) : bool :=
  match e with EOF => true | _ => false end.

(** The test [err == io.EOF]. *)
Definition isEOFerr (err : option error) : bool :=
  match err with Some e => isEOF e | None => false end.

(** The test [err != nil && err != io.EOF]: the error, when it holds. *)
Definition failed (err : option error) : option error :=
  match err with
  | Some e => if isEOF e then None else Some e
  | None => None
  end.

(** An [io.Reader]: the results [(p[:n], err)] its next [Read] calls
    return, in order, and the number of [Read] calls made so far.  Once the
    script is exhausted every [Read] returns [(0, io.EOF)]. *)
Record Reader := { script : list (list byte * option error); reads : nat }.

Definition Read (r : Reader) : (list byte * option error) * Reader :=
  match script r with
  | [] => (([], Some EOF), {| script := []; reads := S (reads r) |})
  | ev :: rest => (ev, {| script := rest; reads := S (reads r) |})
  end.

(** The pieces a [strings.Reader] over [s] hands out to a caller whose
    buffer holds [size >= 1] bytes: [size] bytes at a time. *)
Equations? chunksOf (size : nat) (s : list byte) : list (list byte) by wf (length s) lt :=
  chunksOf size [] := [];
  chunksOf size (b :: rest) :=
    (b :: firstn (size - 1) rest) :: chunksOf size (skipn (size - 1) rest).
Proof. rewrite length_skipn. simpl. lia. Qed.

(** [strings.NewReader(s)] read through a buffer of [size] bytes: the
    chunks come with a nil error, the end of the text as [(0, io.EOF)]. *)
Definition stringsReader (size : nat) (s : list byte) : Reader :=
  {| script := map (fun c => (c, None)) (chunksOf size s); reads := 0 |}.

End io.

Module context.

(** A [context.Context] as the code observes it: whether [ctx.Done()] is
    closed, and [ctx.Err()]. *)
Record Context := { Done : bool; Err : io.error }.

Definition Background : Context := {| Done := false; Err := io.Canceled |}.
Definition Cancelled : Context := {| Done := true; Err := io.Canceled |}.

End context.

(** ** Package internal/adapters/stream/wordprocessor *)

Module wordprocessor.

Definition DefaultChunkSize : Z := 64 * 1024.
Definition DefaultBatchSize : Z := 1000.
Definition ContextCheckFrequency : Z := 5000.
Definition ASCIITableSize : Z := 128.

(** [ASCIIWordChar[i]] as [init] fills it: letters, digits, underscore,
    hyphen and apostrophe. *)
Definition ASCIIWordCharEntry (r : Z) : bool :=
  ((97 <=? r) && (r <=? 122)) || ((65 <=? r) && (r <=? 90)) ||
  ((48 <=? r) && (r <=? 57)) || (r =? 95) || (r =? 45) || (r =? 39).

Definition ASCIIWordChar : list bool :=
  map (fun i => ASCIIWordCharEntry (Z.of_nat i)) (seq 0 128).

Definition IsASCIIWordChar (b : byte) : bool :=
  if bz b <? ASCIITableSize then nth (Z.to_nat (bz b)) ASCIIWordChar false
  else false.

Definition IsASCIIOnly (data : list byte) : bool :=
  forallb (fun b => negb (ASCIITableSize <=? bz b)) data.

(** [DecodeRune]: the same text as [normalizer.decodeRune]. *)
Definition DecodeRune (b : list byte) : Z * nat := normalizer.decodeRune b.

(** [RuneLen]: the length of a UTF-8 encoded rune. *)
Definition RuneLen (r : Z) : Z :=
  if r <? 128 then 1
  else if r <? 2048 then 2
  else if r <? 65536 then 3
  else 4.

Section WithTables.
Context {T : unicode.Tables}.

Definition IsWordChar (r : Z) : bool :=
  if r <? ASCIITableSize then nth (Z.to_nat r) ASCIIWordChar false
  else unicode.IsLetter r || unicode.IsNumber r
       || (r =? 95) || (r =? 45) || (r =? 39).

(** [HandleUTF8(data, pos)] with [data[pos:]] passed as [s]: the rune, its
    width and whether it is a word character. *)
Definition HandleUTF8 (s : list byte) : Z * nat * bool :=
  let b0 := normalizer.at_ s 0 in
  if b0 <? ASCIITableSize then (b0, 1%nat, nth (Z.to_nat b0) ASCIIWordChar false)
  else let '(r, size) := DecodeRune s in (r, size, IsWordChar r).

(** The variables of [processWordsOptimized] that survive a chunk. *)
Record state := {
  wordCount : Z;
  bytesProcessed : Z;
  inWord : bool;
  wordStart : Z;
  lastWordChar : bool;
  contextCheckCounter : Z
}.

Definition initial : state :=
  {| wordCount := 0; bytesProcessed := 0; inWord := false; wordStart := 0;
     lastWordChar := false; contextCheckCounter := 0 |}.

(** The body shared by both scanning loops once [isChar] is known (the
    writer is nil, so no word is copied out). *)
Definition wordStep (isChar : bool) (i : Z) (count : Z) (inW : bool) (start : Z)
  : Z * bool * Z :=
  if isChar then
    if negb inW then (count, true, i) else (count, inW, start)
  else
    if inW then (count + 1, false, start) else (count, inW, start).

(** The fast path: [for i := 0; i < n; i++] over [chunk[i:]] = [todo]. *)
Fixpoint asciiLoop (todo : list byte) (i : Z) (count : Z) (inW : bool) (start : Z)
  : Z * bool * Z :=
  match todo with
  | [] => (count, inW, start)
  | b :: rest =>
    let '(count', inW', start') := wordStep (IsASCIIWordChar b) i count inW start in
    asciiLoop rest (i + 1) count' inW' start'
  end.

(** The slow path: [for i < n { ...; i += size }] over [chunk[i:]] = [s]. *)
Equations? utf8Loop (s : list byte) (i : Z) (count : Z) (inW : bool) (start : Z)
  : Z * bool * Z by wf (length s) lt :=
  utf8Loop [] _ count inW start := (count, inW, start);
  utf8Loop (b :: rest) i count inW start :=
    let size := snd (fst (HandleUTF8 (b :: rest))) in
    let isChar := snd (HandleUTF8 (b :: rest)) in
    utf8Loop (skipn (size - 1) rest) (i + Z.of_nat size)
             (fst (fst (wordStep isChar i count inW start)))
             (snd (fst (wordStep isChar i count inW start)))
             (snd (wordStep isChar i count inW start)).
Proof. rewrite length_skipn. simpl. lia. Qed.

(** What [processWordsOptimized] does with a chunk of [n > 0] bytes. *)
Definition processChunk (st : state) (chunk : list byte) : state :=
  let n := Z.of_nat (length chunk) in
  let bytes' := bytesProcessed st + n in
  let asciiOnly := IsASCIIOnly chunk in
  let '(count, inW, start, lastW) :=
    if asciiOnly then
      let '(c, w, s) := asciiLoop chunk 0 (wordCount st) (inWord st) (wordStart st) in
      (c, w, s, (0 <? n) && IsASCIIWordChar (nth (Z.to_nat (n - 1)) chunk x00))
    else
      let '(c, w, s) := utf8Loop chunk 0 (wordCount st) (inWord st) (wordStart st) in
      (c, w, s, if 0 <? n then snd (HandleUTF8 (skipn (Z.to_nat (n - 1)) chunk))
                else lastWordChar st) in
  (* Handle word that spans chunks *)
  if inW && negb lastW then
    {| wordCount := count + 1; bytesProcessed := bytes'; inWord := false;
       wordStart := start; lastWordChar := lastW;
       contextCheckCounter := contextCheckCounter st |}
  else
    {| wordCount := count; bytesProcessed := bytes'; inWord := inW;
       wordStart := start; lastWordChar := lastW;
       contextCheckCounter := contextCheckCounter st |}.

(** The read loop of [processWordsOptimized]; it returns
    [(wordCount, bytesProcessed, err)] and the reader as it leaves it. *)
Fixpoint processWordsLoop (ctx : context.Context)
  (script : list (list byte * option io.error)) (reads : nat) (st : state)
  : (Z * Z * option io.error) * io.Reader :=
  let counter := contextCheckCounter st + 1 in
  if (ContextCheckFrequency <=? counter) && context.Done ctx then
    ((wordCount st, bytesProcessed st, Some (context.Err ctx)),
     {| io.script := script; io.reads := reads |})
  else
    let counter := if ContextCheckFrequency <=? counter then 0 else counter in
    let st := {| wordCount := wordCount st; bytesProcessed := bytesProcessed st;
                 inWord := inWord st; wordStart := wordStart st;
                 lastWordChar := lastWordChar st;
                 contextCheckCounter := counter |} in
    match script with
    | [] =>
      (* Read returns (0, io.EOF) *)
      ((if inWord st then wordCount st + 1 else wordCount st,
        bytesProcessed st, None),
       {| io.script := []; io.reads := S reads |})
    | (chunk, err) :: rest =>
      let st := if (0 <? length chunk)%nat then processChunk st chunk else st in
      match err with
      | Some e =>
        if io.isEOF e then
          ((if inWord st then wordCount st + 1 else wordCount st,
            bytesProcessed st, None),
           {| io.script := rest; io.reads := S reads |})
        else
          ((wordCount st, bytesProcessed st, Some e),
           {| io.script := rest; io.reads := S reads |})
      | None => processWordsLoop ctx rest (S reads) st
      end
    end.

(** [processWordsOptimized(ctx, reader, nil)]. *)
Definition processWordsOptimized (ctx : context.Context) (reader : io.Reader)
  : (Z * Z * option io.error) * io.Reader :=
  processWordsLoop ctx (io.script reader) (io.reads reader) initial.

(** *** The worker pool (parallel.go) *)

Definition MaxJobQueueSize : Z := 32.

Record WordJob := { Chunk : list byte; ChunkID : Z; StartWord : bool }.

Record WordJobResult := {
  WordCount : Z;
  ResultChunkID : Z;
  EndWord : bool;
  Error : option io.error
}.

(** How the reading goroutine of [processWordsParallel] ends: it closed
    [jobs] and reported [(err, bytesProcessed)], or it saw the context done
    and returned with [jobs] still open. *)
Inductive producerEnd :=
| Closed (err : option io.error) (bytesProcessed : Z)
| LeftOpen (err : io.error).

(** The reading goroutine: the jobs it sends, in order, how it ends, and
    the reader as it leaves it. *)
Fixpoint produceJobs (ctx : context.Context)
  (script : list (list byte * option io.error)) (reads : nat)
  (chunkID : Z) (inW : bool) (bytesProcessed : Z)
  : list WordJob * producerEnd * io.Reader :=
  if context.Done ctx then
    ([], LeftOpen (context.Err ctx), {| io.script := script; io.reads := reads |})
  else
    match script with
    | [] =>
      ([], Closed None bytesProcessed, {| io.script := []; io.reads := S reads |})
    | (chunk, err) :: rest =>
      let n := Z.of_nat (length chunk) in
      let job := if 0 <? n
                 then [{| Chunk := chunk; ChunkID := chunkID; StartWord := inW |}]
                 else [] in
      let bytesProcessed := if 0 <? n then bytesProcessed + n else bytesProcessed in
      let inW := if 0 <? n
                 then IsASCIIWordChar (nth (Z.to_nat (n - 1)) chunk x00)
                 else inW in
      let chunkID := if 0 <? n then chunkID + 1 else chunkID in
      match err with
      | Some e =>
        (job, Closed (if io.isEOF e then None else Some e) bytesProcessed,
         {| io.script := rest; io.reads := S reads |})
      | None =>
        let '(jobs, e, r) := produceJobs ctx rest (S reads) chunkID inW bytesProcessed in
        (job ++ jobs, e, r)
      end
    end.

(** [wordWorker] on one job (nil writer). *)
Definition wordWorker (ctx : context.Context) (job : WordJob) : WordJobResult :=
  if context.Done ctx then
    {| WordCount := 0; ResultChunkID := ChunkID job; EndWord := false;
       Error := Some (context.Err ctx) |}
  else
    let asciiOnly := IsASCIIOnly (Chunk job) in
    let '(count, inW, _) :=
      if asciiOnly then asciiLoop (Chunk job) 0 0 (StartWord job) 0
      else utf8Loop (Chunk job) 0 0 (StartWord job) 0 in
    {| WordCount := count; ResultChunkID := ChunkID job; EndWord := inW;
       Error := None |}.

(** The state of the collecting loop of [processWordsParallel]. *)
Record collector := {
  total : Z;
  resultMap : gmap Z WordJobResult;
  nextChunkID : Z;
  failed : option io.error
}.

(** [for { result, exists := resultMap[nextChunkID]; ... }]: fold the
    results that are next in order; every turn deletes an entry. *)
Equations? drain (m : gmap Z WordJobResult) (next : Z) (count : Z) : collector
  by wf (size m) lt :=
  drain m next count with inspect (m !! next) := {
    | exist _ None _ :=
      {| total := count; resultMap := m; nextChunkID := next; failed := None |};
    | exist _ (Some result) _ with Error result := {
      | Some e :=
        {| total := count; resultMap := m; nextChunkID := next; failed := Some e |};
      | None := drain (delete next m) (next + 1) (count + WordCount result) } }.
Proof.
  rewrite map_size_delete_Some by eauto.
  assert (size m <> 0%nat) by (eapply map_size_ne_0_lookup_2; eauto).
  lia.
Qed.

(** [for result := range results]: one arrival. *)
Definition collect (c : collector) (result : WordJobResult) : collector :=
  match failed c with
  | Some _ => c
  | None => drain (<[ResultChunkID result := result]> (resultMap c))
                  (nextChunkID c) (total c)
  end.

(** [processWordsParallel(ctx, reader, nil)].  The workers post one result
    per job; [arrival] is the order in which the results channel delivers
    them, any permutation of the jobs' order.  When the reading goroutine
    leaves [jobs] open the workers never finish and the call does not
    return: [None].  The final error is the one the reading goroutine
    reported. *)
Definition processWordsParallel (ctx : context.Context) (reader : io.Reader)
  (arrival : list WordJobResult -> list WordJobResult)
  : option ((Z * Z * option io.error) * io.Reader) :=
  let '(jobs, e, r) :=
    produceJobs ctx (io.script reader) (io.reads reader) 0 false 0 in
  match e with
  | LeftOpen _ => None
  | Closed err bytesProcessed =>
    let results := arrival (map (wordWorker ctx) jobs) in
    let c := fold_left collect results
               {| total := 0; resultMap := ∅; nextChunkID := 0; failed := None |} in
    match failed c with
    | Some e => Some ((total c, bytesProcessed, Some e), r)
    | None => Some ((total c, bytesProcessed, err), r)
    end
  end.

(** A processor as [NewProcessor] builds it. *)
Record Processor := { chunkSize : Z; batchSize : Z; useParallel : bool }.

Record ProcessingConfig := { ChunkSize : Z; BatchSize : Z; UseParallel : bool }.

Definition NewProcessor (config : ProcessingConfig) : Processor :=
  {| chunkSize := if ChunkSize config <=? 0 then DefaultChunkSize else ChunkSize config;
     batchSize := if BatchSize config <=? 0 then DefaultBatchSize else BatchSize config;
     useParallel := UseParallel config |}.

(** [ProcessWords(ctx, reader, nil)]. *)
Definition ProcessWords (p : Processor) (ctx : context.Context) (reader : io.Reader)
  (arrival : list WordJobResult -> list WordJobResult)
  : option ((Z * Z * option io.error) * io.Reader) :=
  if useParallel p then processWordsParallel ctx reader arrival
  else Some (processWordsOptimized ctx reader).

End WithTables.
End wordprocessor.


(** ** Package internal/adapters/stream/lineprocessor (processor.go) *)

Module lineprocessor.

Definition DefaultChunkSize : Z := 64 * 1024.
Definition DefaultBatchSize : Z := 100.
Definition ContextCheckFrequency : Z := 500.
Definition CR : byte := x0d.
Definition LF : byte := x0a.

(** The processor; [normalizer] is the [ports.Normalizer] it was given. *)
Record Processor := {
  normalizer : list byte -> list byte;
  chunkSize : Z;
  batchSize : Z;
  useParallel : bool
}.

Record ProcessingConfig := { ChunkSize : Z; BatchSize : Z; UseParallel : bool }.

Definition NewProcessor (normalizer : list byte -> list byte)
  (config : ProcessingConfig) : Processor :=
  {| normalizer := normalizer;
     chunkSize := if ChunkSize config <=? 0 then DefaultChunkSize else ChunkSize config;
     batchSize := if BatchSize config <=? 0 then DefaultBatchSize else BatchSize config;
     useParallel := UseParallel config |}.

(** [chunk[lo:hi]]. *)
Definition slice (chunk : list byte) (lo hi : Z) : list byte :=
  firstn (Z.to_nat (hi - lo)) (skipn (Z.to_nat lo) chunk).

(** [processLine(line, nil, &charCount)]: the new value of [charCount]. *)
Definition processLine (p : Processor) (line : list byte) (charCount : Z) : Z :=
  if (length line =? 0)%nat then charCount
  else charCount + utf8.RuneCount (normalizer p line).

(** *** The sequential path *)

(** [for i := 0; i < n; i++] of [processLinesOptimized]; [todo] is
    [chunk[i:]].  The result is [(lineStart, carryoverCR, charCount)]. *)
Fixpoint scanChunk (p : Processor) (chunk : list byte) (n : Z)
  (todo : list byte) (i : Z) (lineStart : Z) (carryoverCR : bool) (charCount : Z)
  : Z * bool * Z :=
  match todo with
  | [] => (lineStart, carryoverCR, charCount)
  | b :: rest =>
    if decide (b = LF \/ b = CR) then
      if decide (b = CR) then
        let line := slice chunk lineStart i in
        if (i + 1 <? n) && bool_decide (nth (Z.to_nat (i + 1)) chunk x00 = LF) then
          (* a CRLF sequence: leave it to the LF *)
          scanChunk p chunk n rest (i + 1) lineStart true charCount
        else
          scanChunk p chunk n rest (i + 1) (i + 1) false (processLine p line charCount)
      else
        let line := slice chunk lineStart i in
        scanChunk p chunk n rest (i + 1) (i + 1) false (processLine p line charCount)
    else scanChunk p chunk n rest (i + 1) lineStart carryoverCR charCount
  end.

(** The variables of [processLinesOptimized] that survive a chunk. *)
Record state := {
  charCount : Z;
  bytesProcessed : Z;
  inLine : bool;
  carryoverCR : bool;
  contextCheckCounter : Z;
  lineBuffer : list byte
}.

Definition initial : state :=
  {| charCount := 0; bytesProcessed := 0; inLine := false; carryoverCR := false;
     contextCheckCounter := 0; lineBuffer := [] |}.

(** What [processLinesOptimized] does with a chunk of [n > 0] bytes. *)
Definition processChunk (p : Processor) (st : state) (chunk : list byte) : state :=
  let n := Z.of_nat (length chunk) in
  let '(lineStart, cr, count) :=
    scanChunk p chunk n chunk 0 0 (carryoverCR st) (charCount st) in
  if lineStart <? n then
    {| charCount := count; bytesProcessed := bytesProcessed st + n;
       inLine := true; carryoverCR := cr;
       contextCheckCounter := contextCheckCounter st;
       lineBuffer := lineBuffer st ++ slice chunk lineStart n |}
  else
    {| charCount := count; bytesProcessed := bytesProcessed st + n;
       inLine := inLine st; carryoverCR := cr;
       contextCheckCounter := contextCheckCounter st;
       lineBuffer := lineBuffer st |}.

(** The end of the stream: the buffered data is the final line. *)
Definition finish (p : Processor) (st : state) : Z :=
  if inLine st && (0 <? length (lineBuffer st))%nat
  then processLine p (lineBuffer st) (charCount st)
  else charCount st.

(** The read loop of [processLinesOptimized]. *)
Fixpoint processLinesLoop (p : Processor) (ctx : context.Context)
  (script : list (list byte * option io.error)) (reads : nat) (st : state)
  : (Z * Z * option io.error) * io.Reader :=
  let counter := contextCheckCounter st + 1 in
  if (ContextCheckFrequency <=? counter) && context.Done ctx then
    ((charCount st, bytesProcessed st, Some (context.Err ctx)),
     {| io.script := script; io.reads := reads |})
  else
    let counter := if ContextCheckFrequency <=? counter then 0 else counter in
    let st := {| charCount := charCount st; bytesProcessed := bytesProcessed st;
                 inLine := inLine st; carryoverCR := carryoverCR st;
                 contextCheckCounter := counter; lineBuffer := lineBuffer st |} in
    match script with
    | [] =>
      ((finish p st, bytesProcessed st, None),
       {| io.script := []; io.reads := S reads |})
    | (chunk, err) :: rest =>
      let st := if (0 <? length chunk)%nat then processChunk p st chunk else st in
      match err with
      | Some e =>
        if io.isEOF e then
          ((finish p st, bytesProcessed st, None),
           {| io.script := rest; io.reads := S reads |})
        else
          ((charCount st, bytesProcessed st, Some e),
           {| io.script := rest; io.reads := S reads |})
      | None => processLinesLoop p ctx rest (S reads) st
      end
    end.

(** [processLinesOptimized(ctx, reader, nil)]. *)
Definition processLinesOptimized (p : Processor) (ctx : context.Context)
  (reader : io.Reader) : (Z * Z * option io.error) * io.Reader :=
  processLinesLoop p ctx (io.script reader) (io.reads reader) initial.

(** *** The worker pool *)

(** [bytes.IndexByte(chunk, LF)]. *)
Fixpoint IndexByte (s : list byte) (c : byte) : option nat :=
  match s with
  | [] => None
  | b :: rest => if decide (b = c) then Some 0%nat
                 else option_map S (IndexByte rest c)
  end.

(** [bytes.Split(s, []byte{LF})]: all the pieces, the empty ones too. *)
Fixpoint splitLoop (cur : list byte) (s : list byte) : list (list byte) :=
  match s with
  | [] => [cur]
  | b :: rest => if decide (b = LF) then cur :: splitLoop [] rest
                 else splitLoop (cur ++ [b]) rest
  end.

Definition Split (s : list byte) : list (list byte) := splitLoop [] s.

(** [findLines(data, &lines)]: the lines it stores and the count it
    returns. *)
Definition findLines (data : list byte) : list (list byte) * Z :=
  let lines := Split data in
  let lineCount := Z.of_nat (length lines) in
  if (0 <? lineCount)
     && (length (nth (Z.to_nat (lineCount - 1)) lines []) =? 0)%nat
  then (firstn (Z.to_nat (lineCount - 1)) lines, lineCount - 1)
  else (lines, lineCount).

(** [partialLine] is either a slice the goroutine allocated, or (after
    [partialLine = lastLine]) a window [chunkBuffer.Bytes[off:off+len]] of
    the chunk buffer, which the next [Read] writes into. *)
Inductive partial :=
| Owned (bs : list byte)
| View (off len : nat).

Definition partialLen (q : partial) : nat :=
  match q with Owned bs => length bs | View _ len => len end.

Definition contents (buf : list byte) (q : partial) : list byte :=
  match q with
  | Owned bs => bs
  | View off len => firstn len (skipn off buf)
  end.

(** The body of [if n > 0 { ... }] in the reading goroutine, after the
    [Read] has filled [buf]: the lines sent to the workers, the new
    [partialLine], and whether the branch ended in [continue]. *)
Definition chunkLines (buf : list byte) (partialLine : partial) (chunk : list byte)
  : list (list byte) * partial * bool :=
  let n := length chunk in
  let tail (sent : list (list byte)) (lines : list (list byte)) (q : partial) :=
    let lastLine := List.last lines [] in
    let '(lines, q) :=
      if bool_decide (nth (n - 1) chunk x00 <> LF)
      then (removelast lines, View (n - length lastLine) (length lastLine))
      else (lines, q) in
    (sent ++ filter (fun line => (0 < length line)%nat) lines, q, false) in
  if (0 <? partialLen partialLine)%nat then
    match IndexByte chunk LF with
    | Some newlineIdx =>
      let completeLine := contents buf partialLine ++ firstn newlineIdx chunk in
      tail [completeLine] (Split (skipn (newlineIdx + 1) chunk)) (Owned [])
    | None => ([], Owned (contents buf partialLine ++ chunk), true)
    end
  else tail [] (Split chunk) partialLine.

(** The reading goroutine of [processLinesParallel]: the lines it sends (each
    taken as it is when sent), the error it reports, [bytesProcessed], and
    the reader as it leaves it. *)
Fixpoint produceLines (ctx : context.Context)
  (script : list (list byte * option io.error)) (reads : nat)
  (buf : list byte) (partialLine : partial) (bytesProcessed : Z)
  : list (list byte) * option io.error * Z * io.Reader :=
  if context.Done ctx then
    ([], Some (context.Err ctx), bytesProcessed,
     {| io.script := script; io.reads := reads |})
  else
    match script with
    | [] =>
      (if (0 <? partialLen partialLine)%nat then [contents buf partialLine] else [],
       None, bytesProcessed, {| io.script := []; io.reads := S reads |})
    | (chunk, err) :: rest =>
      let n := length chunk in
      let buf := chunk ++ skipn n buf in
      let '(sent, q, continue) :=
        if (0 <? n)%nat then chunkLines buf partialLine chunk
        else ([], partialLine, false) in
      let bytesProcessed := bytesProcessed + Z.of_nat n in
      if continue then produceLines ctx rest (S reads) buf q bytesProcessed
      else
        match err with
        | Some e =>
          (sent ++ (if (0 <? partialLen q)%nat then [contents buf q] else []),
           if io.isEOF e then None else Some e, bytesProcessed,
           {| io.script := rest; io.reads := S reads |})
        | None =>
          let '(more, e, bytes', r) :=
            produceLines ctx rest (S reads) buf q bytesProcessed in
          (sent ++ more, e, bytes', r)
        end
    end.

(** A worker on one line. *)
Definition lineWorker (p : Processor) (line : list byte) : Z :=
  utf8.RuneCount (normalizer p line).

(** [processLinesParallel(ctx, reader, nil)]: [arrival] is the order in
    which the results channel delivers the workers' counts. *)
Definition processLinesParallel (p : Processor) (ctx : context.Context)
  (reader : io.Reader) (arrival : list Z -> list Z)
  : (Z * Z * option io.error) * io.Reader :=
  let buf := repeat x00 (Z.to_nat (chunkSize p)) in
  let '(jobs, err, bytesProcessed, r) :=
    produceLines ctx (io.script reader) (io.reads reader) buf (Owned []) 0 in
  if context.Done ctx then ((0, bytesProcessed, Some (context.Err ctx)), r)
  else
    let results := arrival (map (lineWorker p) jobs) in
    ((fold_left Z.add results 0, bytesProcessed, err), r).

(** [ProcessLines(ctx, reader, nil)]. *)
Definition ProcessLines (p : Processor) (ctx : context.Context)
  (reader : io.Reader) (arrival : list Z -> list Z)
  : (Z * Z * option io.error) * io.Reader :=
  if useParallel p then processLinesParallel p ctx reader arrival
  else processLinesOptimized p ctx reader.

(** *** Line ranges (optimized_buffers.go, optimized_processor.go) *)

(** [LineRanges]: the slice of [{Start, End}] pairs and the number of
    them in use. *)
Record LineRanges := { Ranges : list (Z * Z); Count : Z }.

(** [lr.Add(start, end)].  [make] gives a slice of zero pairs and [copy]
    fills its front; [None] is the panic of an index out of range. *)
Definition Add (lr : LineRanges) (start end_ : Z) : option LineRanges :=
  let ranges :=
    if Z.of_nat (length (Ranges lr)) <=? Count lr then
      let newCap := Z.of_nat (length (Ranges lr)) * 2 in
      let newCap := if newCap =? 0 then 8 else newCap in
      firstn (Z.to_nat newCap) (Ranges lr)
      ++ repeat (0, 0) (Z.to_nat newCap - length (Ranges lr))
    else Ranges lr in
  if (0 <=? Count lr) && (Count lr <? Z.of_nat (length ranges)) then
    Some {| Ranges := <[Z.to_nat (Count lr) := (start, end_)]> ranges;
            Count := Count lr + 1 |}
  else None.

(** [lr.Get(index)]; [None] is the panic of an index out of range. *)
Definition Get (lr : LineRanges) (index : Z) : option (Z * Z) :=
  if (index <? 0) || (Count lr <=? index) then Some (0, 0)
  else Ranges lr !! Z.to_nat index.

(** [lr.Reset()], which is also what [LineRangePool.Put] does. *)
Definition Reset (lr : LineRanges) : LineRanges :=
  {| Ranges := Ranges lr; Count := 0 |}.

(** [for i := 0; i < len(data); i++] of [findLineRanges]; [todo] is
    [data[i:]].  The result is [(ranges, lineStart, lineCount)]. *)
Fixpoint findLineRangesLoop (todo : list byte) (i : Z) (offset : Z)
  (ranges : LineRanges) (lineStart lineCount : Z) : option (LineRanges * Z * Z) :=
  match todo with
  | [] => Some (ranges, lineStart, lineCount)
  | b :: rest =>
    if decide (b = LF) then
      match Add ranges (lineStart + offset) (i + 1 + offset) with
      | None => None
      | Some ranges =>
        findLineRangesLoop rest (i + 1) offset ranges (i + 1) (lineCount + 1)
      end
    else findLineRangesLoop rest (i + 1) offset ranges lineStart lineCount
  end.

(** [findLineRanges(data, ranges, offset)]: the ranges as it leaves them
    and the count it returns. *)
Definition findLineRanges (data : list byte) (ranges : LineRanges) (offset : Z)
  : option (LineRanges * Z) :=
  match findLineRangesLoop data 0 offset ranges 0 0 with
  | None => None
  | Some (ranges, lineStart, lineCount) =>
    if lineStart <? Z.of_nat (length data) then
      match Add ranges (lineStart + offset) (Z.of_nat (length data) + offset) with
      | None => None
      | Some ranges => Some (ranges, lineCount + 1)
      end
    else Some (ranges, lineCount)
  end.

End lineprocessor.


(** ** Numbers *)

(** Go's conversion [float64(n)] of an [int]. *)
Definition float64 (n : Z) : float :=
  if n <? 0 then PrimFloat.opp (PrimFloat.of_uint63 (Uint63.of_Z (- n)))
  else PrimFloat.of_uint63 (Uint63.of_Z n).

(** [(value, nil)] or [(nil, err)]. *)
Inductive result (A : Type) :=
| Ok (a : A)
| Fail (e : io.error).
Arguments Ok {A} a.
Arguments Fail {A} e.

(** ** Packages internal/ports and internal/core/domain *)

Module ports.

Inductive StreamingMode := ChunkByChunk | LineByLine | WordByWord.

(** A value stored in a [map[string]interface{}] of details. *)
Inductive detail :=
| DString (s : string)
| DInt (n : Z)
| DFloat (f : float)
| DMode (m : StreamingMode).

(** [StreamResult]; [ProcessingTime] is wall-clock time and is left out. *)
Record StreamResult := {
  Name : string;
  Score : float;
  Passed : bool;
  OriginalLength : Z;
  AugmentedLength : Z;
  LengthRatio : float;
  Threshold : float;
  Details : gmap string detail;
  BytesProcessed : Z
}.

(** [StreamProcessor.ProcessStream]: the count, the error, and the reader as
    the call leaves it; [None] when the call does not return. *)
Definition ProcessStreamFn : Type :=
  context.Context -> io.Reader -> StreamingMode ->
  option ((Z * option io.error) * io.Reader).

End ports.

Module domain.

Record Result := {
  Name : string;
  Score : float;
  Passed : bool;
  OriginalLength : Z;
  AugmentedLength : Z;
  LengthRatio : float;
  Threshold : float;
  Details : gmap string ports.detail
}.

End domain.

(** ** Package internal/core/length (similarity.go) *)

Module core_length.
Section WithTables.
Context {T : unicode.Tables}.

Record SimilarityConfig := { Threshold : float; MaxDiffRatio : float }.

Definition DefaultConfig : SimilarityConfig :=
  {| Threshold := 0.7; MaxDiffRatio := 0.3 |}.

(** [Validate]: [None] is the nil error. *)
Definition Validate (c : SimilarityConfig) : option io.error :=
  if (Threshold c <? 0)%float || (1 <? Threshold c)%float then
    Some (io.New "threshold must be between 0 and 1")
  else if (MaxDiffRatio c <=? 0)%float then
    Some (io.New "maxDiffRatio must be greater than 0")
  else None.

Record Calculator := {
  config : SimilarityConfig;
  normalizer : list byte -> list byte
}.

Definition NewCalculator (config : SimilarityConfig)
  (normalizer : list byte -> list byte) : result Calculator :=
  match Validate config with
  | Some err => Fail err
  | None => Ok {| config := config; normalizer := normalizer |}
  end.

(** The result returned on a failure: only [Name], [Score], [Passed] and
    [Details] are set. *)
Definition failure (msg : string) : domain.Result :=
  {| domain.Name := "length_similarity"; domain.Score := 0;
     domain.Passed := false; domain.OriginalLength := 0;
     domain.AugmentedLength := 0; domain.LengthRatio := 0;
     domain.Threshold := 0;
     domain.Details := <["error" := ports.DString msg]> ∅ |}.

(** [Calculator.Compute]. *)
Definition Compute (c : Calculator) (ctx : context.Context)
  (original augmented : list byte) : domain.Result :=
  let normalizedOriginal := normalizer c original in
  let normalizedAugmented := normalizer c augmented in
  if context.Done ctx then failure "computation cancelled"
  else
    let origWords := strings.Fields normalizedOriginal in
    let augWords := strings.Fields normalizedAugmented in
    let origLen := Z.of_nat (length origWords) in
    let augLen := Z.of_nat (length augWords) in
    if origLen =? 0 then failure "original text has zero words"
    else
      let lengthRatio :=
        if origLen >? augLen then (float64 augLen / float64 origLen)%float
        else (float64 origLen / float64 augLen)%float in
      let diff := PrimFloat.abs (float64 (origLen - augLen)) in
      let diffRatio := (diff / (float64 origLen * MaxDiffRatio (config c)))%float in
      let diffRatio := if (1 <? diffRatio)%float then 1%float else diffRatio in
      let scaledScore := (1 - diffRatio)%float in
      let passed := (Threshold (config c) <=? scaledScore)%float in
      {| domain.Name := "length_similarity"; domain.Score := scaledScore;
         domain.Passed := passed; domain.OriginalLength := origLen;
         domain.AugmentedLength := augLen; domain.LengthRatio := lengthRatio;
         domain.Threshold := Threshold (config c);
         domain.Details :=
           <["threshold" := ports.DFloat (Threshold (config c))]>
           (<["length_ratio" := ports.DFloat lengthRatio]>
           (<["augmented_length" := ports.DInt augLen]>
           (<["original_length" := ports.DInt origLen]> ∅))) |}.

End WithTables.
End core_length.

(** ** Package lengthsimilarity (length_similarity.go) *)

Module lengthsimilarity.

(** A logger handle; logging has no effect on the results. *)
Inductive Logger := logger.

Record Config := {
  Threshold : float;
  MaxDiffRatio : float;
  Logger_ : option Logger;
  Normalizer : option (list byte -> list byte);
  Precision : Z
}.

Definition Option := Config -> Config.

Definition WithThreshold (th : float) : Option := fun cfg =>
  {| Threshold := th; MaxDiffRatio := MaxDiffRatio cfg; Logger_ := Logger_ cfg;
     Normalizer := Normalizer cfg; Precision := Precision cfg |}.

Definition WithMaxDiffRatio (ratio : float) : Option := fun cfg =>
  {| Threshold := Threshold cfg; MaxDiffRatio := ratio; Logger_ := Logger_ cfg;
     Normalizer := Normalizer cfg; Precision := Precision cfg |}.

Definition DefaultThreshold : float := 0.7.
Definition DefaultMaxDiffRatio : float := 0.3.

Record LengthSimilarity := { config : Config }.

(** [New(opts...)]; [createDefaultLogger] stands for the call into the
    logging library. *)
Definition New (createDefaultLogger : result Logger) (opts : list Option)
  : result LengthSimilarity :=
  let cfg := {| Threshold := DefaultThreshold; MaxDiffRatio := DefaultMaxDiffRatio;
                Logger_ := None; Normalizer := None; Precision := 0 |} in
  let cfg := fold_left (fun cfg opt => opt cfg) opts cfg in
  if (Threshold cfg <? 0)%float || (1 <? Threshold cfg)%float then
    Fail (io.New "threshold must be between 0 and 1")
  else if (MaxDiffRatio cfg <=? 0)%float then
    Fail (io.New "maxDiffRatio must be greater than 0")
  else
    match Logger_ cfg with
    | Some _ => Ok {| config := cfg |}
    | None =>
      match createDefaultLogger with
      | Fail err => Fail err
      | Ok l => Ok {| config :=
                        {| Threshold := Threshold cfg; MaxDiffRatio := MaxDiffRatio cfg;
                           Logger_ := Some l; Normalizer := Normalizer cfg;
                           Precision := Precision cfg |} |}
      end
    end.

End lengthsimilarity.

(** ** Package internal/adapters/stream (processor.go, streamingcalculator.go) *)

Module stream.

Definition DefaultChunkSize : Z := 8192.
Definition MaxScannerBufferSize : Z := 1024 * 1024.

Record DefaultProcessor := {
  normalizer : list byte -> list byte;
  chunkSize : Z;
  wordProcessor : wordprocessor.Processor
}.

Definition NewDefaultProcessor (normalizer : list byte -> list byte)
  : DefaultProcessor :=
  {| normalizer := normalizer;
     chunkSize := DefaultChunkSize;
     wordProcessor :=
       wordprocessor.NewProcessor
         {| wordprocessor.ChunkSize := DefaultChunkSize * 8;
            wordprocessor.BatchSize := 1000;
            wordprocessor.UseParallel := false |} |}.

Definition WithChunkSize (p : DefaultProcessor) (size : Z) : DefaultProcessor :=
  {| normalizer := normalizer p; chunkSize := size;
     wordProcessor := wordProcessor p |}.

Definition WithParallelWordProcessing (p : DefaultProcessor) (enable : bool)
  : DefaultProcessor :=
  {| normalizer := normalizer p; chunkSize := chunkSize p;
     wordProcessor :=
       wordprocessor.NewProcessor
         {| wordprocessor.ChunkSize := chunkSize p * 8;
            wordprocessor.BatchSize := 1000;
            wordprocessor.UseParallel := enable |} |}.

Record StreamingConfig := {
  Threshold : float;
  MaxDiffRatio : float;
  ChunkSize : Z;
  Mode : ports.StreamingMode
}.

Section WithEnvironment.
Context {T : unicode.Tables}.

(** [bufio.Scanner] with the default [ScanLines] split over a reader: the
    tokens [Scan] delivers, [scanner.Err()], and the reader afterwards.  The
    scanner belongs to the Go distribution and is a parameter here. *)
Variable bufioScanLines :
  io.Reader -> (list (list byte) * option io.error) * io.Reader.

(** The order in which the word workers' results reach the collector. *)
Variable arrival :
  list wordprocessor.WordJobResult -> list wordprocessor.WordJobResult.

(** The read loop of [processChunks] (nil writer). *)
Fixpoint processChunksLoop (p : DefaultProcessor) (ctx : context.Context)
  (script : list (list byte * option io.error)) (reads : nat)
  (count : Z) (totalBytes : Z) : (Z * Z * option io.error) * io.Reader :=
  if context.Done ctx then
    ((count, totalBytes, Some (context.Err ctx)),
     {| io.script := script; io.reads := reads |})
  else
    match script with
    | [] => ((count, totalBytes, Some io.EOF),
             {| io.script := []; io.reads := S reads |})
    | (chunk, err) :: rest =>
      let n := Z.of_nat (length chunk) in
      let totalBytes := totalBytes + n in
      let count := if 0 <? n then count + utf8.RuneCount (normalizer p chunk)
                   else count in
      match err with
      | Some e => ((count, totalBytes, Some e),
                   {| io.script := rest; io.reads := S reads |})
      | None => processChunksLoop p ctx rest (S reads) count totalBytes
      end
    end.

Definition processChunks (p : DefaultProcessor) (ctx : context.Context)
  (reader : io.Reader) : (Z * Z * option io.error) * io.Reader :=
  processChunksLoop p ctx (io.script reader) (io.reads reader) 0 0.

(** [for scanner.Scan() { ... }] of [processLines] over the tokens. *)
Fixpoint processLinesLoop (p : DefaultProcessor) (ctx : context.Context)
  (tokens : list (list byte)) (count : Z) (totalBytes : Z)
  : Z * Z * option io.error * bool :=
  match tokens with
  | [] => (count, totalBytes, None, false)
  | line :: rest =>
    if context.Done ctx then (count, totalBytes, Some (context.Err ctx), true)
    else
      processLinesLoop p ctx rest
        (count + utf8.RuneCount (normalizer p line))
        (totalBytes + (Z.of_nat (length line) + 1))
  end.

Definition processLines (p : DefaultProcessor) (ctx : context.Context)
  (reader : io.Reader) : (Z * Z * option io.error) * io.Reader :=
  let '((tokens, scanErr), r) := bufioScanLines reader in
  let '(count, totalBytes, err, stopped) := processLinesLoop p ctx tokens 0 0 in
  if stopped then ((count, totalBytes, err), r)
  else ((count, totalBytes, scanErr), r).

(** [DefaultProcessor.ProcessStream] on a reader that is not nil. *)
Definition ProcessStream (p : DefaultProcessor) : ports.ProcessStreamFn :=
  fun ctx reader mode =>
    let outcome :=
      match mode with
      | ports.ChunkByChunk => Some (processChunks p ctx reader)
      | ports.LineByLine => Some (processLines p ctx reader)
      | ports.WordByWord =>
        wordprocessor.ProcessWords (wordProcessor p) ctx reader arrival
      end in
    match outcome with
    | None => None
    | Some ((count, bytesProcessed, err), r) =>
      match io.failed err with
      | Some e => Some ((count, Some e), r)
      | None =>
        if (bytesProcessed =? 0) && io.isEOFerr err
        then Some ((0, None), r)
        else Some ((count, None), r)
      end
    end.

(** The result returned when a stream could not be processed. *)
Definition failure (which : string) (err : io.error) : ports.StreamResult :=
  {| ports.Name := "streaming_similarity"; ports.Score := 0;
     ports.Passed := false; ports.OriginalLength := 0;
     ports.AugmentedLength := 0; ports.LengthRatio := 0; ports.Threshold := 0;
     ports.Details :=
       <["error" := ports.DString
                      ("error processing " +:+ which +:+ " stream: " +:+ io.Error err)]> ∅;
     ports.BytesProcessed := 0 |}.

(** The scoring part of [ComputeStreaming], once both counts are known. *)
Definition score (config : StreamingConfig) (origCount augCount : Z)
  : ports.StreamResult :=
  if (origCount =? 0) && (augCount =? 0) then
    {| ports.Name := "streaming_similarity"; ports.Score := 1;
       ports.Passed := true; ports.OriginalLength := 0;
       ports.AugmentedLength := 0; ports.LengthRatio := 1;
       ports.Threshold := Threshold config;
       ports.Details :=
         <["note" := ports.DString "both texts are empty, considered identical"]> ∅;
       ports.BytesProcessed := 0 |}
  else if origCount =? 0 then
    {| ports.Name := "streaming_similarity"; ports.Score := 0;
       ports.Passed := false; ports.OriginalLength := 0;
       ports.AugmentedLength := augCount; ports.LengthRatio := 0;
       ports.Threshold := Threshold config;
       ports.Details :=
         <["warning" := ports.DString "original text has zero length"]> ∅;
       ports.BytesProcessed := 0 |}
  else
    let lengthRatio :=
      if origCount >? augCount then (float64 augCount / float64 origCount)%float
      else (float64 origCount / float64 augCount)%float in
    let diff := PrimFloat.abs (float64 (origCount - augCount)) in
    let diffRatio := (diff / (float64 origCount * MaxDiffRatio config))%float in
    let diffRatio := if (1 <? diffRatio)%float then 1%float else diffRatio in
    let scaledScore := (1 - diffRatio)%float in
    let passed := (Threshold config <=? scaledScore)%float in
    {| ports.Name := "streaming_similarity"; ports.Score := scaledScore;
       ports.Passed := passed; ports.OriginalLength := origCount;
       ports.AugmentedLength := augCount; ports.LengthRatio := lengthRatio;
       ports.Threshold := Threshold config;
       ports.Details :=
         <["mode" := ports.DMode (Mode config)]>
         (<["threshold" := ports.DFloat (Threshold config)]>
         (<["length_ratio" := ports.DFloat lengthRatio]>
         (<["augmented_length" := ports.DInt augCount]>
         (<["original_length" := ports.DInt origCount]> ∅))));
       ports.BytesProcessed := 0 |}.

(** The body of [ComputeStreaming], which [StreamingCalculator]
    (processor.go) and [StreamingCalculatorExtended]
    (streamingcalculator.go) share statement for statement; they differ in
    the processor they call.  The result comes with both readers as the
    call leaves them. *)
Definition computeStreaming (ProcessStream : ports.ProcessStreamFn)
  (config : StreamingConfig) (ctx : context.Context)
  (original augmented : io.Reader)
  : option (ports.StreamResult * io.Reader * io.Reader) :=
  match ProcessStream ctx original (Mode config) with
  | None => None
  | Some ((origCount, err), original') =>
    match io.failed err with
    | Some e => Some (failure "original" e, original', augmented)
    | None =>
      match ProcessStream ctx augmented (Mode config) with
      | None => None
      | Some ((augCount, err), augmented') =>
        match io.failed err with
        | Some e => Some (failure "augmented" e, original', augmented')
        | None => Some (score config origCount augCount, original', augmented')
        end
      end
    end
  end.

(** *** StreamingCalculatorExtended (streamingcalculator.go) *)

Record StreamingCalculatorExtended := {
  Config : StreamingConfig;
  Processor : ports.ProcessStreamFn
}.

Definition StreamingCalculatorExtended_ComputeStreaming
  (sc : StreamingCalculatorExtended) (ctx : context.Context)
  (original augmented : io.Reader)
  : option (ports.StreamResult * io.Reader * io.Reader) :=
  computeStreaming (Processor sc) (Config sc) ctx original augmented.

(** *** StreamingCalculator (processor.go) *)

Record StreamingCalculator := {
  config : StreamingConfig;
  calcNormalizer : list byte -> list byte;
  processor : DefaultProcessor
}.

(** [NewStreamingCalculator]: the error it returns is always nil. *)
Definition NewStreamingCalculator (config : StreamingConfig)
  (normalizer : list byte -> list byte) : result StreamingCalculator :=
  let processor := WithChunkSize (NewDefaultProcessor normalizer) (ChunkSize config) in
  Ok {| config := config; calcNormalizer := normalizer; processor := processor |}.

Definition StreamingCalculator_ComputeStreaming
  (sc : StreamingCalculator) (ctx : context.Context)
  (original augmented : io.Reader)
  : option (ports.StreamResult * io.Reader * io.Reader) :=
  computeStreaming (ProcessStream (processor sc)) (config sc) ctx original augmented.

End WithEnvironment.

(** *** The line-processor adapter (processor_factory.go) *)

(** [StreamProcessorWithLineProcessor.ProcessStream]; [arrival] orders the
    workers' counts when the line processor runs its pool. *)
Definition StreamProcessorWithLineProcessor_ProcessStream
  (processor : lineprocessor.Processor) (arrival : list Z -> list Z)
  : ports.ProcessStreamFn :=
  fun ctx reader mode =>
    let '((count, _, err), r) :=
      lineprocessor.ProcessLines processor ctx reader arrival in
    Some ((count, err), r).

End stream.

(** ** The formula of the specification

    These definitions follow the words of the specification, not the code:
    [ratio = min(o, a) / max(o, a)], [diff = |o - a|],
    [diffRatio = min(1.0, diff / (o * maxDiffRatio))],
    [score = 1.0 - diffRatio], [passed = score >= threshold].  The minimum
    with 1.0 is 1.0 when its argument exceeds 1.0 and the argument itself
    otherwise, also when the argument is not a number. *)

Definition spec_min1 (x : float) : float := if (1 <? x)%float then 1%float else x.

Definition spec_ratio (origCount augCount : Z) : float :=
  (float64 (Z.min origCount augCount) / float64 (Z.max origCount augCount))%float.

Definition spec_score (origCount augCount : Z) (maxDiffRatio : float) : float :=
  (1 - spec_min1 (float64 (Z.abs (origCount - augCount))
                  / (float64 origCount * maxDiffRatio)))%float.

Definition spec_passed (score threshold : float) : bool := (threshold <=? score)%float.

(** The normalization rule in the words of the specification, on ASCII
    text: a punctuation or white-space character emits one space unless the
    character emitted just before was a space; any other character emits
    its lower-case form. *)
Definition spec_emit {T : unicode.Tables} (out : list byte) (b : byte) : list byte :=
  if unicode.IsPunct (bz b) || unicode.IsSpace (bz b) then
    if bool_decide (last out = Some normalizer.SP) then out
    else out ++ [normalizer.SP]
  else out ++ [byte_of_Z (unicode.ToLower (bz b))].

Definition spec_normalize_ascii {T : unicode.Tables} (text : list byte) : list byte :=
  fold_left spec_emit text [].

(** The lines of a text in the words of the specification for the case
    without CR: the pieces between LF bytes, the piece after the last LF
    included. *)
Fixpoint spec_lines (text : list byte) : list (list byte) :=
  match text with
  | [] => [[]]
  | b :: rest =>
    if decide (b = lineprocessor.LF) then [] :: spec_lines rest
    else match spec_lines rest with
         | line :: more => (b :: line) :: more
         | [] => [[b]]
         end
  end.

(** The sum of the normalized rune counts of the non-empty lines. *)
Definition spec_line_count (norm : list byte -> list byte) (text : list byte) : Z :=
  fold_right Z.add 0
    (map (fun line => utf8.RuneCount (norm line))
         (filter (fun line => line <> []) (spec_lines text))).

(** A position between [pre] and [post] that is the start or the end of the
    input, or lies directly after or directly before an LF. *)
Definition lineBoundary (pre post : list byte) : Prop :=
  pre = [] \/ post = []
  \/ (exists pre', pre = pre' ++ [lineprocessor.LF])
  \/ (exists post', post = lineprocessor.LF :: post').

(** ** Go's Unicode tables and the normalizers

    A Unicode scalar value is what a valid UTF-8 sequence encodes: a code
    point up to U+10FFFF that is not a surrogate. *)
Definition scalar (r : Z) : Prop :=
  0 <= r <= unicode.MaxRune /\ ~ (55296 <= r <= 57343).

(** What the idempotence of the normalizers asks of the tables of the Go
    distribution:
    - the lower-case form of a scalar value is a scalar value, and is its
      own lower-case form;
    - the lower-case form of an upper-case code point below 2^21 (the range
      of the repository's decoder) is below 2^21, is neither punctuation nor
      white space, and is mapped to itself in case it is upper case as well
      (Go has upper-case letters without a lower-case form);
    - lower-casing makes neither punctuation nor white space of a scalar
      value that is none;
    - U+FFFD, which stands for an invalid byte, is neither punctuation, nor
      white space, nor upper case. *)
Record CaseTables (T : unicode.Tables) : Prop := {
  lower_scalar : forall r, scalar r -> scalar (unicode.ToLower r);
  lower_lower : forall r, scalar r ->
    unicode.ToLower (unicode.ToLower r) = unicode.ToLower r;
  lower_punct : forall r, scalar r -> unicode.IsPunct r = false ->
    unicode.IsPunct (unicode.ToLower r) = false;
  lower_space : forall r, scalar r -> unicode.IsSpace r = false ->
    unicode.IsSpace (unicode.ToLower r) = false;
  lower_plain : forall r, 0 <= r < 2097152 -> unicode.IsUpper r = true ->
    0 <= unicode.ToLower r < 2097152
    /\ unicode.IsPunct (unicode.ToLower r) = false
    /\ unicode.IsSpace (unicode.ToLower r) = false
    /\ (unicode.IsUpper (unicode.ToLower r) = true ->
        unicode.ToLower (unicode.ToLower r) = unicode.ToLower r);
  replacement_plain :
    unicode.IsPunct unicode.ReplacementChar = false
    /\ unicode.IsSpace unicode.ReplacementChar = false
    /\ unicode.IsUpper unicode.ReplacementChar = false
}.

(** A continuation byte [10xxxxxx], and a text that starts with [n] of
    them: what [decodeRune] asks of the bytes after a lead byte. *)
Definition isCont (b : byte) : bool := Z.land (bz b) 192 =? 128.

Fixpoint contPrefix (n : nat) (s : list byte) : bool :=
  match n, s with
  | O, _ => true
  | S n', c :: rest => isCont c && contPrefix n' rest
  | S _, [] => false
  end.

(** The number of continuation bytes after the lead byte [b >= 0xC0]. *)
Definition need (b : byte) : nat :=
  if bz b <? 224 then 1%nat else if bz b <? 240 then 2%nat else 3%nat.

(** The normalizers that work rune by rune, as maps on runes: what the
    default normalizer, the rune-buffer [OptimizedNormalizer] and
    [FastNormalizer] write for a rune. *)
Definition defaultRune {T : unicode.Tables} (r : Z) : Z :=
  if unicode.IsPunct (unicode.ToLower r) then 32 else unicode.ToLower r.

Definition optimizedRunesRune {T : unicode.Tables} (r : Z) : Z :=
  if unicode.IsPunct r then 32 else unicode.ToLower r.

Definition fastRune {T : unicode.Tables} (r : Z) : Z :=
  if r <? 128 then
    if unicode.asciiPunct r then 32
    else if unicode.asciiUpper r then r + 32
    else r
  else if unicode.IsPunct r then 32
  else unicode.ToLower r.

(** The table-driven [OptimizedNormalizer] on runes: [collapse rs w] are
    the runes written for [rs] when [w] tells that a space was written
    last. *)
Definition optimizedClass {T : unicode.Tables} (r : Z) : option Z :=
  if r <? 128 then
    if unicode.asciiPunct r || unicode.asciiSpace r then None
    else if unicode.asciiUpper r then Some (r + 32)
    else Some r
  else if unicode.IsPunct r || unicode.IsSpace r then None
  else Some (unicode.ToLower r).

Fixpoint collapse {T : unicode.Tables} (rs : list Z) (lastWasSpace : bool) : list Z :=
  match rs with
  | [] => []
  | r :: rest =>
    match optimizedClass r with
    | Some c => c :: collapse rest false
    | None => if lastWasSpace then collapse rest true else 32 :: collapse rest true
    end
  end.

(** An ASCII byte the table of the normalizer leaves alone. *)
Definition plain (c : byte) : Prop :=
  bz c < 128 /\ unicode.asciiPunct (bz c) = false
  /\ unicode.asciiUpper (bz c) = false.

(** A text the loop of [normalizeUnicode] copies unchanged. *)
Definition stable {T : unicode.Tables} (y : list byte) : Prop :=
  forall lastWasSpace, normalizer.normalizeUnicodeLoop y [] lastWasSpace = y.

(** Whether a text holds two spaces next to each other. *)
Fixpoint adjacentSpaces (y : list byte) : bool :=
  match y with
  | b :: (c :: _) as rest =>
    (bool_decide (b = normalizer.SP) && bool_decide (c = normalizer.SP))
    || adjacentSpaces rest
  | _ => false
  end.

(** ** A reformulation used in the proofs about the line scanner

    [scanChunk] keeps the indices [lineStart] and [i]; [scanAcc] keeps the
    bytes [chunk[lineStart:i]] instead.  [scanChunk_scanAcc] below shows that
    they compute the same. *)
Fixpoint scanAcc (p : lineprocessor.Processor) (cur : list byte) (todo : list byte)
  (carryoverCR : bool) (charCount : Z) : list byte * bool * Z :=
  match todo with
  | [] => (cur, carryoverCR, charCount)
  | b :: rest =>
    if decide (b = lineprocessor.LF \/ b = lineprocessor.CR) then
      if decide (b = lineprocessor.CR) then
        if match rest with c :: _ => bool_decide (c = lineprocessor.LF) | [] => false end
        then scanAcc p (cur ++ [b]) rest true charCount
        else scanAcc p [] rest false (lineprocessor.processLine p cur charCount)
      else scanAcc p [] rest false (lineprocessor.processLine p cur charCount)
    else scanAcc p (cur ++ [b]) rest carryoverCR charCount
  end.

(** Feeding lines to [processLine] one after the other. *)
Definition linesFold (p : lineprocessor.Processor) (lines : list (list byte))
  (count : Z) : Z :=
  fold_left (fun c line => lineprocessor.processLine p line c) lines count.

(** One turn of the read loop advances the cancellation counter. *)
Definition tick (st : lineprocessor.state) : lineprocessor.state :=
  {| lineprocessor.charCount := lineprocessor.charCount st;
     lineprocessor.bytesProcessed := lineprocessor.bytesProcessed st;
     lineprocessor.inLine := lineprocessor.inLine st;
     lineprocessor.carryoverCR := lineprocessor.carryoverCR st;
     lineprocessor.contextCheckCounter := lineprocessor.contextCheckCounter st + 1;
     lineprocessor.lineBuffer := lineprocessor.lineBuffer st |}.

(** ** Notions used in the further properties *)

(** A byte that is no ASCII punctuation mark and no ASCII upper-case
    letter. *)
Definition cleanByte (b : byte) : Prop :=
  unicode.asciiPunct (bz b) = false /\ unicode.asciiUpper (bz b) = false.

(** A scalar value that is no ASCII punctuation mark and no ASCII
    upper-case letter. *)
Definition cleanRune (c : Z) : Prop :=
  scalar c /\ unicode.asciiPunct c = false /\ unicode.asciiUpper c = false.

(** The words counted by the first [k] results of the word workers. *)
Definition countsTo (rs : list wordprocessor.WordJobResult) (k : nat) : Z :=
  fold_right Z.add 0 (map wordprocessor.WordCount (take k rs)).

(** Every entry of the collector's map is one of the results [rs], stored
    under its index. *)
Definition known (rs : list wordprocessor.WordJobResult)
  (m : gmap Z wordprocessor.WordJobResult) : Prop :=
  forall i r, m !! i = Some r -> exists j : nat, i = Z.of_nat j /\ rs !! j = Some r.

(** The state of the collector after the results [arrived] out of [rs]:
    the results up to [nextChunkID] are folded into the total, the others
    wait in the map. *)
Definition collected (rs arrived : list wordprocessor.WordJobResult)
  (c : wordprocessor.collector) : Prop :=
  wordprocessor.failed c = None
  /\ known rs (wordprocessor.resultMap c)
  /\ exists k : nat,
       (k <= length rs)%nat
       /\ wordprocessor.nextChunkID c = Z.of_nat k
       /\ wordprocessor.total c = countsTo rs k
       /\ wordprocessor.resultMap c !! Z.of_nat k = None
       /\ forall (j : nat) r, rs !! j = Some r -> r ∈ arrived ->
            (j < k)%nat \/ wordprocessor.resultMap c !! Z.of_nat j = Some r.

(** Adding ranges one after the other. *)
Definition addAll (lr : lineprocessor.LineRanges) (rs : list (Z * Z))
  : option lineprocessor.LineRanges :=
  fold_left (fun acc r =>
               match acc with
               | Some lr => lineprocessor.Add lr (fst r) (snd r)
               | None => None
               end) rs (Some lr).

(** A text cut after each LF: every piece but the last ends with its LF,
    and there is no empty piece.  [cur] is the piece being read. *)
Fixpoint splitAfter (cur : list byte) (todo : list byte) : list (list byte) :=
  match todo with
  | [] => match cur with [] => [] | _ => [cur] end
  | b :: rest =>
    if decide (b = lineprocessor.LF) then (cur ++ [b]) :: splitAfter [] rest
    else splitAfter (cur ++ [b]) rest
  end.

(** Where pieces laid end to end from [start] begin and end. *)
Fixpoint layout (start : Z) (pieces : list (list byte)) : list (Z * Z) :=
  match pieces with
  | [] => []
  | piece :: rest =>
    (start, start + Z.of_nat (length piece))
    :: layout (start + Z.of_nat (length piece)) rest
  end.

(** The scanner used where a closed example needs one: it delivers no
    token.  No example below runs the line mode of [DefaultProcessor]. *)
Definition noLines (r : io.Reader) : (list (list byte) * option io.error) * io.Reader :=
  (([], None), r).

(** The sentences of the specification's example. *)
Definition foxDog : list byte := bytes "The quick brown fox jumps over the lazy dog.".
Definition foxCanine : list byte := bytes "The quick brown fox jumps over the lazy canine.".

(** ** Concrete calculators and inputs for the examples

    The examples run the code with Go's Latin-1 tables; their inputs are
    ASCII or Latin-1 text. *)

Definition defaultNormalizer : list byte -> list byte :=
  normalizer.DefaultNormalize (T := unicode.latin1).

Definition efficientNormalizer : list byte -> list byte :=
  normalizer.Normalize (T := unicode.latin1).

(** A line processor whose chunk buffer holds [size] bytes, and a word
    processor likewise; a text is read through them in pieces of [size]
    bytes. *)
Definition lineProcessor (norm : list byte -> list byte) (size : nat) (parallel : bool)
  : lineprocessor.Processor :=
  lineprocessor.NewProcessor norm
    {| lineprocessor.ChunkSize := Z.of_nat size; lineprocessor.BatchSize := 0;
       lineprocessor.UseParallel := parallel |}.

Definition wordProcessor (size : nat) (parallel : bool) : wordprocessor.Processor :=
  wordprocessor.NewProcessor
    {| wordprocessor.ChunkSize := Z.of_nat size; wordprocessor.BatchSize := 0;
       wordprocessor.UseParallel := parallel |}.

(** The count [ProcessLines] returns for a text read [size] bytes at a time. *)
Definition lineCount (norm : list byte -> list byte) (size : nat) (parallel : bool)
  (text : list byte) : Z * Z * option io.error :=
  fst (lineprocessor.ProcessLines (lineProcessor norm size parallel)
         context.Background (io.stringsReader size text) id).

(** The count [ProcessWords] returns for a text read [size] bytes at a time. *)
Definition wordCount (size : nat) (parallel : bool) (text : list byte)
  : option (Z * Z * option io.error) :=
  option_map fst
    (wordprocessor.ProcessWords (T := unicode.latin1) (wordProcessor size parallel)
       context.Background (io.stringsReader size text) id).

(** "ab", CR, LF, "cd". *)
Definition crlfText : list byte :=
  bytes "ab" ++ [lineprocessor.CR; lineprocessor.LF] ++ bytes "cd".

(** "a", the two bytes of U+00E9 (e with acute accent), "b": one word. *)
Definition accentedWord : list byte := [x61; xc3; xa9; x62].

(** "H", U+00C9 (two bytes), "L, ", the invalid byte 0xFF, "W", U+00D6 (two
    bytes), "!!": upper-case letters inside and outside ASCII, punctuation,
    a space and a byte that is not UTF-8. *)
Definition mixedText : list byte :=
  [x48; xc3; x89; x4c; x2c; x20; xff; x57; xc3; x96; x21; x21].

(** "a", CR, "b". *)
Definition crText : list byte := bytes "a" ++ [lineprocessor.CR] ++ bytes "b".

(** The non-streaming calculator with the default configuration. *)
Definition wordCalculator : core_length.Calculator :=
  {| core_length.config := core_length.DefaultConfig;
     core_length.normalizer := defaultNormalizer |}.

Definition streamingConfig (th : float) (mode : ports.StreamingMode)
  : stream.StreamingConfig :=
  {| stream.Threshold := th; stream.MaxDiffRatio := 0.3;
     stream.ChunkSize := 8192; stream.Mode := mode |}.

(** The extended calculator over the default processor, in word mode. *)
Definition wordStreamCalculator : stream.StreamingCalculatorExtended :=
  {| stream.Config := streamingConfig 0.7 ports.WordByWord;
     stream.Processor :=
       stream.ProcessStream (T := unicode.latin1) noLines id
         (stream.NewDefaultProcessor defaultNormalizer) |}.

(** The extended calculator over the line-processor adapter. *)
Definition lineStreamCalculator : stream.StreamingCalculatorExtended :=
  {| stream.Config := streamingConfig 0.7 ports.LineByLine;
     stream.Processor :=
       stream.StreamProcessorWithLineProcessor_ProcessStream
         (lineProcessor defaultNormalizer 8 false) id |}.

(** What [NewStreamingCalculator] returns for a configuration. *)
Definition streamingCalculator (config : stream.StreamingConfig)
  : stream.StreamingCalculator :=
  {| stream.config := config; stream.calcNormalizer := defaultNormalizer;
     stream.processor :=
       stream.WithChunkSize (stream.NewDefaultProcessor defaultNormalizer)
                            (stream.ChunkSize config) |}.

(** A reader whose first [Read] delivers two bytes and fails. *)
Definition brokenReader : io.Reader :=
  {| io.script := [(bytes "ab", Some (io.New "connection reset"))]; io.reads := 0 |}.

Definition emptyReader : io.Reader := io.stringsReader 4096 [].

(* ===================================================================== *)
(** * Part II.  Properties                                                *)
(* ===================================================================== *)

(** ** Floating-point facts used by the scorer *)

Lemma SFabs_binary_round_aux prec emax mx ex lx :
  SFabs (binary_round_aux prec emax false mx ex lx)
  = binary_round_aux prec emax false mx ex lx.
Proof.
  unfold binary_round_aux.
  destruct (shr_fexp prec emax mx ex lx) as [mrs' e'].
  destruct (shr_fexp prec emax _ e' loc_Exact) as [mrs'' e''].
  destruct (shr_m mrs''); try reflexivity.
  destruct (e'' <=? emax - prec); reflexivity.
Qed.

Lemma abs_of_uint63 n : PrimFloat.abs (PrimFloat.of_uint63 n) = PrimFloat.of_uint63 n.
Proof.
  apply Prim2SF_inj. rewrite FloatAxioms.abs_spec, FloatAxioms.of_uint63_spec.
  unfold binary_normalize.
  destruct (Uint63.to_Z n) eqn:E; try reflexivity.
  - unfold binary_round. destruct (shl_align _ _ _). apply SFabs_binary_round_aux.
  - pose proof (Uint63.to_Z_bounded n). lia.
Qed.

Lemma abs_opp x : PrimFloat.abs (PrimFloat.opp x) = PrimFloat.abs x.
Proof.
  apply Prim2SF_inj. rewrite !FloatAxioms.abs_spec, FloatAxioms.opp_spec.
  destruct (Prim2SF x); reflexivity.
Qed.

(** [math.Abs(float64(n))] is the conversion of the integer [|n|]. *)
Lemma abs_float64 n : PrimFloat.abs (float64 n) = float64 (Z.abs n).
Proof.
  unfold float64. destruct (Z.ltb_spec n 0).
  - rewrite abs_opp, abs_of_uint63.
    destruct (Z.ltb_spec (Z.abs n) 0); [lia|]. rewrite Z.abs_neq by lia. reflexivity.
  - rewrite abs_of_uint63.
    destruct (Z.ltb_spec (Z.abs n) 0); [lia|]. rewrite Z.abs_eq by lia. reflexivity.
Qed.

(** ** The scorer and the orchestrators *)

Section Scoring.
Context {T : unicode.Tables}.

Lemma computeStreaming_scores (PS : ports.ProcessStreamFn) config ctx
  original augmented origCount augCount e1 e2 original' augmented' :
  PS ctx original (stream.Mode config) = Some ((origCount, e1), original') ->
  io.failed e1 = None ->
  PS ctx augmented (stream.Mode config) = Some ((augCount, e2), augmented') ->
  io.failed e2 = None ->
  stream.computeStreaming PS config ctx original augmented
  = Some (stream.score config origCount augCount, original', augmented').
Proof.
  intros H1 F1 H2 F2. unfold stream.computeStreaming.
  rewrite H1, F1, H2, F2. reflexivity.
Qed.

Lemma computeStreaming_original_fails (PS : ports.ProcessStreamFn) config ctx
  original augmented count e original' :
  PS ctx original (stream.Mode config) = Some ((count, Some e), original') ->
  io.isEOF e = false ->
  stream.computeStreaming PS config ctx original augmented
  = Some (stream.failure "original" e, original', augmented).
Proof.
  intros H1 F1. unfold stream.computeStreaming.
  rewrite H1. simpl. rewrite F1. reflexivity.
Qed.

Lemma score_ratio config o a :
  0 < o -> 0 <= a ->
  ports.LengthRatio (stream.score config o a) = spec_ratio o a.
Proof.
  intros Ho Ha. unfold stream.score, spec_ratio.
  destruct (Z.eqb_spec o 0); [lia|]. simpl.
  destruct (Z.gtb_spec o a).
  - rewrite Z.min_r, Z.max_l by lia. reflexivity.
  - rewrite Z.min_l, Z.max_r by lia. reflexivity.
Qed.

Lemma score_score config o a :
  0 < o ->
  ports.Score (stream.score config o a) = spec_score o a (stream.MaxDiffRatio config)
  /\ ports.Passed (stream.score config o a)
     = spec_passed (spec_score o a (stream.MaxDiffRatio config)) (stream.Threshold config).
Proof.
  intros Ho. unfold stream.score, spec_score, spec_passed, spec_min1.
  destruct (Z.eqb_spec o 0); [lia|]. simpl.
  rewrite abs_float64. split; reflexivity.
Qed.

(** The two validating constructors reject what [Validate] rejects. *)
Lemma NewCalculator_rejects config normalizer :
  ((core_length.Threshold config <? 0)%float
   || (1 <? core_length.Threshold config)%float
   || (core_length.MaxDiffRatio config <=? 0)%float) = true ->
  exists err, core_length.NewCalculator config normalizer = Fail err.
Proof.
  unfold core_length.NewCalculator, core_length.Validate. intros H.
  destruct ((core_length.Threshold config <? 0)%float
            || (1 <? core_length.Threshold config)%float); [eauto|].
  simpl in H. rewrite H. eauto.
Qed.

Lemma New_rejects createDefaultLogger th mdr :
  ((th <? 0)%float || (1 <? th)%float || (mdr <=? 0)%float) = true ->
  exists err,
    lengthsimilarity.New createDefaultLogger
      [lengthsimilarity.WithThreshold th; lengthsimilarity.WithMaxDiffRatio mdr]
    = Fail err.
Proof.
  unfold lengthsimilarity.New. simpl. intros H.
  destruct ((th <? 0)%float || (1 <? th)%float); [eauto|].
  simpl in H. rewrite H. eauto.
Qed.

End Scoring.

(** C3 (as the code has it).  When both streams are processed without
    failure and both counts are 0, the streaming calculator returns score
    1.0 and passed = true.  The non-streaming word-count calculator, under
    a context that is not cancelled, returns score 0 and passed = false
    with the detail "original text has zero words" whenever the original
    text has no words, two empty texts included. *)
Theorem C3_empty_texts {T : unicode.Tables}
  (sc : stream.StreamingCalculatorExtended) (c : core_length.Calculator)
  (ctx : context.Context) (originalR augmentedR originalR' augmentedR' : io.Reader)
  (e1 e2 : option io.error) (original augmented : list byte) :
  stream.Processor sc ctx originalR (stream.Mode (stream.Config sc))
    = Some ((0, e1), originalR') ->
  io.failed e1 = None ->
  stream.Processor sc ctx augmentedR (stream.Mode (stream.Config sc))
    = Some ((0, e2), augmentedR') ->
  io.failed e2 = None ->
  context.Done ctx = false ->
  strings.Fields (core_length.normalizer c original) = [] ->
  (exists r,
     stream.StreamingCalculatorExtended_ComputeStreaming sc ctx originalR augmentedR
       = Some (r, originalR', augmentedR')
     /\ ports.Score r = 1%float /\ ports.Passed r = true)
  /\ domain.Score (core_length.Compute c ctx original augmented) = 0%float
  /\ domain.Passed (core_length.Compute c ctx original augmented) = false
  /\ domain.Details (core_length.Compute c ctx original augmented) !! "error"
     = Some (ports.DString "original text has zero words").
Proof.
  intros H1 F1 H2 F2 Hctx Hwords. split.
  - eexists. split.
    + unfold stream.StreamingCalculatorExtended_ComputeStreaming.
      eapply computeStreaming_scores; eassumption.
    + split; reflexivity.
  - unfold core_length.Compute. rewrite Hctx, Hwords. simpl.
    repeat split; reflexivity.
Qed.

(** C4.  For counts [origCount > 0] and [augCount >= 0] the streaming
    calculator and the non-streaming word-count calculator both return
    ratio = min/max of the counts, score = 1.0 - min(1.0, |origCount -
    augCount| / (origCount * maxDiffRatio)) and passed = (score >=
    threshold), whatever the configuration. *)
Theorem C4_similarity_formula {T : unicode.Tables}
  (sc : stream.StreamingCalculatorExtended) (c : core_length.Calculator)
  (ctx : context.Context) (originalR augmentedR originalR' augmentedR' : io.Reader)
  (e1 e2 : option io.error) (original augmented : list byte)
  (origCount augCount : Z) :
  0 < origCount -> 0 <= augCount ->
  stream.Processor sc ctx originalR (stream.Mode (stream.Config sc))
    = Some ((origCount, e1), originalR') ->
  io.failed e1 = None ->
  stream.Processor sc ctx augmentedR (stream.Mode (stream.Config sc))
    = Some ((augCount, e2), augmentedR') ->
  io.failed e2 = None ->
  context.Done ctx = false ->
  Z.of_nat (length (strings.Fields (core_length.normalizer c original))) = origCount ->
  Z.of_nat (length (strings.Fields (core_length.normalizer c augmented))) = augCount ->
  (exists r,
     stream.StreamingCalculatorExtended_ComputeStreaming sc ctx originalR augmentedR
       = Some (r, originalR', augmentedR')
     /\ ports.LengthRatio r = spec_ratio origCount augCount
     /\ ports.Score r = spec_score origCount augCount (stream.MaxDiffRatio (stream.Config sc))
     /\ ports.Passed r = spec_passed (ports.Score r) (stream.Threshold (stream.Config sc)))
  /\ (let r := core_length.Compute c ctx original augmented in
      domain.LengthRatio r = spec_ratio origCount augCount
      /\ domain.Score r
         = spec_score origCount augCount (core_length.MaxDiffRatio (core_length.config c))
      /\ domain.Passed r
         = spec_passed (domain.Score r) (core_length.Threshold (core_length.config c))).
Proof.
  intros Ho Ha H1 F1 H2 F2 Hctx Hlo Hla. split.
  - eexists. split.
    + unfold stream.StreamingCalculatorExtended_ComputeStreaming.
      eapply computeStreaming_scores; eassumption.
    + split; [apply score_ratio; assumption|].
      destruct (score_score (stream.Config sc) origCount augCount Ho) as [Hs Hp].
      split; [exact Hs|]. rewrite Hp, Hs. reflexivity.
  - unfold core_length.Compute. rewrite Hctx, Hlo, Hla.
    destruct (Z.eqb_spec origCount 0); [lia|]. simpl.
    unfold spec_ratio, spec_score, spec_passed, spec_min1.
    rewrite abs_float64. split; [|split; reflexivity].
    destruct (Z.gtb_spec origCount augCount).
    + rewrite Z.min_r, Z.max_l by lia. reflexivity.
    + rewrite Z.min_l, Z.max_r by lia. reflexivity.
Qed.

(** C3, the claim as stated fails: on two empty texts the non-streaming
    word-count calculator returns score 0 and passed = false. *)
Lemma C3_counterexample :
  domain.Score (core_length.Compute (T := unicode.latin1) wordCalculator
                  context.Background [] []) = 0%float
  /\ domain.Passed (core_length.Compute (T := unicode.latin1) wordCalculator
                      context.Background [] []) = false.
Proof. split; vm_compute; reflexivity. Qed.

Lemma C3_witness :
  (exists r,
     stream.StreamingCalculatorExtended_ComputeStreaming wordStreamCalculator
       context.Background emptyReader emptyReader
       = Some (r, {| io.script := []; io.reads := 1 |},
                  {| io.script := []; io.reads := 1 |})
     /\ ports.Score r = 1%float /\ ports.Passed r = true)
  /\ domain.Score (core_length.Compute (T := unicode.latin1) wordCalculator
                     context.Background [] []) = 0%float
  /\ domain.Passed (core_length.Compute (T := unicode.latin1) wordCalculator
                      context.Background [] []) = false
  /\ domain.Details (core_length.Compute (T := unicode.latin1) wordCalculator
                       context.Background [] []) !! "error"
     = Some (ports.DString "original text has zero words").
Proof.
  apply (C3_empty_texts (T := unicode.latin1) wordStreamCalculator wordCalculator
           context.Background emptyReader emptyReader
           {| io.script := []; io.reads := 1 |} {| io.script := []; io.reads := 1 |}
           None None [] []); vm_compute; reflexivity.
Defined.

Lemma C4_witness :
  (exists r,
     stream.StreamingCalculatorExtended_ComputeStreaming wordStreamCalculator
       context.Background (io.stringsReader 4096 foxDog)
       (io.stringsReader 4096 foxCanine)
       = Some (r, {| io.script := []; io.reads := 2 |},
                  {| io.script := []; io.reads := 2 |})
     /\ ports.LengthRatio r = spec_ratio 9 9
     /\ ports.Score r = spec_score 9 9 0.3
     /\ ports.Passed r = spec_passed (ports.Score r) 0.7)
  /\ (let r := core_length.Compute (T := unicode.latin1) wordCalculator
                 context.Background foxDog foxCanine in
      domain.LengthRatio r = spec_ratio 9 9
      /\ domain.Score r = spec_score 9 9 0.3
      /\ domain.Passed r = spec_passed (domain.Score r) 0.7).
Proof.
  apply (C4_similarity_formula (T := unicode.latin1) wordStreamCalculator wordCalculator
           context.Background (io.stringsReader 4096 foxDog)
           (io.stringsReader 4096 foxCanine)
           {| io.script := []; io.reads := 2 |} {| io.script := []; io.reads := 2 |}
           None None foxDog foxCanine 9 9);
    try lia; vm_compute; reflexivity.
Defined.

(** The example of the specification: nine words against nine words with
    threshold 0.7 and max_diff_ratio 0.3 give score 1.0 and passed = true,
    in the streaming word mode and in the non-streaming calculator. *)
Lemma fox_example :
  option_map (fun x => (ports.OriginalLength (fst (fst x)),
                        ports.AugmentedLength (fst (fst x)),
                        ports.Score (fst (fst x)), ports.Passed (fst (fst x))))
    (stream.StreamingCalculatorExtended_ComputeStreaming wordStreamCalculator
       context.Background (io.stringsReader 4096 foxDog)
       (io.stringsReader 4096 foxCanine))
  = Some (9, 9, 1%float, true)
  /\ (let r := core_length.Compute (T := unicode.latin1) wordCalculator
                 context.Background foxDog foxCanine in
      (domain.OriginalLength r, domain.AugmentedLength r, domain.Score r, domain.Passed r)
      = (9, 9, 1%float, true)).
Proof. split; vm_compute; reflexivity. Qed.

(** C6, the code at the failing input: [NewStreamingCalculator] returns a
    calculator for threshold 2.0, and [ComputeStreaming] then compares the
    score of two identical texts, 1.0, against that threshold. *)
Lemma C6_streaming_constructor_accepts_invalid_threshold :
  stream.NewStreamingCalculator (streamingConfig 2 ports.WordByWord) defaultNormalizer
  = Ok (streamingCalculator (streamingConfig 2 ports.WordByWord))
  /\ option_map (fun x => (ports.Score (fst (fst x)), ports.Threshold (fst (fst x)),
                            ports.Passed (fst (fst x))))
       (stream.StreamingCalculator_ComputeStreaming (T := unicode.latin1) noLines id
          (streamingCalculator (streamingConfig 2 ports.WordByWord))
          context.Background (io.stringsReader 4096 foxDog)
          (io.stringsReader 4096 foxDog))
     = Some (1%float, 2%float, false).
Proof. split; [reflexivity | vm_compute; reflexivity]. Qed.

(** C9.  When processing the original stream fails (an error other than
    io.EOF, a cancellation included), [ComputeStreaming] of either streaming
    calculator returns a result with score 0, passed = false and the reason
    under the key "error" of the details, and the augmented reader is
    returned as it was given: no [Read] was made on it. *)
Theorem C9_original_stream_failure {T : unicode.Tables}
  (bufioScanLines : io.Reader -> (list (list byte) * option io.error) * io.Reader)
  (arrival : list wordprocessor.WordJobResult -> list wordprocessor.WordJobResult)
  (sce : stream.StreamingCalculatorExtended) (sc : stream.StreamingCalculator)
  (ctx : context.Context) (original augmented : io.Reader)
  (count1 count2 : Z) (e1 e2 : io.error) (original1 original2 : io.Reader) :
  stream.Processor sce ctx original (stream.Mode (stream.Config sce))
    = Some ((count1, Some e1), original1) ->
  io.isEOF e1 = false ->
  stream.ProcessStream bufioScanLines arrival (stream.processor sc) ctx original
    (stream.Mode (stream.config sc)) = Some ((count2, Some e2), original2) ->
  io.isEOF e2 = false ->
  (exists r,
     stream.StreamingCalculatorExtended_ComputeStreaming sce ctx original augmented
       = Some (r, original1, augmented)
     /\ ports.Score r = 0%float /\ ports.Passed r = false
     /\ ports.Details r !! "error"
        = Some (ports.DString ("error processing original stream: " +:+ io.Error e1)))
  /\ (exists r,
        stream.StreamingCalculator_ComputeStreaming bufioScanLines arrival sc ctx
          original augmented
          = Some (r, original2, augmented)
        /\ ports.Score r = 0%float /\ ports.Passed r = false
        /\ ports.Details r !! "error"
           = Some (ports.DString ("error processing original stream: " +:+ io.Error e2))).
Proof.
  intros H1 F1 H2 F2. split.
  - exists (stream.failure "original" e1). split.
    + unfold stream.StreamingCalculatorExtended_ComputeStreaming.
      eapply computeStreaming_original_fails; eassumption.
    + split; [reflexivity|]. split; [reflexivity|]. apply lookup_insert_eq.
  - exists (stream.failure "original" e2). split.
    + unfold stream.StreamingCalculator_ComputeStreaming.
      eapply computeStreaming_original_fails; eassumption.
    + split; [reflexivity|]. split; [reflexivity|]. apply lookup_insert_eq.
Qed.

Lemma C9_witness :
  (exists r,
     stream.StreamingCalculatorExtended_ComputeStreaming lineStreamCalculator
       context.Background brokenReader (io.stringsReader 8 foxDog)
       = Some (r, {| io.script := []; io.reads := 1 |}, io.stringsReader 8 foxDog)
     /\ ports.Score r = 0%float /\ ports.Passed r = false
     /\ ports.Details r !! "error"
        = Some (ports.DString "error processing original stream: connection reset"))
  /\ (exists r,
        stream.StreamingCalculator_ComputeStreaming (T := unicode.latin1) noLines id
          (streamingCalculator (streamingConfig 0.7 ports.WordByWord))
          context.Background brokenReader (io.stringsReader 8 foxDog)
          = Some (r, {| io.script := []; io.reads := 1 |}, io.stringsReader 8 foxDog)
        /\ ports.Score r = 0%float /\ ports.Passed r = false
        /\ ports.Details r !! "error"
           = Some (ports.DString "error processing original stream: connection reset")).
Proof.
  apply (C9_original_stream_failure (T := unicode.latin1) noLines id
           lineStreamCalculator (streamingCalculator (streamingConfig 0.7 ports.WordByWord))
           context.Background brokenReader (io.stringsReader 8 foxDog)
           0 0 (io.New "connection reset") (io.New "connection reset")
           {| io.script := []; io.reads := 1 |} {| io.script := []; io.reads := 1 |});
    vm_compute; reflexivity.
Defined.

(** ** Bytes *)

Lemma bz_range b : 0 <= bz b < 256.
Proof. unfold bz. pose proof (Byte.to_N_bounded b). lia. Qed.

Lemma bz_byte_of_Z x : bz (byte_of_Z x) = x mod 256.
Proof.
  unfold bz, byte_of_Z.
  pose proof (Z.mod_pos_bound x 256 ltac:(lia)) as Hm.
  destruct (Byte.of_N (Z.to_N (x mod 256))) as [b|] eqn:E.
  - apply Byte.to_of_N in E. rewrite E. lia.
  - apply Byte.of_N_None_iff in E. lia.
Qed.

Lemma byte_of_Z_bz b : byte_of_Z (bz b) = b.
Proof.
  unfold byte_of_Z, bz. pose proof (Byte.to_N_bounded b).
  rewrite Z.mod_small by lia. rewrite N2Z.id, Byte.of_to_N. reflexivity.
Qed.

Lemma bz_inj b c : bz b = bz c -> b = c.
Proof. intros H. rewrite <- (byte_of_Z_bz b), <- (byte_of_Z_bz c), H. reflexivity. Qed.

Lemma bz_SP : bz normalizer.SP = 32.
Proof. reflexivity. Qed.

(** ** The normalizers *)

Section NormalizerPaths.
Context {T : unicode.Tables}.

Lemma normalizeUnicodeLoop_ascii src : forall dest lws,
  Forall (fun b => bz b < 128) src ->
  normalizer.normalizeUnicodeLoop src dest lws
  = normalizer.normalizeASCIILoop src dest lws.
Proof.
  induction src as [|b rest IH]; intros dest lws Hascii.
  - reflexivity.
  - inversion Hascii as [|? ? Hb Hrest]; subst.
    rewrite normalizer.normalizeUnicodeLoop_equation_2. simpl.
    destruct (Z.ltb_spec (bz b) 128) as [_|]; [|lia].
    destruct (normalizer.asciiStep dest lws b) as [dest' lws'] eqn:E. simpl.
    apply IH. assumption.
Qed.

End NormalizerPaths.

(** C7.  On an input whose bytes are all below 0x80 the ASCII fast path
    [normalizeASCII] and the fallback [normalizeUnicode] return the same
    bytes, whatever destination buffers they are given. *)
Theorem C7_ascii_fast_path_agrees {T : unicode.Tables} (src dest dest' : list byte) :
  Forall (fun b => bz b < 128) src ->
  normalizer.normalizeASCII src dest = normalizer.normalizeUnicode src dest'.
Proof.
  intros Hascii. unfold normalizer.normalizeASCII, normalizer.normalizeUnicode.
  symmetry. apply normalizeUnicodeLoop_ascii. assumption.
Qed.

Lemma C7_witness :
  Forall (fun b => bz b < 128) (bytes "Hello, World!!  It's 9 o'clock.")
  /\ normalizer.normalizeASCII (T := unicode.latin1)
       (bytes "Hello, World!!  It's 9 o'clock.") []
     = normalizer.normalizeUnicode (T := unicode.latin1)
         (bytes "Hello, World!!  It's 9 o'clock.") [].
Proof.
  assert (H : Forall (fun b => bz b < 128) (bytes "Hello, World!!  It's 9 o'clock."))
    by (repeat constructor).
  split; [exact H | apply (C7_ascii_fast_path_agrees (T := unicode.latin1) _ [] [] H)].
Defined.

Section NormalizerRule.
Context {T : unicode.Tables}.

Lemma tableAt_entry b :
  0 <= b < 128 -> normalizer.tableAt b = normalizer.asciiTableEntry b.
Proof.
  intros Hb. unfold normalizer.tableAt, normalizer.asciiTable.
  rewrite nth_indep with (d' := normalizer.asciiTableEntry (Z.of_nat 0))
    by (rewrite length_map, length_seq; lia).
  rewrite (map_nth (fun i => normalizer.asciiTableEntry (Z.of_nat i))).
  rewrite seq_nth by lia. simpl. rewrite Z2Nat.id by lia. reflexivity.
Qed.

(** What the table does with an ASCII byte. *)
Lemma asciiStep_ascii dest lws b :
  bz b < 128 ->
  normalizer.asciiStep dest lws b
  = if unicode.asciiPunct (bz b) then
      (if lws then (dest, true) else (dest ++ [normalizer.SP], true))
    else if unicode.asciiUpper (bz b) then (dest ++ [byte_of_Z (bz b + 32)], false)
    else (dest ++ [b], false).
Proof.
  intros Hb. pose proof (bz_range b) as Hr.
  unfold normalizer.asciiStep. rewrite tableAt_entry by lia.
  unfold normalizer.asciiTableEntry, unicode.IsPunct, unicode.IsUpper,
    unicode.ToLower, unicode.MaxASCII.
  destruct (Z.leb_spec (bz b) 127); [|lia].
  destruct (unicode.asciiPunct (bz b)); simpl.
  - destruct (decide (normalizer.SP = normalizer.SP)); [|congruence].
    destruct lws; reflexivity.
  - destruct (unicode.asciiUpper (bz b)) eqn:Hu; simpl; [|reflexivity].
    destruct (decide (byte_of_Z (bz b + 32) = normalizer.SP)) as [E|]; [|reflexivity].
    apply (f_equal bz) in E. rewrite bz_byte_of_Z, bz_SP in E.
    unfold unicode.asciiUpper in Hu. rewrite Z.mod_small in E by lia. lia.
Qed.

Lemma normalizeASCIILoop_spec src : forall dest lws,
  Forall (fun b => bz b < 128 /\ unicode.asciiSpace (bz b) = false) src ->
  lws = bool_decide (last dest = Some normalizer.SP) ->
  normalizer.normalizeASCIILoop src dest lws = fold_left spec_emit src dest.
Proof.
  induction src as [|b rest IH]; intros dest lws Hsrc Hlws; [reflexivity|].
  inversion Hsrc as [|? ? [Hb Hsp] Hrest]; subst. simpl.
  pose proof (bz_range b) as Hr.
  destruct (Z.ltb_spec (bz b) 128); [|lia].
  rewrite asciiStep_ascii by assumption.
  unfold spec_emit at 2. unfold unicode.IsPunct, unicode.IsSpace, unicode.ToLower,
    unicode.MaxASCII.
  destruct (Z.leb_spec (bz b) 127); [|lia]. rewrite Hsp, orb_false_r.
  destruct (unicode.asciiPunct (bz b)) eqn:Hp.
  - destruct (bool_decide (last dest = Some normalizer.SP)) eqn:Hl.
    + apply IH; [assumption|]. rewrite Hl. reflexivity.
    + apply IH; [assumption|]. rewrite last_snoc.
      symmetry. apply bool_decide_eq_true. reflexivity.
  - destruct (unicode.asciiUpper (bz b)) eqn:Hu.
    + apply IH; [assumption|]. rewrite last_snoc.
      symmetry. apply bool_decide_eq_false. intros E. injection E as E.
      apply (f_equal bz) in E. rewrite bz_byte_of_Z, bz_SP in E.
      unfold unicode.asciiUpper in Hu. rewrite Z.mod_small in E by lia. lia.
    + rewrite byte_of_Z_bz. apply IH; [assumption|]. rewrite last_snoc.
      symmetry. apply bool_decide_eq_false. intros E. injection E as E.
      subst b. rewrite bz_SP in Hsp. discriminate.
Qed.

Lemma fold_left_write (P : Z -> bool) (rs : list Z) : forall sb,
  fold_left (fun sb r => if P r then sb ++ utf8.EncodeRune 32
                         else sb ++ utf8.EncodeRune r) rs sb
  = sb ++ utf8.runesString (map (fun r => if P r then 32 else r) rs).
Proof.
  induction rs as [|r rest IH]; intros sb; simpl.
  - rewrite app_nil_r. reflexivity.
  - rewrite IH. unfold utf8.runesString. simpl.
    destruct (P r); rewrite <- app_assoc; reflexivity.
Qed.

Lemma forallb_ascii src :
  Forall (fun b => bz b < 128) src ->
  forallb (fun c => negb (128 <=? bz c)) src = true.
Proof.
  induction 1 as [|b rest Hb _ IH]; [reflexivity|]. simpl. rewrite IH.
  destruct (Z.leb_spec 128 (bz b)); [lia|reflexivity].
Qed.

Lemma optimizedAt_entry b :
  0 <= b < 128 -> normalizer.optimizedAt b = normalizer.optimizedTableEntry b.
Proof.
  intros Hb. unfold normalizer.optimizedAt, normalizer.optimizedTable.
  rewrite nth_indep with (d' := normalizer.optimizedTableEntry (Z.of_nat 0))
    by (rewrite length_map, length_seq; lia).
  rewrite (map_nth (fun i => normalizer.optimizedTableEntry (Z.of_nat i))).
  rewrite seq_nth by lia. simpl. rewrite Z2Nat.id by lia. reflexivity.
Qed.

(** What the table of the optimized normalizer does with an ASCII byte. *)
Lemma optimizedSwitch_ascii buffer lws b :
  bz b < 128 ->
  normalizer.optimizedSwitch buffer lws b
  = if unicode.asciiPunct (bz b) || unicode.asciiSpace (bz b) then
      (if lws then (buffer, true) else (buffer ++ [normalizer.SP], true))
    else if unicode.asciiUpper (bz b) then (buffer ++ [byte_of_Z (bz b + 32)], false)
    else (buffer ++ [b], false).
Proof.
  intros Hb. pose proof (bz_range b) as Hr.
  unfold normalizer.optimizedSwitch. rewrite optimizedAt_entry by lia.
  unfold normalizer.optimizedTableEntry, unicode.IsPunct, unicode.IsSpace,
    unicode.IsUpper, unicode.MaxASCII.
  destruct (Z.leb_spec (bz b) 127); [|lia].
  destruct (unicode.asciiPunct (bz b) || unicode.asciiSpace (bz b)).
  - destruct lws; reflexivity.
  - destruct (unicode.asciiUpper (bz b)); reflexivity.
Qed.

Lemma fold_optimizedSwitch_spec src : forall dest lws,
  Forall (fun b => bz b < 128) src ->
  lws = bool_decide (last dest = Some normalizer.SP) ->
  fst (fold_left (fun st b => normalizer.optimizedSwitch (fst st) (snd st) b)
                 src (dest, lws))
  = fold_left spec_emit src dest.
Proof.
  induction src as [|b rest IH]; intros dest lws Hsrc Hlws; [reflexivity|].
  inversion Hsrc as [|? ? Hb Hrest]; subst. cbn [fold_left fst snd].
  pose proof (bz_range b) as Hr.
  rewrite optimizedSwitch_ascii by assumption.
  unfold spec_emit at 2. unfold unicode.IsPunct, unicode.IsSpace, unicode.ToLower,
    unicode.MaxASCII.
  destruct (Z.leb_spec (bz b) 127); [|lia].
  destruct (unicode.asciiPunct (bz b) || unicode.asciiSpace (bz b)) eqn:Hps.
  - destruct (bool_decide (last dest = Some normalizer.SP)) eqn:Hl.
    + apply IH; [assumption|]. rewrite Hl. reflexivity.
    + apply IH; [assumption|]. rewrite last_snoc.
      symmetry. apply bool_decide_eq_true. reflexivity.
  - apply orb_false_iff in Hps as [Hp Hsp].
    destruct (unicode.asciiUpper (bz b)) eqn:Hu.
    + apply IH; [assumption|]. rewrite last_snoc.
      symmetry. apply bool_decide_eq_false. intros E. injection E as E.
      apply (f_equal bz) in E. rewrite bz_byte_of_Z, bz_SP in E.
      unfold unicode.asciiUpper in Hu. rewrite Z.mod_small in E by lia. lia.
    + rewrite byte_of_Z_bz. apply IH; [assumption|]. rewrite last_snoc.
      symmetry. apply bool_decide_eq_false. intros E. injection E as E.
      subst b. rewrite bz_SP in Hsp. discriminate.
Qed.

Lemma OptimizedNormalize_ascii src :
  Forall (fun b => bz b < 128) src ->
  normalizer.OptimizedNormalize src = spec_normalize_ascii src.
Proof.
  intros Ha. unfold normalizer.OptimizedNormalize.
  destruct src as [|b rest]; [reflexivity|].
  change (length (b :: rest) =? 0)%nat with false. cbv iota zeta.
  rewrite forallb_ascii by assumption.
  apply fold_optimizedSwitch_spec; [assumption|reflexivity].
Qed.

End NormalizerRule.

(** C5 (as the code has it).  The default normalizer writes, for every code
    point of the lower-cased text, a space when it is punctuation and the
    code point itself otherwise: runs are not collapsed and white space is
    kept.  The allocation-efficient normalizer, on ASCII input without white
    space, follows the rule of the specification: one space for a
    punctuation character unless the character emitted just before was a
    space, the lower-case form otherwise.  The table-driven optimized
    normalizer follows that rule on every ASCII input, white space
    included.  All three map the empty string to the empty string. *)
Theorem C5_normalize_rule {T : unicode.Tables} (text src ascii : list byte) :
  Forall (fun b => bz b < 128 /\ unicode.asciiSpace (bz b) = false) src ->
  Forall (fun b => bz b < 128) ascii ->
  normalizer.DefaultNormalize text
  = utf8.runesString (map (fun r => if unicode.IsPunct r then 32 else r)
                          (utf8.stringRunes (strings.ToLower text)))
  /\ normalizer.Normalize src = spec_normalize_ascii src
  /\ normalizer.OptimizedNormalize ascii = spec_normalize_ascii ascii
  /\ normalizer.DefaultNormalize [] = []
  /\ normalizer.Normalize [] = []
  /\ normalizer.OptimizedNormalize [] = [].
Proof.
  intros Hsrc Hascii. split; [|split; [|split; [|repeat split]]].
  - unfold normalizer.DefaultNormalize. rewrite fold_left_write. reflexivity.
  - unfold normalizer.Normalize. destruct src as [|b rest]; [reflexivity|].
    change (length (b :: rest) =? 0)%nat with false. cbv iota.
    rewrite forallb_ascii by (eapply Forall_impl; [exact Hsrc|]; simpl; tauto).
    unfold normalizer.normalizeASCII, spec_normalize_ascii.
    apply normalizeASCIILoop_spec; [assumption|reflexivity].
  - apply OptimizedNormalize_ascii. assumption.
Qed.

Lemma C5_witness :
  Forall (fun b => bz b < 128 /\ unicode.asciiSpace (bz b) = false)
         (bytes "Hello,World!!(It's)9")
  /\ Forall (fun b => bz b < 128) (bytes "Hello,  World!! (It's) 9")
  /\ normalizer.Normalize (T := unicode.latin1) (bytes "Hello,World!!(It's)9")
     = spec_normalize_ascii (T := unicode.latin1) (bytes "Hello,World!!(It's)9")
  /\ normalizer.OptimizedNormalize (T := unicode.latin1)
       (bytes "Hello,  World!! (It's) 9")
     = spec_normalize_ascii (T := unicode.latin1) (bytes "Hello,  World!! (It's) 9")
  /\ normalizer.Normalize (T := unicode.latin1) (bytes "Hello,World!!(It's)9")
     = bytes "hello world it s 9"
  /\ normalizer.OptimizedNormalize (T := unicode.latin1)
       (bytes "Hello,  World!! (It's) 9")
     = bytes "hello world it s 9".
Proof.
  assert (H : Forall (fun b => bz b < 128 /\ unicode.asciiSpace (bz b) = false)
                     (bytes "Hello,World!!(It's)9"))
    by (repeat constructor).
  assert (H' : Forall (fun b => bz b < 128) (bytes "Hello,  World!! (It's) 9"))
    by (repeat constructor).
  pose proof (C5_normalize_rule (T := unicode.latin1) [] _ _ H H') as (_ & E1 & E2 & _).
  split; [exact H|]. split; [exact H'|]. split; [exact E1|]. split; [exact E2|].
  split; vm_compute; reflexivity.
Defined.

(** C5, the claim as stated fails: a run of two spaces is kept by the
    allocation-efficient normalizer, and a run of two commas becomes two
    spaces in the default normalizer; the rule of the specification gives
    one space in both cases. *)
Lemma C5_counterexample :
  normalizer.Normalize (T := unicode.latin1) (bytes "a  b") = bytes "a  b"
  /\ normalizer.DefaultNormalize (T := unicode.latin1) (bytes "a,,b") = bytes "a  b"
  /\ spec_normalize_ascii (T := unicode.latin1) (bytes "a  b") = bytes "a b"
  /\ spec_normalize_ascii (T := unicode.latin1) (bytes "a,,b") = bytes "a b".
Proof. repeat split; vm_compute; reflexivity. Qed.

(** ** Bit operations as arithmetic *)

(** On disjoint bit ranges [|] is [+]. *)
Lemma lor_add (a b n : Z) :
  0 <= n -> 0 <= b < 2 ^ n -> a mod 2 ^ n = 0 -> Z.lor a b = a + b.
Proof.
  intros Hn Hb Ha.
  assert (Hland : Z.land a b = 0).
  { apply Z.bits_inj'. intros i Hi. rewrite Z.land_spec, Z.bits_0.
    destruct (Z.lt_ge_cases i n) as [Hlt|Hge].
    - assert (Z.testbit a i = false) as ->; [|reflexivity].
      rewrite (Z.div_mod a (2 ^ n)) by lia. rewrite Ha, Z.add_0_r.
      rewrite Z.mul_comm. apply Z.mul_pow2_bits_low. lia.
    - assert (Z.testbit b i = false) as ->; [|apply andb_false_r].
      destruct (Z.eq_dec b 0) as [->|]; [apply Z.bits_0|].
      apply Z.bits_above_log2; [lia|].
      apply Z.log2_lt_pow2; [lia|].
      apply Z.lt_le_trans with (2 ^ n); [lia|]. apply Z.pow_le_mono_r; lia. }
  rewrite <- Z.lxor_lor by exact Hland. symmetry. apply Z.add_nocarry_lxor. exact Hland.
Qed.

Lemma lor_add3 a b : 0 <= b < 8 -> a mod 8 = 0 -> Z.lor a b = a + b.
Proof. apply (lor_add a b 3). lia. Qed.
Lemma lor_add4 a b : 0 <= b < 16 -> a mod 16 = 0 -> Z.lor a b = a + b.
Proof. apply (lor_add a b 4). lia. Qed.
Lemma lor_add5 a b : 0 <= b < 32 -> a mod 32 = 0 -> Z.lor a b = a + b.
Proof. apply (lor_add a b 5). lia. Qed.
Lemma lor_add6 a b : 0 <= b < 64 -> a mod 64 = 0 -> Z.lor a b = a + b.
Proof. apply (lor_add a b 6). lia. Qed.
Lemma lor_add12 a b : 0 <= b < 4096 -> a mod 4096 = 0 -> Z.lor a b = a + b.
Proof. apply (lor_add a b 12). lia. Qed.
Lemma lor_add18 a b : 0 <= b < 262144 -> a mod 262144 = 0 -> Z.lor a b = a + b.
Proof. apply (lor_add a b 18). lia. Qed.

Lemma land_7 x : Z.land x 7 = x mod 8.
Proof. change 7 with (Z.ones 3). rewrite Z.land_ones by lia. reflexivity. Qed.
Lemma land_15 x : Z.land x 15 = x mod 16.
Proof. change 15 with (Z.ones 4). rewrite Z.land_ones by lia. reflexivity. Qed.
Lemma land_31 x : Z.land x 31 = x mod 32.
Proof. change 31 with (Z.ones 5). rewrite Z.land_ones by lia. reflexivity. Qed.
Lemma land_63 x : Z.land x 63 = x mod 64.
Proof. change 63 with (Z.ones 6). rewrite Z.land_ones by lia. reflexivity. Qed.
Lemma shiftr_6 x : Z.shiftr x 6 = x / 64.
Proof. apply Z.shiftr_div_pow2. lia. Qed.
Lemma shiftr_12 x : Z.shiftr x 12 = x / 4096.
Proof. apply Z.shiftr_div_pow2. lia. Qed.
Lemma shiftr_18 x : Z.shiftr x 18 = x / 262144.
Proof. apply Z.shiftr_div_pow2. lia. Qed.
Lemma shiftl_6 x : Z.shiftl x 6 = x * 64.
Proof. apply Z.shiftl_mul_pow2. lia. Qed.
Lemma shiftl_12 x : Z.shiftl x 12 = x * 4096.
Proof. apply Z.shiftl_mul_pow2. lia. Qed.
Lemma shiftl_18 x : Z.shiftl x 18 = x * 262144.
Proof. apply Z.shiftl_mul_pow2. lia. Qed.

Ltac divmod := Z.div_mod_to_equations; lia.

Ltac lor_step :=
  match goal with
  | |- context [Z.lor ?a ?b] =>
    lazymatch a with context [Z.lor _ _] => fail | _ => idtac end;
    lazymatch b with context [Z.lor _ _] => fail | _ => idtac end;
    first [ rewrite (lor_add3 a b) by divmod | rewrite (lor_add4 a b) by divmod
          | rewrite (lor_add5 a b) by divmod | rewrite (lor_add6 a b) by divmod
          | rewrite (lor_add12 a b) by divmod | rewrite (lor_add18 a b) by divmod ]
  end.

(** Shifts, masks and disjoint ors rewritten to [*], [/], [mod] and [+]. *)
Ltac bits :=
  rewrite ?shiftr_6, ?shiftr_12, ?shiftr_18, ?shiftl_6, ?shiftl_12, ?shiftl_18,
          ?land_7, ?land_15, ?land_31, ?land_63;
  repeat lor_step.

(** [x & 0xC0 == 0x80] holds of the bytes 0x80..0xBF. *)
Lemma isCont_range c : isCont c = (128 <=? bz c) && (bz c <? 192).
Proof.
  unfold isCont. destruct c; reflexivity.
Qed.

Lemma isCont_true c : isCont c = true <-> 128 <= bz c < 192.
Proof. rewrite isCont_range. lia. Qed.

Lemma isCont_false c : isCont c = false <-> bz c < 128 \/ 192 <= bz c.
Proof. rewrite isCont_range. lia. Qed.

(** ** The repository's decoder *)

Lemma decodeRune_ascii b rest :
  bz b < 128 -> normalizer.decodeRune (b :: rest) = (bz b, 1%nat).
Proof.
  intros Hb. unfold normalizer.decodeRune, normalizer.at_. simpl.
  destruct (Z.ltb_spec (bz b) 128); [reflexivity|lia].
Qed.

Lemma decodeRune_stray b rest :
  128 <= bz b < 192 \/ 247 < bz b ->
  normalizer.decodeRune (b :: rest) = (unicode.ReplacementChar, 1%nat).
Proof.
  intros Hb. unfold normalizer.decodeRune, normalizer.at_. simpl.
  destruct (Z.ltb_spec (bz b) 128); [lia|].
  destruct (Z.ltb_spec (bz b) 192), (Z.ltb_spec 247 (bz b)); simpl; (reflexivity || lia).
Qed.

(** The decoder at a lead byte, by the number of bytes the lead asks for. *)
Lemma decodeRune_lead b rest :
  192 <= bz b <= 247 ->
  normalizer.decodeRune (b :: rest)
  = match need b, rest with
    | 1%nat, c1 :: _ =>
      if isCont c1
      then (Z.lor (Z.shiftl (Z.land (bz b) 31) 6) (Z.land (bz c1) 63), 2%nat)
      else (unicode.ReplacementChar, 1%nat)
    | 2%nat, c1 :: c2 :: _ =>
      if isCont c1 && isCont c2
      then (Z.lor (Z.lor (Z.shiftl (Z.land (bz b) 15) 12)
                         (Z.shiftl (Z.land (bz c1) 63) 6))
                  (Z.land (bz c2) 63), 3%nat)
      else (unicode.ReplacementChar, 1%nat)
    | 3%nat, c1 :: c2 :: c3 :: _ =>
      if isCont c1 && isCont c2 && isCont c3
      then (Z.lor (Z.lor (Z.lor (Z.shiftl (Z.land (bz b) 7) 18)
                                (Z.shiftl (Z.land (bz c1) 63) 12))
                         (Z.shiftl (Z.land (bz c2) 63) 6))
                  (Z.land (bz c3) 63), 4%nat)
      else (unicode.ReplacementChar, 1%nat)
    | _, _ => (unicode.ReplacementChar, 1%nat)
    end.
Proof.
  intros Hb. unfold normalizer.decodeRune, normalizer.at_, need, isCont.
  cbn [length Nat.eqb nth].
  destruct (Z.ltb_spec (bz b) 128); [lia|].
  destruct (Z.ltb_spec (bz b) 192); [lia|].
  destruct (Z.ltb_spec 247 (bz b)); [lia|]. cbn [orb].
  destruct (Z.ltb_spec (bz b) 224); [|destruct (Z.ltb_spec (bz b) 240)];
    destruct rest as [|c1 [|c2 [|c3 rest]]];
    cbn [length Nat.ltb Nat.leb nth orb negb]; try reflexivity.
  all: repeat match goal with
       | |- context [Z.land (bz ?c) 192 =? 128] =>
         destruct (Z.land (bz c) 192 =? 128); cbn [orb andb negb]
       end; reflexivity.
Qed.

Lemma need_cases b : need b = 1%nat \/ need b = 2%nat \/ need b = 3%nat.
Proof. unfold need. destruct (bz b <? 224), (bz b <? 240); auto. Qed.

(** A lead byte that is not followed by the continuation bytes it asks for
    reads as U+FFFD and is one byte wide. *)
Lemma decodeRune_short b rest :
  192 <= bz b <= 247 -> contPrefix (need b) rest = false ->
  normalizer.decodeRune (b :: rest) = (unicode.ReplacementChar, 1%nat).
Proof.
  intros Hb Hc. rewrite decodeRune_lead by assumption.
  destruct (need_cases b) as [E|[E|E]]; rewrite E in *;
    destruct rest as [|c1 [|c2 [|c3 rest]]]; cbn [contPrefix] in Hc;
    rewrite ?andb_true_r in Hc; try reflexivity.
  all: rewrite ?andb_assoc in Hc; rewrite Hc; reflexivity.
Qed.

(** A lead byte followed by its continuation bytes: the width is their
    number plus one, and the rune depends on these bytes only. *)
Lemma decodeRune_full b rest tail :
  192 <= bz b <= 247 -> contPrefix (need b) rest = true ->
  snd (normalizer.decodeRune (b :: rest)) = S (need b)
  /\ normalizer.decodeRune (b :: firstn (need b) rest ++ tail)
     = normalizer.decodeRune (b :: rest).
Proof.
  intros Hb Hc. rewrite !decodeRune_lead by assumption.
  destruct (need_cases b) as [E|[E|E]]; rewrite E in *;
    destruct rest as [|c1 [|c2 [|c3 rest]]]; cbn [contPrefix] in Hc;
    rewrite ?andb_true_r, ?andb_false_r in Hc; try discriminate.
  all: rewrite ?andb_assoc in Hc; cbn [firstn app]; rewrite Hc; split; reflexivity.
Qed.

Lemma contPrefix_length n : forall s, contPrefix n s = true -> (n <= length s)%nat.
Proof.
  induction n as [|n IH]; intros [|c s] H; simpl in *; try lia; try discriminate.
  apply andb_true_iff in H as [_ H]. apply IH in H. lia.
Qed.

Lemma decodeRune_width s :
  s <> [] -> (1 <= snd (normalizer.decodeRune s) <= length s)%nat.
Proof.
  destruct s as [|b rest]; [congruence|]. intros _.
  pose proof (bz_range b) as Hb.
  destruct (Z.lt_ge_cases (bz b) 128).
  { rewrite decodeRune_ascii by lia. simpl. lia. }
  destruct (Z.lt_ge_cases (bz b) 192).
  { rewrite decodeRune_stray by lia. simpl. lia. }
  destruct (Z.lt_ge_cases 247 (bz b)).
  { rewrite decodeRune_stray by lia. simpl. lia. }
  destruct (contPrefix (need b) rest) eqn:Hc.
  - rewrite (proj1 (decodeRune_full b rest [] ltac:(lia) Hc)).
    apply contPrefix_length in Hc. simpl. lia.
  - rewrite decodeRune_short by (assumption || lia). simpl. lia.
Qed.

(** The decoder returns a value below 2^21. *)
Lemma decodeRune_range s : 0 <= fst (normalizer.decodeRune s) < 2097152.
Proof.
  destruct s as [|b rest]; [simpl; lia|].
  pose proof (bz_range b) as Hb.
  destruct (Z.lt_ge_cases (bz b) 128).
  { rewrite decodeRune_ascii by lia. simpl. lia. }
  destruct (Z.lt_ge_cases (bz b) 192).
  { rewrite decodeRune_stray by lia. simpl. unfold unicode.ReplacementChar. lia. }
  destruct (Z.lt_ge_cases 247 (bz b)).
  { rewrite decodeRune_stray by lia. simpl. unfold unicode.ReplacementChar. lia. }
  rewrite decodeRune_lead by lia.
  assert (Hrep : 0 <= fst (unicode.ReplacementChar, 1%nat) < 2097152)
    by (unfold unicode.ReplacementChar; simpl; lia).
  destruct (need_cases b) as [E|[E|E]]; rewrite E;
    destruct rest as [|c1 [|c2 [|c3 rest]]]; try exact Hrep.
  all: repeat match goal with
       | |- context [isCont ?c] =>
         let E := fresh "E" in
         destruct (isCont c) eqn:E; cbn [andb]; [apply isCont_true in E|]
       end; try exact Hrep.
  all: cbn [fst]; bits; divmod.
Qed.

(** ** The encoder of [normalizeUnicode] *)

Lemma cont_byte x : bz (byte_of_Z (Z.lor 128 (Z.land x 63))) = 128 + x mod 64.
Proof. rewrite bz_byte_of_Z. bits. divmod. Qed.

Lemma lead2_byte l :
  128 <= l < 2048 -> bz (byte_of_Z (Z.lor 192 (Z.shiftr l 6))) = 192 + l / 64.
Proof. intros Hl. rewrite bz_byte_of_Z. bits. divmod. Qed.

Lemma lead3_byte l :
  2048 <= l < 65536 -> bz (byte_of_Z (Z.lor 224 (Z.shiftr l 12))) = 224 + l / 4096.
Proof. intros Hl. rewrite bz_byte_of_Z. bits. divmod. Qed.

Lemma lead4_byte l :
  65536 <= l < 2097152 ->
  bz (byte_of_Z (Z.lor 240 (Z.shiftr l 18))) = 240 + l / 262144.
Proof. intros Hl. rewrite bz_byte_of_Z. bits. divmod. Qed.

Lemma isCont_cont_byte x : isCont (byte_of_Z (Z.lor 128 (Z.land x 63))) = true.
Proof. apply isCont_true. rewrite cont_byte. divmod. Qed.

Lemma encodeLower_ascii l :
  0 <= l < 128 -> normalizer.encodeLower l = [byte_of_Z l] /\ bz (byte_of_Z l) = l.
Proof.
  intros Hl. unfold normalizer.encodeLower.
  destruct (Z.ltb_spec l 128); [|lia]. split; [reflexivity|].
  rewrite bz_byte_of_Z. apply Z.mod_small. lia.
Qed.

(** The first byte of an encoded rune from U+0080 on is a lead byte. *)
Lemma encodeLower_head l :
  128 <= l < 2097152 ->
  exists b0 t, normalizer.encodeLower l = b0 :: t /\ 192 <= bz b0 <= 247.
Proof.
  intros Hl. unfold normalizer.encodeLower.
  destruct (Z.ltb_spec l 128); [lia|].
  destruct (Z.ltb_spec l 2048); [|destruct (Z.ltb_spec l 65536)];
    eexists; eexists; (split; [reflexivity|]).
  - rewrite lead2_byte by lia. divmod.
  - rewrite lead3_byte by lia. divmod.
  - rewrite lead4_byte by lia. divmod.
Qed.

(** Decoding what [normalizeUnicode] encoded gives the rune back, whatever
    follows. *)
Lemma decodeRune_encodeLower l tail :
  128 <= l < 2097152 ->
  normalizer.decodeRune (normalizer.encodeLower l ++ tail)
  = (l, length (normalizer.encodeLower l)).
Proof.
  intros Hl. unfold normalizer.encodeLower.
  destruct (Z.ltb_spec l 128); [lia|].
  destruct (Z.ltb_spec l 2048); [|destruct (Z.ltb_spec l 65536)]; cbn [app length].
  - rewrite decodeRune_lead by (rewrite lead2_byte by lia; divmod).
    unfold need. rewrite lead2_byte by lia.
    destruct (Z.ltb_spec (192 + l / 64) 224); [|divmod].
    rewrite isCont_cont_byte, cont_byte. f_equal. bits. divmod.
  - rewrite decodeRune_lead by (rewrite lead3_byte by lia; divmod).
    unfold need. rewrite lead3_byte by lia.
    destruct (Z.ltb_spec (224 + l / 4096) 224); [divmod|].
    destruct (Z.ltb_spec (224 + l / 4096) 240); [|divmod].
    rewrite !isCont_cont_byte, !cont_byte. cbn [andb]. f_equal. bits. divmod.
  - rewrite decodeRune_lead by (rewrite lead4_byte by lia; divmod).
    unfold need. rewrite lead4_byte by lia.
    destruct (Z.ltb_spec (240 + l / 262144) 224); [divmod|].
    destruct (Z.ltb_spec (240 + l / 262144) 240); [divmod|].
    rewrite !isCont_cont_byte, !cont_byte. cbn [andb]. f_equal. bits. divmod.
Qed.

(** ** The loop of [normalizeUnicode] *)

Section NormalizeUnicodeLoop.
Context {T : unicode.Tables}.

Lemma loop_ascii b rest dest lws :
  bz b < 128 ->
  normalizer.normalizeUnicodeLoop (b :: rest) dest lws
  = normalizer.normalizeUnicodeLoop rest
      (fst (normalizer.asciiStep dest lws b)) (snd (normalizer.asciiStep dest lws b)).
Proof.
  intros Hb. rewrite normalizer.normalizeUnicodeLoop_equation_2.
  destruct (Z.ltb_spec (bz b) 128); [reflexivity|lia].
Qed.

Lemma loop_multi b rest dest lws :
  128 <= bz b ->
  normalizer.normalizeUnicodeLoop (b :: rest) dest lws
  = normalizer.normalizeUnicodeLoop
      (skipn (snd (normalizer.decodeRune (b :: rest)) - 1) rest)
      (fst (normalizer.unicodeStep dest lws (b :: rest)))
      (snd (normalizer.unicodeStep dest lws (b :: rest))).
Proof.
  intros Hb. rewrite normalizer.normalizeUnicodeLoop_equation_2.
  destruct (Z.ltb_spec (bz b) 128); [lia|reflexivity].
Qed.

(** A step appends to the destination and looks at nothing in it. *)
Lemma asciiStep_dest dest lws b :
  normalizer.asciiStep dest lws b
  = (dest ++ fst (normalizer.asciiStep [] lws b), snd (normalizer.asciiStep [] lws b)).
Proof.
  unfold normalizer.asciiStep.
  destruct (normalizer.replace _); [|reflexivity].
  destruct (decide _); [|reflexivity].
  destruct lws; simpl; rewrite ?app_nil_r; reflexivity.
Qed.

Lemma unicodeStep_dest dest lws s :
  normalizer.unicodeStep dest lws s
  = (dest ++ fst (normalizer.unicodeStep [] lws s),
     snd (normalizer.unicodeStep [] lws s)).
Proof.
  unfold normalizer.unicodeStep. destruct (normalizer.decodeRune s) as [r size].
  destruct (unicode.IsPunct r || unicode.IsSpace r).
  - destruct lws; simpl; rewrite ?app_nil_r; reflexivity.
  - destruct (unicode.IsUpper r); reflexivity.
Qed.

Lemma loop_dest n : forall s, (length s < n)%nat -> forall dest lws,
  normalizer.normalizeUnicodeLoop s dest lws
  = dest ++ normalizer.normalizeUnicodeLoop s [] lws.
Proof.
  induction n as [|n IH]; intros s Hn dest lws; [lia|].
  destruct s as [|b rest].
  - rewrite !normalizer.normalizeUnicodeLoop_equation_1, app_nil_r. reflexivity.
  - simpl in Hn. destruct (Z.lt_ge_cases (bz b) 128) as [Hb|Hb].
    + rewrite !loop_ascii by assumption. rewrite asciiStep_dest. cbn [fst snd].
      rewrite IH by lia.
      rewrite (IH rest ltac:(lia) (fst (normalizer.asciiStep [] lws b))).
      rewrite app_assoc. reflexivity.
    + rewrite !loop_multi by assumption. rewrite unicodeStep_dest. cbn [fst snd].
      assert (Hlen : (length (skipn (snd (normalizer.decodeRune (b :: rest)) - 1) rest)
                      < n)%nat) by (rewrite length_skipn; lia).
      rewrite IH by exact Hlen.
      rewrite (IH _ Hlen (fst (normalizer.unicodeStep [] lws (b :: rest)))).
      rewrite app_assoc. reflexivity.
Qed.

(** The output of the loop, one step at a time. *)
Lemma out_nil lws : normalizer.normalizeUnicodeLoop [] [] lws = [].
Proof. apply normalizer.normalizeUnicodeLoop_equation_1. Qed.

Lemma out_ascii b rest lws :
  bz b < 128 ->
  normalizer.normalizeUnicodeLoop (b :: rest) [] lws
  = fst (normalizer.asciiStep [] lws b)
    ++ normalizer.normalizeUnicodeLoop rest [] (snd (normalizer.asciiStep [] lws b)).
Proof.
  intros Hb. rewrite loop_ascii by assumption.
  apply (loop_dest (S (length rest))). lia.
Qed.

Lemma out_multi b rest lws :
  128 <= bz b ->
  normalizer.normalizeUnicodeLoop (b :: rest) [] lws
  = fst (normalizer.unicodeStep [] lws (b :: rest))
    ++ normalizer.normalizeUnicodeLoop
         (skipn (snd (normalizer.decodeRune (b :: rest)) - 1) rest) []
         (snd (normalizer.unicodeStep [] lws (b :: rest))).
Proof.
  intros Hb. rewrite loop_multi by assumption.
  apply (loop_dest (S (length rest))). rewrite length_skipn. lia.
Qed.

(** *** Single steps *)

Lemma asciiStep_plain c lws :
  plain c -> normalizer.asciiStep [] lws c = ([c], false).
Proof.
  intros (Hc & Hp & Hu). rewrite asciiStep_ascii by assumption.
  rewrite Hp, Hu. reflexivity.
Qed.

Lemma plain_SP : plain normalizer.SP.
Proof. repeat split. Qed.

Lemma plain_lowered b :
  bz b < 128 -> unicode.asciiUpper (bz b) = true -> plain (byte_of_Z (bz b + 32)).
Proof.
  intros Hb Hu. unfold unicode.asciiUpper in Hu.
  assert (E : bz (byte_of_Z (bz b + 32)) = bz b + 32)
    by (rewrite bz_byte_of_Z; apply Z.mod_small; lia).
  unfold plain. rewrite E. split; [lia|]. split.
  - unfold unicode.asciiPunct. apply not_true_is_false. intros H.
    apply existsb_exists in H as (x & Hin & Hx). apply Z.eqb_eq in Hx. subst x.
    simpl in Hin. lia.
  - unfold unicode.asciiUpper. lia.
Qed.

(** What an ASCII byte contributes: nothing, after a space, or one plain
    byte. *)
Lemma asciiStep_piece b lws :
  bz b < 128 ->
  (lws = true /\ fst (normalizer.asciiStep [] lws b) = [])
  \/ exists c, fst (normalizer.asciiStep [] lws b) = [c] /\ plain c.
Proof.
  intros Hb. rewrite asciiStep_ascii by assumption.
  destruct (unicode.asciiPunct (bz b)) eqn:Hp.
  - destruct lws; [left; split; reflexivity|].
    right. exists normalizer.SP. split; [reflexivity|apply plain_SP].
  - destruct (unicode.asciiUpper (bz b)) eqn:Hu.
    + right. eexists. split; [reflexivity|]. apply plain_lowered; assumption.
    + right. exists b. split; [reflexivity|]. repeat split; assumption.
Qed.

Lemma plain_not_cont c : plain c -> isCont c = false.
Proof. intros (Hc & _). apply isCont_false. lia. Qed.

(** Pieces that the loop copies. *)
Lemma stable_plain c y : plain c -> stable y -> stable (c :: y).
Proof.
  intros Hc Hy lws. rewrite out_ascii by apply Hc.
  rewrite asciiStep_plain by assumption. cbn [fst snd app]. rewrite Hy. reflexivity.
Qed.

Lemma stable_token b0 t y r :
  128 <= bz b0 ->
  normalizer.decodeRune ((b0 :: t) ++ y) = (r, length (b0 :: t)) ->
  unicode.IsPunct r = false -> unicode.IsSpace r = false ->
  (unicode.IsUpper r = true -> normalizer.encodeLower (unicode.ToLower r) = b0 :: t) ->
  stable y -> stable ((b0 :: t) ++ y).
Proof.
  intros Hb Hdec Hp Hs Hu Hy lws. cbn [app] in *.
  rewrite out_multi by assumption.
  unfold normalizer.unicodeStep. rewrite Hdec. cbn [snd]. rewrite Hp, Hs. cbn [orb].
  replace (skipn (length (b0 :: t) - 1) (t ++ y)) with y
    by (cbn [length]; rewrite Nat.sub_succ, Nat.sub_0_r, drop_app_length; reflexivity).
  destruct (unicode.IsUpper r) eqn:Hup; cbn [fst snd app]; rewrite Hy.
  - rewrite (Hu eq_refl). reflexivity.
  - change (b0 :: t ++ y) with ((b0 :: t) ++ y). rewrite take_app_length. reflexivity.
Qed.

End NormalizeUnicodeLoop.

(** ** Normalizing a normalized text *)

Section NormalizeTwice.
Context {T : unicode.Tables}.
Hypothesis HT : CaseTables T.

(** An invalid byte is copied. *)
Lemma unicodeStep_invalid b rest lws :
  normalizer.decodeRune (b :: rest) = (unicode.ReplacementChar, 1%nat) ->
  normalizer.unicodeStep [] lws (b :: rest) = ([b], false).
Proof.
  intros Hdec. unfold normalizer.unicodeStep. rewrite Hdec.
  destruct (replacement_plain _ HT) as (Hp & Hs & Hu). rewrite Hp, Hs, Hu.
  reflexivity.
Qed.

Lemma stable_encoded l y :
  0 <= l < 2097152 ->
  unicode.IsPunct l = false -> unicode.IsSpace l = false ->
  (unicode.IsUpper l = true -> unicode.ToLower l = l) ->
  stable y -> stable (normalizer.encodeLower l ++ y).
Proof.
  intros Hl Hp Hs Hu Hy. destruct (Z.lt_ge_cases l 128) as [Hlt|Hge].
  - destruct (encodeLower_ascii l ltac:(lia)) as [-> Hbz]. cbn [app].
    apply stable_plain; [|assumption].
    unfold unicode.IsPunct, unicode.IsUpper, unicode.ToLower, unicode.MaxASCII in *.
    destruct (Z.leb_spec l 127); [|lia].
    unfold plain. rewrite Hbz. split; [lia|]. split; [assumption|].
    destruct (unicode.asciiUpper l); [|reflexivity]. specialize (Hu eq_refl). lia.
  - destruct (encodeLower_head l ltac:(lia)) as (b0 & t & E & Hb0).
    pose proof (decodeRune_encodeLower l y ltac:(lia)) as Hdec.
    rewrite E in *. apply stable_token with (r := l); try assumption; [lia|].
    intros Hup. rewrite (Hu Hup). exact E.
Qed.

Lemma encodeLower_not_cont l :
  0 <= l < 2097152 ->
  exists h t, normalizer.encodeLower l = h :: t /\ isCont h = false.
Proof.
  intros Hl. destruct (Z.lt_ge_cases l 128) as [Hlt|Hge].
  - destruct (encodeLower_ascii l ltac:(lia)) as [-> Hbz].
    eexists; eexists; split; [reflexivity|]. apply isCont_false. lia.
  - destruct (encodeLower_head l ltac:(lia)) as (b0 & t & E & Hb0).
    exists b0, t. split; [assumption|]. apply isCont_false. lia.
Qed.

(** After a byte that is not a continuation byte, with no pending space,
    the output starts with a byte that is not a continuation byte. *)
Lemma out_head c rest :
  isCont c = false ->
  exists h t, normalizer.normalizeUnicodeLoop (c :: rest) [] false = h :: t
              /\ isCont h = false.
Proof.
  intros Hc. apply isCont_false in Hc.
  destruct (Z.lt_ge_cases (bz c) 128) as [Hlt|Hge].
  - rewrite out_ascii by assumption.
    destruct (asciiStep_piece c false Hlt) as [[? _]|(c' & -> & Hc')]; [discriminate|].
    eexists; eexists; split; [reflexivity|]. apply plain_not_cont. assumption.
  - rewrite out_multi by assumption. unfold normalizer.unicodeStep.
    pose proof (decodeRune_range (c :: rest)) as Hr.
    pose proof (decodeRune_width (c :: rest) ltac:(discriminate)) as Hw.
    destruct (normalizer.decodeRune (c :: rest)) as [r size]. cbn [fst snd] in *.
    destruct (unicode.IsPunct r || unicode.IsSpace r).
    + cbn [negb fst snd app]. eexists; eexists; split; [reflexivity|].
      apply plain_not_cont, plain_SP.
    + destruct (unicode.IsUpper r) eqn:Hup; cbn [fst snd app].
      * destruct (lower_plain _ HT r Hr Hup) as (Hl & _).
        destruct (encodeLower_not_cont _ Hl) as (h & t & -> & Hh).
        eexists; eexists; split; [reflexivity|assumption].
      * destruct size as [|k]; [lia|]. cbn [firstn app].
        eexists; eexists; split; [reflexivity|]. apply isCont_false. lia.
Qed.

(** The output starts with as many continuation bytes as the input. *)
Lemma contPrefix_out n : forall rest,
  contPrefix n (normalizer.normalizeUnicodeLoop rest [] false) = contPrefix n rest.
Proof.
  induction n as [|n IH]; intros rest; [reflexivity|].
  destruct rest as [|c rest]; [rewrite out_nil; reflexivity|].
  destruct (isCont c) eqn:Hc.
  - apply isCont_true in Hc as Hr.
    rewrite out_multi by lia.
    rewrite unicodeStep_invalid by (apply decodeRune_stray; lia).
    rewrite decodeRune_stray by lia. cbn [fst snd app Nat.sub skipn contPrefix].
    rewrite Hc, IH. reflexivity.
  - destruct (out_head c rest Hc) as (h & t & -> & Hh). cbn [contPrefix].
    rewrite Hc, Hh. reflexivity.
Qed.

(** The output of the loop is copied by a second run. *)
Lemma stable_out n : forall s, (length s < n)%nat -> forall lws,
  stable (normalizer.normalizeUnicodeLoop s [] lws).
Proof.
  induction n as [|n IH]; intros s Hn lws; [lia|].
  destruct s as [|b rest]; [rewrite out_nil; intros w; apply out_nil|].
  simpl in Hn. destruct (Z.lt_ge_cases (bz b) 128) as [Hlt|Hge].
  { rewrite out_ascii by assumption.
    destruct (asciiStep_piece b lws Hlt) as [[_ ->]|(c & -> & Hc)]; cbn [app].
    - apply IH. lia.
    - apply stable_plain; [assumption|]. apply IH. lia. }
  rewrite out_multi by assumption.
  assert (Hnext : (length (skipn (snd (normalizer.decodeRune (b :: rest)) - 1) rest)
                   < n)%nat) by (rewrite length_skipn; lia).
  pose proof (decodeRune_range (b :: rest)) as Hr.
  unfold normalizer.unicodeStep.
  destruct (normalizer.decodeRune (b :: rest)) as [r size] eqn:Hdec.
  cbn [fst snd] in *.
  destruct (unicode.IsPunct r || unicode.IsSpace r) eqn:Hps.
  { destruct lws; cbn [negb fst snd app].
    - apply IH. assumption.
    - apply stable_plain; [apply plain_SP|]. apply IH. assumption. }
  apply orb_false_iff in Hps as [Hp Hs].
  destruct (unicode.IsUpper r) eqn:Hup; cbn [fst snd app].
  { destruct (lower_plain _ HT r Hr Hup) as (Hl & Hlp & Hls & Hlu).
    apply stable_encoded; try assumption. apply IH. assumption. }
  pose proof (bz_range b) as Hb.
  assert (Hinvalid : forall rest',
    normalizer.decodeRune (b :: rest) = (unicode.ReplacementChar, 1%nat) ->
    normalizer.decodeRune
      (b :: normalizer.normalizeUnicodeLoop rest' [] false)
    = normalizer.decodeRune (b :: rest') ->
    rest' = rest ->
    stable (firstn size (b :: rest)
            ++ normalizer.normalizeUnicodeLoop (skipn (size - 1) rest) [] false)).
  { intros rest' E E' ->. rewrite Hdec in E. injection E as -> ->.
    change (firstn 1 (b :: rest)) with [b].
    change (skipn (1 - 1) rest) with rest.
    apply stable_token with (r := unicode.ReplacementChar); try assumption.
    - cbn [app length]. rewrite E'. exact Hdec.
    - intros Hup'. rewrite Hup in Hup'. discriminate.
    - apply IH. lia. }
  destruct (Z.lt_ge_cases (bz b) 192) as [Hlo|Hhi].
  { apply (Hinvalid rest); [apply decodeRune_stray; lia| |reflexivity].
    rewrite !decodeRune_stray by lia. reflexivity. }
  destruct (Z.lt_ge_cases 247 (bz b)) as [Hbig|Hok].
  { apply (Hinvalid rest); [apply decodeRune_stray; lia| |reflexivity].
    rewrite !decodeRune_stray by lia. reflexivity. }
  destruct (contPrefix (need b) rest) eqn:Hc.
  2:{ apply (Hinvalid rest); [apply decodeRune_short; (assumption || lia)| |reflexivity].
      rewrite !decodeRune_short; try lia; try assumption; [reflexivity|].
      rewrite contPrefix_out. assumption. }
  destruct (decodeRune_full b rest
              (normalizer.normalizeUnicodeLoop (skipn (size - 1) rest) [] false)
              ltac:(lia) Hc) as [Hsize Hsame].
  rewrite Hdec in Hsize, Hsame. cbn [snd] in Hsize. subst size.
  cbn [firstn]. rewrite Nat.sub_succ, Nat.sub_0_r in *.
  apply contPrefix_length in Hc.
  apply stable_token with (r := r); try assumption.
  - cbn [app length]. rewrite Hsame, length_firstn, Nat.min_l by lia. reflexivity.
  - intros Hup'. rewrite Hup in Hup'. discriminate.
  - apply IH. assumption.
Qed.

Lemma forallb_ascii_inv src :
  forallb (fun c => negb (128 <=? bz c)) src = true ->
  Forall (fun b => bz b < 128) src.
Proof.
  induction src as [|b rest IH]; intros H; constructor; simpl in H;
    apply andb_true_iff in H as [Hb Hrest].
  - destruct (Z.leb_spec 128 (bz b)); [discriminate|lia].
  - apply IH. assumption.
Qed.

(** [Normalize] is the loop of [normalizeUnicode] on every input. *)
Lemma Normalize_loop (x : list byte) :
  normalizer.Normalize x = normalizer.normalizeUnicodeLoop x [] false.
Proof.
  unfold normalizer.Normalize. destruct x as [|b rest]; [rewrite out_nil; reflexivity|].
  change (length (b :: rest) =? 0)%nat with false. cbv iota zeta.
  destruct (forallb _ (b :: rest)) eqn:Ha; [|reflexivity].
  unfold normalizer.normalizeASCII. symmetry.
  apply normalizeUnicodeLoop_ascii, forallb_ascii_inv. assumption.
Qed.

Lemma Normalize_twice (x : list byte) :
  normalizer.Normalize (normalizer.Normalize x) = normalizer.Normalize x.
Proof.
  rewrite !Normalize_loop. apply (stable_out (S (length x))). lia.
Qed.

End NormalizeTwice.

(** ** Go's decoder and encoder *)

Ltac split_tests :=
  repeat (match goal with
          | |- context [Z.eqb ?a ?b] => destruct (Z.eqb_spec a b)
          | |- context [Z.ltb ?a ?b] =>
            lazymatch a with context [Z.ltb _ _] => fail | _ => idtac end;
            lazymatch b with context [Z.ltb _ _] => fail | _ => idtac end;
            destruct (Z.ltb_spec a b)
          end; try lia; cbn [orb andb negb length Nat.ltb Nat.leb]).

Lemma DecodeRune_ascii b rest :
  bz b < 128 -> utf8.DecodeRune (b :: rest) = (bz b, 1%nat).
Proof.
  intros Hb. unfold utf8.DecodeRune. cbv zeta.
  destruct (Z.ltb_spec (bz b) 128); [reflexivity|lia].
Qed.

Lemma DecodeRune_2 p0 c1 rest :
  194 <= bz p0 < 224 -> 128 <= bz c1 <= 191 ->
  utf8.DecodeRune (p0 :: c1 :: rest)
  = (Z.lor (Z.shiftl (Z.land (bz p0) 31) 6) (Z.land (bz c1) 63), 2%nat).
Proof.
  intros H0 H1. unfold utf8.DecodeRune. cbv zeta. split_tests. reflexivity.
Qed.

Lemma DecodeRune_3 p0 c1 c2 rest :
  224 <= bz p0 < 240 -> 128 <= bz c1 <= 191 ->
  (bz p0 = 224 -> 160 <= bz c1) -> (bz p0 = 237 -> bz c1 <= 159) ->
  128 <= bz c2 <= 191 ->
  utf8.DecodeRune (p0 :: c1 :: c2 :: rest)
  = (Z.lor (Z.lor (Z.shiftl (Z.land (bz p0) 15) 12) (Z.shiftl (Z.land (bz c1) 63) 6))
           (Z.land (bz c2) 63), 3%nat).
Proof.
  intros H0 H1 Hlo Hhi H2. unfold utf8.DecodeRune. cbv zeta. split_tests; reflexivity.
Qed.

Lemma DecodeRune_4 p0 c1 c2 c3 rest :
  240 <= bz p0 <= 244 -> 128 <= bz c1 <= 191 ->
  (bz p0 = 240 -> 144 <= bz c1) -> (bz p0 = 244 -> bz c1 <= 143) ->
  128 <= bz c2 <= 191 -> 128 <= bz c3 <= 191 ->
  utf8.DecodeRune (p0 :: c1 :: c2 :: c3 :: rest)
  = (Z.lor (Z.lor (Z.lor (Z.shiftl (Z.land (bz p0) 7) 18)
                         (Z.shiftl (Z.land (bz c1) 63) 12))
                  (Z.shiftl (Z.land (bz c2) 63) 6))
           (Z.land (bz c3) 63), 4%nat).
Proof.
  intros H0 H1 Hlo Hhi H2 H3. unfold utf8.DecodeRune. cbv zeta. split_tests; reflexivity.
Qed.

(** Go's decoder returns scalar values only. *)
Lemma DecodeRune_scalar s : scalar (fst (utf8.DecodeRune s)).
Proof.
  assert (Herr : forall k : nat, scalar (fst (utf8.RuneError, k)))
    by (intros k; unfold scalar, utf8.RuneError, unicode.MaxRune; simpl; lia).
  destruct s as [|b0 [|b1 [|b2 [|b3 rest]]]];
    try pose proof (bz_range b0); try pose proof (bz_range b1);
    try pose proof (bz_range b2); try pose proof (bz_range b3);
    unfold utf8.DecodeRune; cbv zeta; try apply Herr; split_tests; try apply Herr.
  all: cbn [fst]; unfold scalar, unicode.MaxRune; try lia.
  all: bits; divmod.
Qed.

Lemma DecodeRune_width s :
  s <> [] -> (1 <= snd (utf8.DecodeRune s) <= length s)%nat.
Proof.
  destruct s as [|b0 [|b1 [|b2 [|b3 rest]]]]; [congruence|..]; intros _;
    unfold utf8.DecodeRune; cbv zeta; split_tests; cbn [snd length]; lia.
Qed.

Lemma EncodeRune_scalar r :
  scalar r ->
  utf8.EncodeRune r
  = if r <? 128 then [byte_of_Z r]
    else if r <? 2048 then
      [byte_of_Z (Z.lor 192 (Z.shiftr r 6)); byte_of_Z (Z.lor 128 (Z.land r 63))]
    else if r <? 65536 then
      [byte_of_Z (Z.lor 224 (Z.shiftr r 12));
       byte_of_Z (Z.lor 128 (Z.land (Z.shiftr r 6) 63));
       byte_of_Z (Z.lor 128 (Z.land r 63))]
    else
      [byte_of_Z (Z.lor 240 (Z.shiftr r 18));
       byte_of_Z (Z.lor 128 (Z.land (Z.shiftr r 12) 63));
       byte_of_Z (Z.lor 128 (Z.land (Z.shiftr r 6) 63));
       byte_of_Z (Z.lor 128 (Z.land r 63))].
Proof.
  unfold scalar, unicode.MaxRune, utf8.EncodeRune. intros Hr. cbv zeta.
  destruct (Z.leb_spec 0 r); [|lia].
  destruct (Z.leb_spec r 127), (Z.ltb_spec r 128); try lia; cbn [andb]; [reflexivity|].
  destruct (Z.leb_spec r 2047), (Z.ltb_spec r 2048); try lia; [reflexivity|].
  destruct (Z.ltb_spec r 0); [lia|].
  destruct (Z.ltb_spec 1114111 r); [lia|].
  destruct (Z.leb_spec 55296 r), (Z.leb_spec r 57343); try lia; cbn [andb orb];
    destruct (Z.leb_spec r 65535), (Z.ltb_spec r 65536); try lia; reflexivity.
Qed.

(** Decoding an encoded scalar value gives it back, whatever follows. *)
Lemma DecodeRune_EncodeRune r tail :
  scalar r ->
  utf8.DecodeRune (utf8.EncodeRune r ++ tail) = (r, length (utf8.EncodeRune r)).
Proof.
  intros Hr. rewrite EncodeRune_scalar by assumption.
  unfold scalar, unicode.MaxRune in Hr.
  destruct (Z.ltb_spec r 128); [|destruct (Z.ltb_spec r 2048);
    [|destruct (Z.ltb_spec r 65536)]]; cbn [app length].
  - rewrite DecodeRune_ascii by (rewrite bz_byte_of_Z, Z.mod_small by lia; lia).
    rewrite bz_byte_of_Z, Z.mod_small by lia. reflexivity.
  - rewrite DecodeRune_2; rewrite ?lead2_byte, ?cont_byte by lia;
      try (intros; bits; divmod).
    f_equal. bits. divmod.
  - rewrite DecodeRune_3; rewrite ?lead3_byte, ?cont_byte by lia;
      try (intros; bits; divmod).
    f_equal. bits. divmod.
  - rewrite DecodeRune_4; rewrite ?lead4_byte, ?cont_byte by lia;
      try (intros; bits; divmod).
    f_equal. bits. divmod.
Qed.

Lemma EncodeRune_cons r : exists b t, utf8.EncodeRune r = b :: t.
Proof.
  unfold utf8.EncodeRune. cbv zeta.
  repeat match goal with
         | |- context [if ?c then _ else _] => destruct c
         end; eexists; eexists; reflexivity.
Qed.

(** ** Strings as rune sequences *)

Lemma stringTokens_cons b rest :
  utf8.stringTokens (b :: rest)
  = (fst (utf8.DecodeRune (b :: rest)),
     b :: firstn (snd (utf8.DecodeRune (b :: rest)) - 1) rest)
    :: utf8.stringTokens (skipn (snd (utf8.DecodeRune (b :: rest)) - 1) rest).
Proof. rewrite utf8.stringTokens_equation_2. reflexivity. Qed.

Lemma stringRunes_nil : utf8.stringRunes [] = [].
Proof. unfold utf8.stringRunes. rewrite utf8.stringTokens_equation_1. reflexivity. Qed.

Lemma stringRunes_cons b rest :
  utf8.stringRunes (b :: rest)
  = fst (utf8.DecodeRune (b :: rest))
    :: utf8.stringRunes (skipn (snd (utf8.DecodeRune (b :: rest)) - 1) rest).
Proof. unfold utf8.stringRunes. rewrite stringTokens_cons. reflexivity. Qed.

Lemma stringRunes_ascii s :
  Forall (fun b => bz b < 128) s -> utf8.stringRunes s = map bz s.
Proof.
  induction 1 as [|b rest Hb _ IH]; [apply stringRunes_nil|].
  rewrite stringRunes_cons, DecodeRune_ascii by assumption.
  cbn [fst snd map]. change (skipn (1 - 1) rest) with rest. rewrite IH. reflexivity.
Qed.

Lemma stringRunes_EncodeRune r tail :
  scalar r ->
  utf8.stringRunes (utf8.EncodeRune r ++ tail) = r :: utf8.stringRunes tail.
Proof.
  intros Hr. pose proof (DecodeRune_EncodeRune r tail Hr) as Hdec.
  destruct (EncodeRune_cons r) as (b & t & E). rewrite E in *. cbn [app] in *.
  rewrite stringRunes_cons, Hdec. cbn [fst snd length].
  rewrite Nat.sub_succ, Nat.sub_0_r, drop_app_length. reflexivity.
Qed.

Lemma stringRunes_runesString rs :
  Forall scalar rs -> utf8.stringRunes (utf8.runesString rs) = rs.
Proof.
  induction 1 as [|r rs Hr _ IH]; [apply stringRunes_nil|].
  unfold utf8.runesString in *. cbn [flat_map].
  rewrite stringRunes_EncodeRune by assumption. rewrite IH. reflexivity.
Qed.

Lemma stringRunes_scalar n : forall s,
  (length s < n)%nat -> Forall scalar (utf8.stringRunes s).
Proof.
  induction n as [|n IH]; intros s Hn; [lia|].
  destruct s as [|b rest]; [rewrite stringRunes_nil; constructor|].
  rewrite stringRunes_cons. constructor; [apply DecodeRune_scalar|].
  apply IH. rewrite length_skipn. simpl in Hn. lia.
Qed.

(** ** The normalizers that work rune by rune *)

Lemma forallb_RuneSelf s :
  forallb (fun c => bz c <? utf8.RuneSelf) s = true ->
  Forall (fun b => bz b < 128) s.
Proof.
  induction s as [|b rest IH]; intros H; constructor; simpl in H;
    apply andb_true_iff in H as [Hb Hrest].
  - unfold utf8.RuneSelf in Hb. lia.
  - apply IH. assumption.
Qed.

Lemma scalar_32 : scalar 32.
Proof. unfold scalar, unicode.MaxRune. lia. Qed.

(** [strings.Map] writes the images of the runes when none is negative. *)
Lemma Map_runes (mapping : Z -> Z) (rs : list Z) :
  Forall (fun c => scalar (mapping c)) rs ->
  flat_map (fun c => let r := mapping c in
                     if r <? 0 then [] else utf8.EncodeRune r) rs
  = utf8.runesString (map mapping rs).
Proof.
  unfold utf8.runesString. induction 1 as [|c rs Hc _ IH]; [reflexivity|].
  cbn [flat_map map]. rewrite IH. cbv zeta. unfold scalar in Hc.
  destruct (Z.ltb_spec (mapping c) 0); [lia|reflexivity].
Qed.

(** A loop that writes one rune for every rune it reads. *)
Lemma fold_left_runes (h : Z -> Z) (g : list byte -> Z -> list byte) (rs : list Z) :
  Forall (fun r => forall sb, g sb r = sb ++ utf8.EncodeRune (h r)) rs ->
  forall sb, fold_left g rs sb = sb ++ utf8.runesString (map h rs).
Proof.
  unfold utf8.runesString. induction 1 as [|r rs Hr _ IH]; intros sb; cbn [fold_left].
  - rewrite app_nil_r. reflexivity.
  - rewrite Hr, IH. cbn [map flat_map]. rewrite app_assoc. reflexivity.
Qed.

(** A normalizer that maps the runes of its input by an idempotent map is
    idempotent. *)
Lemma runes_twice (h : Z -> Z) (N : list byte -> list byte) :
  (forall x, N x = utf8.runesString (map h (utf8.stringRunes x))) ->
  (forall r, scalar r -> scalar (h r) /\ h (h r) = h r) ->
  forall x, N (N x) = N x.
Proof.
  intros HN Hh x. rewrite (HN (N x)), (HN x).
  pose proof (stringRunes_scalar (S (length x)) x ltac:(lia)) as Hs.
  rewrite stringRunes_runesString.
  - rewrite map_map. f_equal. apply map_ext_in. intros r Hr.
    rewrite List.Forall_forall in Hs. apply Hh, Hs. assumption.
  - apply List.Forall_map. eapply List.Forall_impl; [|exact Hs]. intros r Hr.
    apply Hh. assumption.
Qed.

Section RuneNormalizers.
Context {T : unicode.Tables}.
Hypothesis HT : CaseTables T.

(** The runes of the lower-cased text are the lower-cased runes. *)
Lemma stringRunes_ToLower x :
  utf8.stringRunes (strings.ToLower x) = map unicode.ToLower (utf8.stringRunes x).
Proof.
  unfold strings.ToLower. destruct (forallb _ x) eqn:Ha.
  - apply forallb_RuneSelf in Ha.
    rewrite (stringRunes_ascii x Ha), stringRunes_ascii.
    + rewrite !map_map. apply map_ext_in. intros c Hc.
      rewrite List.Forall_forall in Ha. specialize (Ha c Hc). pose proof (bz_range c).
      unfold unicode.ToLower, unicode.MaxASCII.
      destruct (Z.leb_spec (bz c) 127); [|lia].
      destruct (unicode.asciiUpper (bz c)) eqn:Hu; [|reflexivity].
      unfold unicode.asciiUpper in Hu.
      rewrite bz_byte_of_Z. apply Z.mod_small. lia.
    + induction Ha as [|c rest Hc _ IH]; constructor; [|exact IH].
      pose proof (bz_range c).
      destruct (unicode.asciiUpper (bz c)) eqn:Hu; [|assumption].
      unfold unicode.asciiUpper in Hu. rewrite bz_byte_of_Z, Z.mod_small by lia. lia.
  - unfold strings.Map.
    pose proof (stringRunes_scalar (S (length x)) x ltac:(lia)) as Hs.
    assert (Hl : Forall (fun c => scalar (unicode.ToLower c)) (utf8.stringRunes x)).
    { eapply List.Forall_impl; [|exact Hs]. intros r Hr.
      apply (lower_scalar _ HT). assumption. }
    rewrite Map_runes by exact Hl.
    apply stringRunes_runesString. apply List.Forall_map. exact Hl.
Qed.

(** A lower-case form that is an ASCII character is not an upper-case
    letter. *)
Lemma lower_not_asciiUpper r :
  scalar r -> unicode.ToLower r < 128 -> unicode.asciiUpper (unicode.ToLower r) = false.
Proof.
  intros Hr Hl. pose proof (lower_lower _ HT r Hr) as Hll.
  destruct (lower_scalar _ HT r Hr) as [Hs _].
  destruct (unicode.asciiUpper (unicode.ToLower r)) eqn:Hu; [|reflexivity].
  unfold unicode.ToLower at 1 in Hll. unfold unicode.MaxASCII in Hll.
  destruct (Z.leb_spec (unicode.ToLower r) 127); [|lia].
  rewrite Hu in Hll. lia.
Qed.

(** *** DefaultNormalizer *)

Lemma DefaultNormalize_runes x :
  normalizer.DefaultNormalize x
  = utf8.runesString (map defaultRune (utf8.stringRunes x)).
Proof.
  unfold normalizer.DefaultNormalize. cbv zeta.
  rewrite fold_left_write, stringRunes_ToLower, map_map. reflexivity.
Qed.

Lemma defaultRune_twice r :
  scalar r -> scalar (defaultRune r) /\ defaultRune (defaultRune r) = defaultRune r.
Proof.
  intros Hr. unfold defaultRune.
  destruct (unicode.IsPunct (unicode.ToLower r)) eqn:Hp.
  - split; [apply scalar_32|reflexivity].
  - split; [apply (lower_scalar _ HT); assumption|].
    rewrite (lower_lower _ HT r Hr), Hp. reflexivity.
Qed.

(** *** OptimizedNormalizer, with the rune buffer *)

Lemma OptimizedNormalizeRunes_runes x :
  normalizer.OptimizedNormalizeRunes x
  = utf8.runesString (map optimizedRunesRune (utf8.stringRunes x)).
Proof.
  unfold normalizer.OptimizedNormalizeRunes.
  destruct x as [|b rest]; [rewrite stringRunes_nil; reflexivity|].
  change (length (b :: rest) =? 0)%nat with false. cbv iota.
  rewrite (fold_left_runes optimizedRunesRune); [reflexivity|].
  apply List.Forall_forall. intros r _ sb. unfold optimizedRunesRune.
  destruct (unicode.IsPunct r); reflexivity.
Qed.

Lemma optimizedRunesRune_twice r :
  scalar r ->
  scalar (optimizedRunesRune r)
  /\ optimizedRunesRune (optimizedRunesRune r) = optimizedRunesRune r.
Proof.
  intros Hr. unfold optimizedRunesRune.
  destruct (unicode.IsPunct r) eqn:Hp.
  - split; [apply scalar_32|reflexivity].
  - split; [apply (lower_scalar _ HT); assumption|].
    rewrite (lower_punct _ HT r Hr Hp), (lower_lower _ HT r Hr). reflexivity.
Qed.

End RuneNormalizers.

Lemma EncodeRune_ascii c : 0 <= c < 128 -> utf8.EncodeRune c = [byte_of_Z c].
Proof.
  intros Hc. unfold utf8.EncodeRune.
  destruct (Z.leb_spec 0 c), (Z.leb_spec c 127); try lia. reflexivity.
Qed.

Lemma forallb_ascii_runes rs :
  forallb (fun r => negb (128 <=? r)) rs = true -> Forall (fun r => r < 128) rs.
Proof.
  induction rs as [|r rest IH]; intros H; constructor; simpl in H;
    apply andb_true_iff in H as [Hr Hrest].
  - lia.
  - apply IH. assumption.
Qed.

Section TableNormalizers.
Context {T : unicode.Tables}.
Hypothesis HT : CaseTables T.

(** *** FastNormalizer *)

Lemma fastAt_entry r :
  0 <= r < 128 -> normalizer.fastAt r = normalizer.fastTableEntry r.
Proof.
  intros Hr. unfold normalizer.fastAt, normalizer.fastTable.
  rewrite nth_indep with (d' := normalizer.fastTableEntry (Z.of_nat 0))
    by (rewrite length_map, length_seq; lia).
  rewrite (map_nth (fun i => normalizer.fastTableEntry (Z.of_nat i))).
  rewrite seq_nth by lia. simpl. rewrite Z2Nat.id by lia. reflexivity.
Qed.

Lemma fastASCII_rune sb r :
  0 <= r < 128 ->
  normalizer.fastASCII sb r = sb ++ utf8.EncodeRune (fastRune r).
Proof.
  intros Hr. unfold normalizer.fastASCII, fastRune. cbv zeta.
  rewrite fastAt_entry by assumption.
  unfold normalizer.fastTableEntry, unicode.IsPunct, unicode.IsUpper, unicode.ToLower,
    unicode.MaxASCII.
  destruct (Z.leb_spec r 127); [|lia]. destruct (Z.ltb_spec r 128); [|lia].
  destruct (unicode.asciiPunct r); [reflexivity|].
  destruct (unicode.asciiUpper r); reflexivity.
Qed.

Lemma FastNormalize_runes x :
  normalizer.FastNormalize x = utf8.runesString (map fastRune (utf8.stringRunes x)).
Proof.
  unfold normalizer.FastNormalize.
  destruct x as [|b rest]; [rewrite stringRunes_nil; reflexivity|].
  change (length (b :: rest) =? 0)%nat with false. cbv iota zeta.
  pose proof (stringRunes_scalar (S (length (b :: rest))) (b :: rest) ltac:(lia)) as Hs.
  destruct (forallb _ (utf8.stringRunes (b :: rest))) eqn:Ha.
  - apply forallb_ascii_runes in Ha.
    rewrite (fold_left_runes fastRune); [reflexivity|].
    rewrite List.Forall_forall in *. intros r Hr sb.
    specialize (Hs r Hr). specialize (Ha r Hr). unfold scalar in Hs.
    apply fastASCII_rune. lia.
  - rewrite (fold_left_runes fastRune); [reflexivity|].
    rewrite List.Forall_forall in *. intros r Hr sb.
    specialize (Hs r Hr). unfold scalar in Hs.
    destruct (Z.ltb_spec r 128) as [Hlt|Hge].
    + apply fastASCII_rune. lia.
    + unfold fastRune. destruct (Z.ltb_spec r 128); [lia|].
      destruct (unicode.IsPunct r); reflexivity.
Qed.

Lemma fastRune_ascii_twice c :
  0 <= c < 128 -> unicode.asciiPunct c = false -> unicode.asciiUpper c = false ->
  fastRune c = c.
Proof.
  intros Hc Hp Hu. unfold fastRune. destruct (Z.ltb_spec c 128); [|lia].
  rewrite Hp, Hu. reflexivity.
Qed.

Lemma asciiPunct_lowered r :
  unicode.asciiUpper r = true ->
  unicode.asciiPunct (r + 32) = false /\ unicode.asciiUpper (r + 32) = false
  /\ unicode.asciiSpace (r + 32) = false.
Proof.
  unfold unicode.asciiUpper, unicode.asciiPunct, unicode.asciiSpace, existsb. lia.
Qed.

Lemma fastRune_twice r :
  scalar r -> scalar (fastRune r) /\ fastRune (fastRune r) = fastRune r.
Proof.
  intros Hr. pose proof Hr as [Hr0 _]. unfold unicode.MaxRune in Hr0.
  unfold fastRune at 1 3 4. destruct (Z.ltb_spec r 128) as [Hlt|Hge].
  - destruct (unicode.asciiPunct r) eqn:Hp; [split; [apply scalar_32|reflexivity]|].
    destruct (unicode.asciiUpper r) eqn:Hu.
    + destruct (asciiPunct_lowered r Hu) as (Hp' & Hu' & _).
      unfold unicode.asciiUpper in Hu.
      split; [unfold scalar, unicode.MaxRune; lia|].
      apply fastRune_ascii_twice; (assumption || lia).
    + split; [assumption|]. apply fastRune_ascii_twice; (assumption || lia).
  - destruct (unicode.IsPunct r) eqn:Hp; [split; [apply scalar_32|reflexivity]|].
    pose proof (lower_scalar _ HT r Hr) as Hl.
    pose proof (lower_punct _ HT r Hr Hp) as Hlp.
    pose proof (lower_lower _ HT r Hr) as Hll.
    split; [assumption|]. unfold fastRune.
    destruct (Z.ltb_spec (unicode.ToLower r) 128) as [Hlt'|Hge'].
    + rewrite (lower_not_asciiUpper HT r Hr Hlt').
      unfold unicode.IsPunct, unicode.MaxASCII in Hlp.
      destruct (Z.leb_spec (unicode.ToLower r) 127); [|lia].
      rewrite Hlp. reflexivity.
    + rewrite Hlp. exact Hll.
Qed.

(** *** OptimizedNormalizer, with the decision table *)

(** What is written for a class of runes. *)
Lemma optimizedSwitch_class buffer w b :
  bz b < 128 ->
  normalizer.optimizedSwitch buffer w b
  = match optimizedClass (bz b) with
    | Some c => (buffer ++ utf8.EncodeRune c, false)
    | None => if w then (buffer, true) else (buffer ++ utf8.EncodeRune 32, true)
    end.
Proof.
  intros Hb. pose proof (bz_range b) as Hr.
  unfold normalizer.optimizedSwitch, optimizedClass.
  rewrite optimizedAt_entry by lia.
  unfold normalizer.optimizedTableEntry, unicode.IsPunct, unicode.IsSpace,
    unicode.IsUpper, unicode.MaxASCII.
  destruct (Z.leb_spec (bz b) 127); [|lia]. destruct (Z.ltb_spec (bz b) 128); [|lia].
  destruct (unicode.asciiPunct (bz b) || unicode.asciiSpace (bz b)).
  - destruct w; reflexivity.
  - destruct (unicode.asciiUpper (bz b)) eqn:Hu.
    + unfold unicode.asciiUpper in Hu. rewrite EncodeRune_ascii by lia. reflexivity.
    + rewrite EncodeRune_ascii by lia. rewrite byte_of_Z_bz. reflexivity.
Qed.

Lemma optimizedRune_class buffer w r :
  0 <= r ->
  normalizer.optimizedRune (buffer, w) r
  = match optimizedClass r with
    | Some c => (buffer ++ utf8.EncodeRune c, false)
    | None => if w then (buffer, true) else (buffer ++ utf8.EncodeRune 32, true)
    end.
Proof.
  intros Hr. unfold normalizer.optimizedRune.
  destruct (Z.ltb_spec r 128) as [Hlt|Hge].
  - assert (E : bz (byte_of_Z r) = r) by (rewrite bz_byte_of_Z; apply Z.mod_small; lia).
    rewrite optimizedSwitch_class by lia. rewrite E. reflexivity.
  - unfold optimizedClass. destruct (Z.ltb_spec r 128); [lia|].
    destruct (unicode.IsPunct r || unicode.IsSpace r); [|reflexivity].
    destruct w; reflexivity.
Qed.

Lemma fold_optimizedRune rs : forall buffer w,
  Forall scalar rs ->
  fst (fold_left normalizer.optimizedRune rs (buffer, w))
  = buffer ++ utf8.runesString (collapse rs w).
Proof.
  unfold utf8.runesString.
  induction rs as [|r rest IH]; intros buffer w Hs; cbn [fold_left collapse].
  - cbn [flat_map fst]. rewrite app_nil_r. reflexivity.
  - inversion Hs as [|? ? Hr Hrest]; subst. unfold scalar in Hr.
    rewrite optimizedRune_class by lia.
    destruct (optimizedClass r) as [c|]; [|destruct w];
      rewrite IH by assumption; cbn [flat_map]; rewrite ?app_assoc; reflexivity.
Qed.

Lemma fold_optimizedSwitch text : forall buffer w,
  Forall (fun b => bz b < 128) text ->
  fst (fold_left (fun st b => normalizer.optimizedSwitch (fst st) (snd st) b)
                 text (buffer, w))
  = buffer ++ utf8.runesString (collapse (map bz text) w).
Proof.
  unfold utf8.runesString.
  induction text as [|b rest IH]; intros buffer w Ha; cbn [fold_left collapse map].
  - cbn [flat_map fst]. rewrite app_nil_r. reflexivity.
  - inversion Ha as [|? ? Hb Hrest]; subst. cbn [fst snd].
    rewrite optimizedSwitch_class by assumption.
    destruct (optimizedClass (bz b)) as [c|]; [|destruct w];
      rewrite IH by assumption; cbn [flat_map]; rewrite ?app_assoc; reflexivity.
Qed.

Lemma OptimizedNormalize_runes x :
  normalizer.OptimizedNormalize x
  = utf8.runesString (collapse (utf8.stringRunes x) false).
Proof.
  unfold normalizer.OptimizedNormalize.
  destruct x as [|b rest]; [rewrite stringRunes_nil; reflexivity|].
  change (length (b :: rest) =? 0)%nat with false. cbv iota zeta.
  destruct (forallb _ (b :: rest)) eqn:Ha.
  - apply forallb_ascii_inv in Ha.
    rewrite fold_optimizedSwitch by assumption.
    rewrite stringRunes_ascii by assumption. reflexivity.
  - rewrite fold_optimizedRune; [reflexivity|].
    apply (stringRunes_scalar (S (length (b :: rest)))). lia.
Qed.

(** A rune the normalizer writes is kept by it, and the space it writes is
    white space. *)
Lemma optimizedClass_kept r c :
  scalar r -> optimizedClass r = Some c -> scalar c /\ optimizedClass c = Some c.
Proof.
  intros Hr. pose proof Hr as [Hr0 _]. unfold unicode.MaxRune in Hr0.
  unfold optimizedClass at 1. destruct (Z.ltb_spec r 128) as [Hlt|Hge].
  - destruct (unicode.asciiPunct r || unicode.asciiSpace r) eqn:Hps; [discriminate|].
    apply orb_false_iff in Hps as [Hp Hs].
    destruct (unicode.asciiUpper r) eqn:Hu; intros E; injection E as <-.
    + destruct (asciiPunct_lowered r Hu) as (Hp' & Hu' & Hs').
      unfold unicode.asciiUpper in Hu.
      split; [unfold scalar, unicode.MaxRune; lia|].
      unfold optimizedClass. destruct (Z.ltb_spec (r + 32) 128); [|lia].
      rewrite Hp', Hs', Hu'. reflexivity.
    + split; [assumption|].
      unfold optimizedClass. destruct (Z.ltb_spec r 128); [|lia].
      rewrite Hp, Hs, Hu. reflexivity.
  - destruct (unicode.IsPunct r || unicode.IsSpace r) eqn:Hps; [discriminate|].
    apply orb_false_iff in Hps as [Hp Hs]. intros E. injection E as <-.
    pose proof (lower_scalar _ HT r Hr) as Hl.
    pose proof (lower_punct _ HT r Hr Hp) as Hlp.
    pose proof (lower_space _ HT r Hr Hs) as Hls.
    pose proof (lower_lower _ HT r Hr) as Hll.
    split; [assumption|]. unfold optimizedClass.
    destruct (Z.ltb_spec (unicode.ToLower r) 128) as [Hlt'|Hge'].
    + rewrite (lower_not_asciiUpper HT r Hr Hlt').
      unfold unicode.IsPunct, unicode.IsSpace, unicode.MaxASCII in Hlp, Hls.
      destruct (Z.leb_spec (unicode.ToLower r) 127); [|lia].
      rewrite Hlp, Hls. reflexivity.
    + rewrite Hlp, Hls, Hll. reflexivity.
Qed.

Lemma optimizedClass_32 : optimizedClass 32 = None.
Proof. reflexivity. Qed.

Lemma collapse_scalar rs : forall w, Forall scalar rs -> Forall scalar (collapse rs w).
Proof.
  induction rs as [|r rest IH]; intros w Hs; cbn [collapse]; [constructor|].
  inversion Hs as [|? ? Hr Hrest]; subst.
  destruct (optimizedClass r) as [c|] eqn:Hc.
  - constructor; [apply (optimizedClass_kept r c Hr Hc)|apply IH; assumption].
  - destruct w; [apply IH; assumption|].
    constructor; [apply scalar_32|apply IH; assumption].
Qed.

Lemma collapse_twice rs : forall w,
  Forall scalar rs -> collapse (collapse rs w) w = collapse rs w.
Proof.
  induction rs as [|r rest IH]; intros w Hs; cbn [collapse]; [reflexivity|].
  inversion Hs as [|? ? Hr Hrest]; subst.
  destruct (optimizedClass r) as [c|] eqn:Hc.
  - cbn [collapse]. rewrite (proj2 (optimizedClass_kept r c Hr Hc)).
    rewrite IH by assumption. reflexivity.
  - destruct w; [apply IH; assumption|].
    cbn [collapse]. rewrite optimizedClass_32. rewrite IH by assumption. reflexivity.
Qed.

Lemma OptimizedNormalize_twice x :
  normalizer.OptimizedNormalize (normalizer.OptimizedNormalize x)
  = normalizer.OptimizedNormalize x.
Proof.
  rewrite (OptimizedNormalize_runes (normalizer.OptimizedNormalize x)).
  rewrite (OptimizedNormalize_runes x).
  pose proof (stringRunes_scalar (S (length x)) x ltac:(lia)) as Hs.
  rewrite stringRunes_runesString by (apply collapse_scalar; assumption).
  rewrite collapse_twice by assumption. reflexivity.
Qed.

End TableNormalizers.

(** ** Go's Latin-1 tables *)

Ltac unfold_tables :=
  unfold unicode.ToLower, unicode.IsPunct, unicode.IsSpace, unicode.IsUpper,
    unicode.MaxASCII, unicode.asciiUpper, unicode.asciiPunct, unicode.asciiSpace,
    unicode.tToLower, unicode.tIsPunct, unicode.tIsSpace, unicode.tIsUpper,
    unicode.latin1, unicode.latin1Upper, unicode.latin1Punct, unicode.latin1Space,
    existsb in *.

Ltac split_ifs :=
  repeat match goal with
         | |- context [if ?c then _ else _] =>
           lazymatch c with
           | context [if _ then _ else _] => fail
           | _ => destruct c eqn:?
           end
         end.

Lemma latin1_tables : CaseTables unicode.latin1.
Proof.
  split.
  - intros r. unfold scalar, unicode.MaxRune. unfold_tables. split_ifs; lia.
  - intros r. unfold scalar, unicode.MaxRune. unfold_tables. split_ifs; lia.
  - intros r. unfold scalar, unicode.MaxRune. unfold_tables. split_ifs; lia.
  - intros r. unfold scalar, unicode.MaxRune. unfold_tables. split_ifs; lia.
  - intros r Hr. unfold_tables. split_ifs; lia.
  - vm_compute. repeat split.
Qed.

(** C8.  Each normalizer of the repository is idempotent: normalizing a
    normalized text changes nothing.  This holds of the default normalizer,
    of the allocation-efficient normalizer, of both optimized normalizers
    and of the fast normalizer, for every byte string [x], valid UTF-8 or
    not, over case and category tables with the properties [CaseTables]. *)
Theorem C8_normalize_idempotent {T : unicode.Tables} (x : list byte) :
  CaseTables T ->
  normalizer.DefaultNormalize (normalizer.DefaultNormalize x)
  = normalizer.DefaultNormalize x
  /\ normalizer.Normalize (normalizer.Normalize x) = normalizer.Normalize x
  /\ normalizer.OptimizedNormalize (normalizer.OptimizedNormalize x)
     = normalizer.OptimizedNormalize x
  /\ normalizer.OptimizedNormalizeRunes (normalizer.OptimizedNormalizeRunes x)
     = normalizer.OptimizedNormalizeRunes x
  /\ normalizer.FastNormalize (normalizer.FastNormalize x)
     = normalizer.FastNormalize x.
Proof.
  intros HT. repeat split.
  - apply (runes_twice defaultRune);
      [apply (DefaultNormalize_runes HT)|apply (defaultRune_twice HT)].
  - apply (Normalize_twice HT).
  - apply (OptimizedNormalize_twice HT).
  - apply (runes_twice optimizedRunesRune);
      [apply OptimizedNormalizeRunes_runes|apply (optimizedRunesRune_twice HT)].
  - apply (runes_twice fastRune);
      [apply FastNormalize_runes|apply (fastRune_twice HT)].
Qed.

Lemma C8_witness :
  CaseTables unicode.latin1
  /\ defaultNormalizer (defaultNormalizer mixedText) = defaultNormalizer mixedText
  /\ efficientNormalizer (efficientNormalizer mixedText) = efficientNormalizer mixedText
  /\ normalizer.OptimizedNormalize (T := unicode.latin1)
       (normalizer.OptimizedNormalize (T := unicode.latin1) mixedText)
     = normalizer.OptimizedNormalize (T := unicode.latin1) mixedText
  /\ normalizer.OptimizedNormalizeRunes (T := unicode.latin1)
       (normalizer.OptimizedNormalizeRunes (T := unicode.latin1) mixedText)
     = normalizer.OptimizedNormalizeRunes (T := unicode.latin1) mixedText
  /\ normalizer.FastNormalize (T := unicode.latin1)
       (normalizer.FastNormalize (T := unicode.latin1) mixedText)
     = normalizer.FastNormalize (T := unicode.latin1) mixedText.
Proof.
  split; [exact latin1_tables|].
  exact (C8_normalize_idempotent (T := unicode.latin1) mixedText latin1_tables).
Defined.

(** ** The tokenizers on concrete streams *)

(** C1, the code at failing inputs.  Line mode: the text "ab\r\ncd" read
    whole (7-byte buffer) counts 5 characters, read one byte at a time it
    counts 4, and read three bytes at a time, which puts the CR last in its
    chunk, it counts 4 as well.  Word mode: the single word "aéb"
    counts 1 read whole and 2 read one byte at a time. *)
Lemma C1_chunk_boundaries_change_counts :
  lineCount defaultNormalizer 7 false crlfText = (5, 6, None)
  /\ lineCount defaultNormalizer 1 false crlfText = (4, 6, None)
  /\ lineCount defaultNormalizer 3 false crlfText = (4, 6, None)
  /\ wordCount 7 false accentedWord = Some (1, 4, None)
  /\ wordCount 1 false accentedWord = Some (2, 4, None).
Proof. repeat split; vm_compute; reflexivity. Qed.

(** C2, the code at failing inputs.  Word mode: "hello world" counts 2
    words on the sequential path and 1 with the worker pool, which drops the
    word that ends with the stream.  Line mode: "a\rb" counts 2 characters
    on the sequential path, where CR ends a line, and 3 with the worker
    pool, which splits at LF only. *)
Lemma C2_parallel_differs_from_sequential :
  wordCount 64 false (bytes "hello world") = Some (2, 11, None)
  /\ wordCount 64 true (bytes "hello world") = Some (1, 11, None)
  /\ lineCount defaultNormalizer 64 false crText = (2, 3, None)
  /\ lineCount defaultNormalizer 64 true crText = (3, 3, None).
Proof. repeat split; vm_compute; reflexivity. Qed.

(** ** The line scanner *)

Section LineScanner.
Variable p : lineprocessor.Processor.

Lemma drop_cons_inv (chunk : list byte) k b rest :
  drop k chunk = b :: rest ->
  chunk !! k = Some b /\ drop (S k) chunk = rest /\ (k < length chunk)%nat.
Proof.
  intros H.
  assert (Hb : chunk !! k = Some b).
  { rewrite <- (Nat.add_0_r k), <- lookup_drop, H. reflexivity. }
  split; [exact Hb|]. split.
  - rewrite (drop_S _ _ _ Hb) in H. congruence.
  - eapply lookup_lt_Some; eassumption.
Qed.

Lemma slice_nat (chunk : list byte) (ls k : nat) :
  lineprocessor.slice chunk (Z.of_nat ls) (Z.of_nat k) = take (k - ls) (drop ls chunk).
Proof.
  unfold lineprocessor.slice. rewrite Nat2Z.id.
  replace (Z.to_nat (Z.of_nat k - Z.of_nat ls)) with (k - ls)%nat by lia.
  reflexivity.
Qed.

Lemma take_drop_snoc (chunk : list byte) ls k b :
  (ls <= k)%nat -> chunk !! k = Some b ->
  take (S k - ls) (drop ls chunk) = take (k - ls) (drop ls chunk) ++ [b].
Proof.
  intros Hle Hb. replace (S k - ls)%nat with (S (k - ls)) by lia.
  apply take_S_r. rewrite lookup_drop. replace (ls + (k - ls))%nat with k by lia.
  exact Hb.
Qed.

(** The index-keeping scanner and the byte-keeping scanner agree. *)
Lemma scanChunk_scanAcc (chunk : list byte) : forall todo k ls cr count,
  drop k chunk = todo -> (ls <= k)%nat -> (k <= length chunk)%nat ->
  exists ls' : nat,
    (ls' <= length chunk)%nat /\
    lineprocessor.scanChunk p chunk (Z.of_nat (length chunk)) todo
      (Z.of_nat k) (Z.of_nat ls) cr count
    = (Z.of_nat ls',
       snd (fst (scanAcc p (take (k - ls) (drop ls chunk)) todo cr count)),
       snd (scanAcc p (take (k - ls) (drop ls chunk)) todo cr count))
    /\ fst (fst (scanAcc p (take (k - ls) (drop ls chunk)) todo cr count))
       = drop ls' chunk.
Proof.
  induction todo as [|b rest IH]; intros k ls cr count Hk Hls Hlen.
  - exists ls. simpl. split; [lia|]. split; [reflexivity|].
    assert (length chunk <= k)%nat.
    { destruct (Nat.le_gt_cases (length chunk) k) as [|Hlt]; [assumption|].
      apply (f_equal length) in Hk. rewrite length_drop in Hk. simpl in Hk. lia. }
    apply take_ge. rewrite length_drop. lia.
  - destruct (drop_cons_inv _ _ _ _ Hk) as (Hb & Hrest & Hlt).
    assert (Hi : Z.of_nat k + 1 = Z.of_nat (S k)) by lia.
    simpl. rewrite Hi, slice_nat.
    assert (Hempty : take (S k - S k) (drop (S k) chunk) = []).
    { rewrite Nat.sub_diag. reflexivity. }
    destruct (decide (b = lineprocessor.LF \/ b = lineprocessor.CR)) as [Hnl|Hnl].
    + destruct (decide (b = lineprocessor.CR)) as [Hcr|Hcr].
      * assert (Hlook :
          ((Z.of_nat (S k) <? Z.of_nat (length chunk))
           && bool_decide (nth (Z.to_nat (Z.of_nat (S k))) chunk x00 = lineprocessor.LF))
          = match rest with
            | c :: _ => bool_decide (c = lineprocessor.LF)
            | [] => false
            end).
        { rewrite Nat2Z.id. destruct rest as [|c rest'].
          - assert (length chunk <= S k)%nat.
            { destruct (Nat.le_gt_cases (length chunk) (S k)) as [|Hgt]; [assumption|].
              apply (f_equal length) in Hrest. rewrite length_drop in Hrest.
              simpl in Hrest. lia. }
            destruct (Z.ltb_spec (Z.of_nat (S k)) (Z.of_nat (length chunk))); [lia|].
            reflexivity.
          - destruct (drop_cons_inv _ _ _ _ Hrest) as (Hc & _ & Hlt').
            destruct (Z.ltb_spec (Z.of_nat (S k)) (Z.of_nat (length chunk))); [|lia].
            rewrite (nth_lookup_Some _ _ _ _ Hc). reflexivity. }
        rewrite Hlook.
        destruct (match rest with
                  | c :: _ => bool_decide (c = lineprocessor.LF)
                  | [] => false
                  end).
        -- destruct (IH (S k) ls true count Hrest ltac:(lia) ltac:(lia))
             as (ls' & Hle & Hscan & Hcur).
           rewrite (take_drop_snoc _ _ _ _ Hls Hb) in Hscan, Hcur.
           exists ls'. auto.
        -- destruct (IH (S k) (S k) false
                       (lineprocessor.processLine p (take (k - ls) (drop ls chunk)) count)
                       Hrest ltac:(lia) ltac:(lia))
             as (ls' & Hle & Hscan & Hcur).
           rewrite Hempty in Hscan, Hcur. exists ls'. auto.
      * destruct (IH (S k) (S k) false
                    (lineprocessor.processLine p (take (k - ls) (drop ls chunk)) count)
                    Hrest ltac:(lia) ltac:(lia))
          as (ls' & Hle & Hscan & Hcur).
        rewrite Hempty in Hscan, Hcur. exists ls'. auto.
    + destruct (IH (S k) ls cr count Hrest ltac:(lia) ltac:(lia))
        as (ls' & Hle & Hscan & Hcur).
      rewrite (take_drop_snoc _ _ _ _ Hls Hb) in Hscan, Hcur.
      exists ls'. auto.
Qed.

End LineScanner.

Section LineCounts.
Variable p : lineprocessor.Processor.

Lemma processChunk_scanAcc st chunk :
  lineprocessor.processChunk p st chunk
  = let acc := scanAcc p [] chunk (lineprocessor.carryoverCR st)
                 (lineprocessor.charCount st) in
    if (0 <? length (fst (fst acc)))%nat then
      {| lineprocessor.charCount := snd acc;
         lineprocessor.bytesProcessed :=
           lineprocessor.bytesProcessed st + Z.of_nat (length chunk);
         lineprocessor.inLine := true;
         lineprocessor.carryoverCR := snd (fst acc);
         lineprocessor.contextCheckCounter := lineprocessor.contextCheckCounter st;
         lineprocessor.lineBuffer := lineprocessor.lineBuffer st ++ fst (fst acc) |}
    else
      {| lineprocessor.charCount := snd acc;
         lineprocessor.bytesProcessed :=
           lineprocessor.bytesProcessed st + Z.of_nat (length chunk);
         lineprocessor.inLine := lineprocessor.inLine st;
         lineprocessor.carryoverCR := snd (fst acc);
         lineprocessor.contextCheckCounter := lineprocessor.contextCheckCounter st;
         lineprocessor.lineBuffer := lineprocessor.lineBuffer st |}.
Proof.
  unfold lineprocessor.processChunk.
  destruct (scanChunk_scanAcc p chunk chunk 0 0 (lineprocessor.carryoverCR st)
              (lineprocessor.charCount st) eq_refl ltac:(lia) ltac:(lia))
    as (ls' & Hle & Hscan & Hcur).
  change (take (0 - 0) (drop 0 chunk)) with (@nil byte) in Hscan, Hcur.
  change (Z.of_nat 0) with 0 in Hscan.
  cbv zeta. rewrite Hscan. cbv beta iota. rewrite Hcur, length_drop.
  destruct (Z.ltb_spec (Z.of_nat ls') (Z.of_nat (length chunk))) as [Hlt|Hge];
    destruct (Nat.ltb_spec 0 (length chunk - ls')) as [Hlt'|Hge']; try lia.
  - rewrite slice_nat. rewrite take_ge by (rewrite length_drop; lia). reflexivity.
  - reflexivity.
Qed.

Lemma scanAcc_noCR todo : forall cur cr count,
  ~ In lineprocessor.CR todo ->
  exists first more,
    spec_lines todo = first :: more /\
    scanAcc p cur todo cr count
    = match more with
      | [] => (cur ++ first, cr, count)
      | _ => (List.last more [], false,
              linesFold p ((cur ++ first) :: removelast more) count)
      end.
Proof.
  induction todo as [|b rest IH]; intros cur cr count Hcr.
  - exists [], []. simpl. rewrite app_nil_r. auto.
  - assert (Hb : b <> lineprocessor.CR) by (intros ->; apply Hcr; left; reflexivity).
    assert (Hrest : ~ In lineprocessor.CR rest) by (intros H; apply Hcr; right; exact H).
    simpl. destruct (decide (b = lineprocessor.LF)) as [Hlf|Hlf].
    + destruct (decide (b = lineprocessor.LF \/ b = lineprocessor.CR)); [|tauto].
      destruct (decide (b = lineprocessor.CR)); [tauto|].
      destruct (IH [] false (lineprocessor.processLine p cur count) Hrest)
        as (f & m & Hsp & Hacc).
      exists [], (spec_lines rest). split; [reflexivity|].
      rewrite Hacc, Hsp, app_nil_r. destruct m as [|m1 ms]; reflexivity.
    + destruct (decide (b = lineprocessor.LF \/ b = lineprocessor.CR)); [tauto|].
      destruct (IH (cur ++ [b]) cr count Hrest) as (f & m & Hsp & Hacc).
      rewrite Hsp. exists (b :: f), m. split; [reflexivity|].
      rewrite Hacc, <- app_assoc. reflexivity.
Qed.

Lemma linesFold_app l1 l2 count :
  linesFold p (l1 ++ l2) count = linesFold p l2 (linesFold p l1 count).
Proof. apply fold_left_app. Qed.

Lemma linesFold_sum lines : forall count,
  linesFold p lines count
  = count + fold_right Z.add 0
              (map (fun line => utf8.RuneCount (lineprocessor.normalizer p line))
                   (filter (fun line => line <> []) lines)).
Proof.
  unfold linesFold. induction lines as [|l rest IH]; intros count; simpl.
  - lia.
  - rewrite IH. unfold lineprocessor.processLine.
    destruct l as [|b l'].
    + rewrite filter_cons_False by (intros H; apply H; reflexivity). simpl. lia.
    + rewrite filter_cons_True by discriminate. simpl. lia.
Qed.

Lemma spec_lines_nonempty text : spec_lines text <> [].
Proof.
  destruct text as [|b rest]; simpl; [discriminate|].
  destruct (decide (b = lineprocessor.LF)); [discriminate|].
  destruct (spec_lines rest); discriminate.
Qed.

End LineCounts.

Section SingleChunk.
Variable p : lineprocessor.Processor.

Lemma chunksOf_whole size (text : list byte) :
  text <> [] -> (length text <= size)%nat -> io.chunksOf size text = [text].
Proof.
  intros Hne Hlen. destruct text as [|b rest]; [congruence|].
  rewrite io.chunksOf_equation_2. simpl in Hlen.
  rewrite take_ge, drop_ge by lia. rewrite io.chunksOf_equation_1. reflexivity.
Qed.

Lemma processLinesLoop_data ctx chunk rest reads st :
  lineprocessor.contextCheckCounter st + 1 < 500 -> (0 < length chunk)%nat ->
  lineprocessor.processLinesLoop p ctx ((chunk, None) :: rest) reads st
  = lineprocessor.processLinesLoop p ctx rest (S reads)
      (lineprocessor.processChunk p (tick st) chunk).
Proof.
  intros Hc Hn. simpl. unfold lineprocessor.ContextCheckFrequency.
  destruct (Z.leb_spec 500 (lineprocessor.contextCheckCounter st + 1)); [lia|].
  simpl. destruct (Nat.ltb_spec 0 (length chunk)); [|lia]. reflexivity.
Qed.

Lemma processLinesLoop_end ctx reads st :
  lineprocessor.contextCheckCounter st + 1 < 500 ->
  lineprocessor.processLinesLoop p ctx [] reads st
  = ((lineprocessor.finish p (tick st), lineprocessor.bytesProcessed st, None),
     {| io.script := []; io.reads := S reads |}).
Proof.
  intros Hc. simpl. unfold lineprocessor.ContextCheckFrequency.
  destruct (Z.leb_spec 500 (lineprocessor.contextCheckCounter st + 1)); [lia|].
  reflexivity.
Qed.

Lemma processLine_nil count : lineprocessor.processLine p [] count = count.
Proof. reflexivity. Qed.

Lemma spec_line_count_fold (text : list byte) :
  spec_line_count (lineprocessor.normalizer p) text = linesFold p (spec_lines text) 0.
Proof. rewrite linesFold_sum. unfold spec_line_count. lia. Qed.

Lemma finish_pending (pending : list byte) count bytes cr inl counter :
  lineprocessor.finish p
    (tick (if (0 <? length pending)%nat
           then {| lineprocessor.charCount := count;
                   lineprocessor.bytesProcessed := bytes;
                   lineprocessor.inLine := true;
                   lineprocessor.carryoverCR := cr;
                   lineprocessor.contextCheckCounter := counter;
                   lineprocessor.lineBuffer := [] ++ pending |}
           else {| lineprocessor.charCount := count;
                   lineprocessor.bytesProcessed := bytes;
                   lineprocessor.inLine := inl;
                   lineprocessor.carryoverCR := cr;
                   lineprocessor.contextCheckCounter := counter;
                   lineprocessor.lineBuffer := [] |}))
  = lineprocessor.processLine p pending count.
Proof.
  destruct pending as [|x xs].
  - cbn. unfold lineprocessor.finish. cbn. rewrite andb_false_r. reflexivity.
  - reflexivity.
Qed.

Lemma sequential_single_chunk ctx size (text : list byte) :
  ~ In lineprocessor.CR text -> (length text <= size)%nat ->
  fst (lineprocessor.processLinesOptimized p ctx (io.stringsReader size text))
  = (spec_line_count (lineprocessor.normalizer p) text, Z.of_nat (length text), None).
Proof.
  intros Hcr Hlen. unfold lineprocessor.processLinesOptimized, io.stringsReader.
  destruct text as [|b rest].
  - rewrite io.chunksOf_equation_1. cbn [map io.script io.reads].
    rewrite processLinesLoop_end by (cbn; lia). reflexivity.
  - rewrite chunksOf_whole by (simpl in *; (discriminate || lia)).
    set (text := b :: rest) in *.
    cbn [map io.script io.reads].
    rewrite spec_line_count_fold.
    destruct (scanAcc_noCR p text [] false 0 Hcr) as (f & m & Hsp & Hacc).
    rewrite Hsp.
    rewrite processLinesLoop_data by (cbn; lia).
    rewrite processChunk_scanAcc.
    cbn [tick lineprocessor.initial lineprocessor.carryoverCR lineprocessor.charCount
         lineprocessor.bytesProcessed lineprocessor.inLine
         lineprocessor.contextCheckCounter lineprocessor.lineBuffer].
    rewrite Hacc. cbv zeta.
    rewrite processLinesLoop_end
      by (destruct (0 <? length _)%nat; cbn; lia).
    cbn [fst]. rewrite finish_pending.
    assert (Hbytes : forall (c : bool) (s1 s2 : lineprocessor.state),
      lineprocessor.bytesProcessed s1 = lineprocessor.bytesProcessed s2 ->
      lineprocessor.bytesProcessed (if c then s1 else s2)
      = lineprocessor.bytesProcessed s1).
    { intros [] ? ? H; [reflexivity|symmetry; exact H]. }
    rewrite Hbytes by reflexivity.
    cbn [lineprocessor.bytesProcessed]. rewrite Z.add_0_l.
    f_equal. f_equal.
    destruct m as [|m1 ms].
    + cbn [fst snd app]. reflexivity.
    + cbn [fst snd app].
      rewrite (app_removelast_last (l := m1 :: ms) []) at 3 by discriminate.
      change (f :: removelast (m1 :: ms) ++ [List.last (m1 :: ms) []])
        with ((f :: removelast (m1 :: ms)) ++ [List.last (m1 :: ms) []]).
      rewrite linesFold_app. reflexivity.
Qed.

End SingleChunk.

(** ** The pieces of a text *)

Lemma splitLoop_spec_lines s : forall cur,
  lineprocessor.splitLoop cur s
  = match spec_lines s with
    | f :: m => (cur ++ f) :: m
    | [] => [cur]
    end.
Proof.
  induction s as [|b rest IH]; intros cur; simpl.
  - rewrite app_nil_r. reflexivity.
  - destruct (decide (b = lineprocessor.LF)).
    + rewrite IH. simpl. rewrite app_nil_r.
      destruct (spec_lines rest) as [|f m] eqn:E; [|reflexivity].
      exfalso. exact (spec_lines_nonempty rest E).
    + rewrite IH. destruct (spec_lines rest) as [|f m] eqn:E.
      * exfalso. exact (spec_lines_nonempty rest E).
      * rewrite <- app_assoc. reflexivity.
Qed.

Lemma Split_spec_lines s : lineprocessor.Split s = spec_lines s.
Proof.
  unfold lineprocessor.Split. rewrite splitLoop_spec_lines.
  destruct (spec_lines s) eqn:E; [|reflexivity].
  exfalso. exact (spec_lines_nonempty s E).
Qed.

Lemma spec_lines_single s f : spec_lines s = [f] -> s = f.
Proof.
  revert f. induction s as [|b rest IH]; intros f; simpl.
  - congruence.
  - destruct (decide (b = lineprocessor.LF)).
    + intros H. injection H as _ H. exfalso. exact (spec_lines_nonempty rest H).
    + destruct (spec_lines rest) as [|f' m] eqn:E.
      * exfalso. exact (spec_lines_nonempty rest E).
      * intros H. injection H as <- ->. rewrite (IH f' eq_refl). reflexivity.
Qed.

Lemma last_cons_nonempty {A} (x : A) (l : list A) d :
  l <> [] -> List.last (x :: l) d = List.last l d.
Proof. destruct l; [congruence|reflexivity]. Qed.

Lemma spec_lines_last_suffix s :
  exists pre, s = pre ++ List.last (spec_lines s) [].
Proof.
  induction s as [|b rest [pre IH]]; simpl.
  - exists []. reflexivity.
  - destruct (decide (b = lineprocessor.LF)).
    + rewrite last_cons_nonempty by apply spec_lines_nonempty.
      exists (b :: pre). simpl. rewrite <- IH. reflexivity.
    + destruct (spec_lines rest) as [|f m] eqn:E.
      * exfalso. exact (spec_lines_nonempty rest E).
      * destruct m as [|m1 ms].
        -- exists []. rewrite (spec_lines_single rest f E). reflexivity.
        -- exists (b :: pre). simpl in IH |- *. rewrite <- IH. reflexivity.
Qed.

Lemma spec_lines_last_empty s :
  s <> [] ->
  (List.last (spec_lines s) [] = [] <-> List.last s x00 = lineprocessor.LF).
Proof.
  induction s as [|b rest IH]; [congruence|]. intros _.
  destruct rest as [|c rest'].
  - simpl. destruct (decide (b = lineprocessor.LF)); simpl; split; congruence.
  - specialize (IH ltac:(discriminate)).
    rewrite (last_cons_nonempty b (c :: rest')) by discriminate.
    change (spec_lines (b :: c :: rest'))
      with (if decide (b = lineprocessor.LF) then [] :: spec_lines (c :: rest')
            else match spec_lines (c :: rest') with
                 | line :: more => (b :: line) :: more
                 | [] => [[b]]
                 end).
    destruct (decide (b = lineprocessor.LF)).
    + rewrite last_cons_nonempty by apply spec_lines_nonempty. exact IH.
    + destruct (spec_lines (c :: rest')) as [|f m] eqn:E.
      * exfalso. exact (spec_lines_nonempty _ E).
      * destruct m as [|m1 ms].
        -- pose proof (spec_lines_single _ _ E) as <-. simpl in IH.
           split; [discriminate|]. intros H. apply IH in H. discriminate.
        -- exact IH.
Qed.

Lemma nth_last_byte (l : list byte) d : nth (length l - 1) l d = List.last l d.
Proof.
  induction l as [|x l IH]; [reflexivity|].
  destruct l as [|y l']; [reflexivity|].
  change (List.last (x :: y :: l') d) with (List.last (y :: l') d). rewrite <- IH.
  replace (length (x :: y :: l') - 1)%nat with (S (length (y :: l') - 1))
    by (simpl; lia).
  reflexivity.
Qed.

Lemma fold_left_add_sum (l : list Z) : forall a,
  fold_left Z.add l a = a + fold_right Z.add 0 l.
Proof.
  induction l as [|x l IH]; intros a; simpl; [lia|]. rewrite IH. lia.
Qed.

Lemma fold_left_add_perm (l l' : list Z) :
  Permutation l' l -> fold_left Z.add l' 0 = fold_right Z.add 0 l.
Proof.
  intros Hp. rewrite fold_left_add_sum.
  induction Hp; simpl in *; lia.
Qed.

Section ParallelSingleChunk.
Variable p : lineprocessor.Processor.

Lemma chunkLines_fresh buf (text : list byte) :
  lineprocessor.chunkLines buf (lineprocessor.Owned []) text
  = if bool_decide (List.last text x00 <> lineprocessor.LF) then
      (filter (fun line => (0 < length line)%nat) (removelast (spec_lines text)),
       lineprocessor.View (length text - length (List.last (spec_lines text) []))
                          (length (List.last (spec_lines text) [])),
       false)
    else
      (filter (fun line => (0 < length line)%nat) (spec_lines text),
       lineprocessor.Owned [], false).
Proof.
  unfold lineprocessor.chunkLines. cbn [lineprocessor.partialLen length].
  change (0 <? 0)%nat with false. cbv iota.
  rewrite Split_spec_lines, nth_last_byte.
  destruct (bool_decide (List.last text x00 <> lineprocessor.LF)); reflexivity.
Qed.

Lemma filter_nonempty_length (lines : list (list byte)) :
  filter (fun line => (0 < length line)%nat) lines
  = filter (fun line => line <> []) lines.
Proof.
  apply list_filter_iff. intros [|x l]; simpl; split; intros H; try lia; try congruence.
Qed.

Lemma view_suffix (text l junk : list byte) :
  (exists pre, text = pre ++ l) ->
  take (length l) (drop (length text - length l) (text ++ junk)) = l.
Proof.
  intros [pre ->]. rewrite length_app.
  replace (length pre + length l - length l)%nat with (length pre) by lia.
  rewrite <- app_assoc, drop_app_length, take_app_length. reflexivity.
Qed.

Lemma produceLines_single ctx reads buf (text : list byte) :
  context.Done ctx = false -> text <> [] ->
  exists jobs r,
    lineprocessor.produceLines ctx [(text, None)] reads buf (lineprocessor.Owned []) 0
    = (jobs, None, Z.of_nat (length text), r)
    /\ jobs = filter (fun line => line <> []) (spec_lines text).
Proof.
  intros Hdone Hne. cbn [lineprocessor.produceLines]. rewrite Hdone.
  destruct (Nat.ltb_spec 0 (length text)) as [_|Hz];
    [|destruct text; [congruence|simpl in Hz; lia]].
  rewrite chunkLines_fresh.
  destruct (bool_decide (List.last text x00 <> lineprocessor.LF)) eqn:Hlast.
  - apply bool_decide_eq_true in Hlast.
    assert (Hnonempty : List.last (spec_lines text) [] <> []).
    { intros H. apply Hlast. apply spec_lines_last_empty; assumption. }
    pose proof (view_suffix text (List.last (spec_lines text) [])
                  (drop (length text) buf) (spec_lines_last_suffix text)) as Hview.
    cbn [lineprocessor.partialLen lineprocessor.contents].
    destruct (Nat.ltb_spec 0 (length (List.last (spec_lines text) []))) as [_|Hz];
      [|destruct (List.last (spec_lines text) []); [congruence|simpl in Hz; lia]].
    eexists _, _. split; [reflexivity|].
    rewrite Hview, filter_nonempty_length.
    assert (E : filter (fun line : list byte => line <> []) (spec_lines text)
                = filter (fun line : list byte => line <> [])
                    (removelast (spec_lines text) ++ [List.last (spec_lines text) []])).
    { rewrite <- app_removelast_last by apply spec_lines_nonempty. reflexivity. }
    rewrite E, filter_app.
    rewrite (filter_cons_True _ (List.last (spec_lines text) []) [])
      by exact Hnonempty.
    reflexivity.
  - cbn [lineprocessor.partialLen length]. change (0 <? 0)%nat with false. cbv iota.
    eexists _, _. split; [reflexivity|].
    rewrite !app_nil_r. apply filter_nonempty_length.
Qed.

Lemma parallel_single_chunk ctx size arrival (text : list byte) :
  context.Done ctx = false -> (forall l, Permutation (arrival l) l) ->
  (length text <= size)%nat ->
  fst (lineprocessor.processLinesParallel p ctx (io.stringsReader size text) arrival)
  = (spec_line_count (lineprocessor.normalizer p) text, Z.of_nat (length text), None).
Proof.
  intros Hdone Hperm Hlen.
  unfold lineprocessor.processLinesParallel, io.stringsReader.
  destruct text as [|b rest].
  - rewrite io.chunksOf_equation_1. cbn [map io.script io.reads lineprocessor.produceLines].
    rewrite Hdone. cbn. rewrite (fold_left_add_perm [] (arrival [])) by apply Hperm.
    reflexivity.
  - rewrite chunksOf_whole by (simpl in *; (discriminate || lia)).
    set (text := b :: rest) in *. cbn [map io.script io.reads].
    destruct (produceLines_single ctx 0
                (repeat x00 (Z.to_nat (lineprocessor.chunkSize p))) text Hdone
                ltac:(discriminate)) as (jobs & r & Hprod & Hjobs).
    rewrite Hprod, Hdone. cbn [fst].
    rewrite (fold_left_add_perm (map (lineprocessor.lineWorker p) jobs)) by apply Hperm.
    rewrite Hjobs. reflexivity.
Qed.

End ParallelSingleChunk.

Lemma spec_lines_app_LF pre post :
  spec_lines (pre ++ lineprocessor.LF :: post) = spec_lines pre ++ spec_lines post.
Proof.
  induction pre as [|b rest IH]; simpl.
  - destruct (decide (lineprocessor.LF = lineprocessor.LF)); [reflexivity|congruence].
  - rewrite IH. destruct (decide (b = lineprocessor.LF)); [reflexivity|].
    destruct (spec_lines rest) as [|f m] eqn:E; [|reflexivity].
    exfalso. exact (spec_lines_nonempty rest E).
Qed.

Lemma spec_lines_repeat_LF k post :
  spec_lines (repeat lineprocessor.LF k ++ post) = repeat [] k ++ spec_lines post.
Proof.
  induction k as [|k IH]; [reflexivity|]. simpl.
  destruct (decide (lineprocessor.LF = lineprocessor.LF)); [|congruence].
  rewrite IH. reflexivity.
Qed.

Lemma filter_repeat_nil k (rest : list (list byte)) :
  filter (fun line : list byte => line <> []) (repeat [] k ++ rest)
  = filter (fun line : list byte => line <> []) rest.
Proof.
  induction k as [|k IH]; [reflexivity|]. simpl.
  rewrite filter_cons_False by (intros H; apply H; reflexivity). exact IH.
Qed.

Lemma repeat_snoc_LF k :
  repeat lineprocessor.LF k ++ [lineprocessor.LF]
  = lineprocessor.LF :: repeat lineprocessor.LF k.
Proof. induction k as [|k IH]; [reflexivity|]. simpl. rewrite IH. reflexivity. Qed.

(** Extra LF bytes at a line boundary add only empty lines. *)
Lemma spec_line_count_insert norm pre post k :
  lineBoundary pre post ->
  spec_line_count norm (pre ++ repeat lineprocessor.LF k ++ post)
  = spec_line_count norm (pre ++ post).
Proof.
  unfold spec_line_count.
  intros [-> | [-> | [[pre' ->] | [post' ->]]]].
  - simpl. rewrite spec_lines_repeat_LF, filter_repeat_nil. reflexivity.
  - rewrite !app_nil_r. destruct k as [|k]; [rewrite app_nil_r; reflexivity|].
    pose proof (spec_lines_repeat_LF k []) as E. rewrite app_nil_r in E.
    change (repeat lineprocessor.LF (S k))
      with (lineprocessor.LF :: repeat lineprocessor.LF k).
    rewrite spec_lines_app_LF, E, filter_app, filter_repeat_nil.
    change (spec_lines []) with [@nil byte].
    rewrite filter_cons_False by (intros H; apply H; reflexivity).
    rewrite filter_nil, app_nil_r. reflexivity.
  - rewrite <- !app_assoc. simpl. rewrite !spec_lines_app_LF, spec_lines_repeat_LF.
    rewrite (filter_app _ (spec_lines pre')), filter_repeat_nil, <- filter_app.
    reflexivity.
  - replace (pre ++ repeat lineprocessor.LF k ++ lineprocessor.LF :: post')
      with (pre ++ lineprocessor.LF :: (repeat lineprocessor.LF k ++ post')).
    + rewrite !spec_lines_app_LF, spec_lines_repeat_LF.
      rewrite (filter_app _ (spec_lines pre)), filter_repeat_nil, <- filter_app.
      reflexivity.
    + f_equal. change (lineprocessor.LF :: post') with ([lineprocessor.LF] ++ post').
      rewrite app_assoc, repeat_snoc_LF. reflexivity.
Qed.

Lemma ProcessLines_single_chunk p arrival size (text : list byte) :
  (forall l, Permutation (arrival l) l) ->
  ~ In lineprocessor.CR text -> (length text <= size)%nat ->
  fst (lineprocessor.ProcessLines p context.Background (io.stringsReader size text) arrival)
  = (spec_line_count (lineprocessor.normalizer p) text, Z.of_nat (length text), None).
Proof.
  intros Hperm Hcr Hlen. unfold lineprocessor.ProcessLines.
  destruct (lineprocessor.useParallel p).
  - apply parallel_single_chunk; [reflexivity|assumption|assumption].
  - apply sequential_single_chunk; assumption.
Qed.

(** C10 (as the code has it).  [processLine] adds nothing for a line of
    length zero.  For an input without CR bytes that is read in one chunk,
    the count [ProcessLines] returns, on the sequential path and with the
    worker pool alike, is the sum of the normalized rune counts of the
    non-empty LF-separated lines; so inserting LF bytes at the start or end
    of such an input, or next to an LF it already has, never changes the
    count. *)
Theorem C10_empty_lines_add_nothing (p : lineprocessor.Processor)
  (arrival : list Z -> list Z) (size k : nat) (pre post : list byte) (count : Z) :
  (forall l, Permutation (arrival l) l) ->
  ~ In lineprocessor.CR pre -> ~ In lineprocessor.CR post ->
  (length pre + k + length post <= size)%nat ->
  lineBoundary pre post ->
  lineprocessor.processLine p [] count = count
  /\ fst (fst (fst (lineprocessor.ProcessLines p context.Background
                      (io.stringsReader size (pre ++ post)) arrival)))
     = spec_line_count (lineprocessor.normalizer p) (pre ++ post)
  /\ fst (fst (fst (lineprocessor.ProcessLines p context.Background
                      (io.stringsReader size (pre ++ repeat lineprocessor.LF k ++ post))
                      arrival)))
     = fst (fst (fst (lineprocessor.ProcessLines p context.Background
                        (io.stringsReader size (pre ++ post)) arrival))).
Proof.
  intros Hperm Hpre Hpost Hlen Hb.
  assert (Hcr1 : ~ In lineprocessor.CR (pre ++ post)).
  { rewrite in_app_iff. tauto. }
  assert (Hcr2 : ~ In lineprocessor.CR (pre ++ repeat lineprocessor.LF k ++ post)).
  { rewrite !in_app_iff. intros [H | [H | H]]; [tauto| |tauto].
    apply repeat_spec in H. discriminate. }
  split; [reflexivity|].
  rewrite !ProcessLines_single_chunk;
    try assumption; try (rewrite ?length_app, ?repeat_length; lia).
  split; [reflexivity|]. cbn [fst]. apply spec_line_count_insert. assumption.
Qed.

Lemma C10_witness :
  lineprocessor.processLine (lineProcessor efficientNormalizer 64 false) [] 7 = 7
  /\ fst (fst (fst (lineprocessor.ProcessLines (lineProcessor efficientNormalizer 64 false)
                      context.Background
                      (io.stringsReader 64
                         ((bytes "Hello, World" ++ [lineprocessor.LF]) ++ bytes "x,,y"))
                      id)))
     = spec_line_count efficientNormalizer
         ((bytes "Hello, World" ++ [lineprocessor.LF]) ++ bytes "x,,y")
  /\ fst (fst (fst (lineprocessor.ProcessLines (lineProcessor efficientNormalizer 64 false)
                      context.Background
                      (io.stringsReader 64
                         ((bytes "Hello, World" ++ [lineprocessor.LF])
                          ++ repeat lineprocessor.LF 3 ++ bytes "x,,y"))
                      id)))
     = fst (fst (fst (lineprocessor.ProcessLines
                        (lineProcessor efficientNormalizer 64 false)
                        context.Background
                        (io.stringsReader 64
                           ((bytes "Hello, World" ++ [lineprocessor.LF]) ++ bytes "x,,y"))
                        id))).
Proof.
  apply (C10_empty_lines_add_nothing (lineProcessor efficientNormalizer 64 false) id
           64 3 (bytes "Hello, World" ++ [lineprocessor.LF]) (bytes "x,,y") 7).
  - intros l. reflexivity.
  - vm_compute. intuition discriminate.
  - vm_compute. intuition discriminate.
  - vm_compute. lia.
  - right. right. left. exists (bytes "Hello, World"). reflexivity.
Defined.

(** C10, the claim as stated fails: an LF inserted between two commas
    splits the line, and the two halves are normalized apart: the count goes
    from 1 to 2. *)
Lemma C10_counterexample :
  lineCount efficientNormalizer 64 false (bytes ",,") = (1, 2, None)
  /\ lineCount efficientNormalizer 64 false
       (bytes "," ++ [lineprocessor.LF] ++ bytes ",") = (2, 3, None).
Proof. split; vm_compute; reflexivity. Qed.

(* ===================================================================== *)
(** * Part III.  Further properties                                       *)
(* ===================================================================== *)

(** ** The decoder and the encoder of the normalizer *)

(** X1.  On a text that is not empty the repository's decoder returns a
    width of at least one byte, of at most four bytes and of no more than
    the bytes there are, and a rune below 2^21: the loops that advance by
    the width make progress and never read past the end.  On the empty
    text it returns rune 0 and width 0. *)
Theorem X1_decodeRune_bounds (c : byte) (rest : list byte) :
  (1 <= snd (normalizer.decodeRune (c :: rest)) <= length (c :: rest))%nat
  /\ (snd (normalizer.decodeRune (c :: rest)) <= 4)%nat
  /\ 0 <= fst (normalizer.decodeRune (c :: rest)) < 2097152
  /\ normalizer.decodeRune [] = (0, 0%nat).
Proof.
  split; [apply decodeRune_width; discriminate|].
  split; [|split; [apply decodeRune_range|reflexivity]].
  pose proof (bz_range c) as Hc.
  destruct (Z.lt_ge_cases (bz c) 128).
  { rewrite decodeRune_ascii by lia. simpl. lia. }
  destruct (Z.lt_ge_cases (bz c) 192).
  { rewrite decodeRune_stray by lia. simpl. lia. }
  destruct (Z.lt_ge_cases 247 (bz c)).
  { rewrite decodeRune_stray by lia. simpl. lia. }
  destruct (contPrefix (need c) rest) eqn:Hp.
  - rewrite (proj1 (decodeRune_full c rest [] ltac:(lia) Hp)).
    destruct (need_cases c) as [E|[E|E]]; rewrite E; lia.
  - rewrite decodeRune_short by (assumption || lia). simpl. lia.
Qed.

(** X2.  Decoding what [normalizeUnicode] encodes gives the rune back: for
    a rune below 2^21 the bytes written, followed by any text, decode to
    that rune with the width written, and that width is [RuneLen]. *)
Theorem X2_encode_decode_round_trip (l : Z) (tail : list byte) :
  0 <= l < 2097152 ->
  normalizer.decodeRune (normalizer.encodeLower l ++ tail)
  = (l, length (normalizer.encodeLower l))
  /\ Z.of_nat (length (normalizer.encodeLower l)) = wordprocessor.RuneLen l.
Proof.
  intros Hl. split.
  - destruct (Z.lt_ge_cases l 128).
    + destruct (encodeLower_ascii l ltac:(lia)) as [-> Hbz]. cbn [app length].
      rewrite decodeRune_ascii by lia. rewrite Hbz. reflexivity.
    + apply decodeRune_encodeLower. lia.
  - unfold normalizer.encodeLower, wordprocessor.RuneLen.
    destruct (l <? 128); [reflexivity|].
    destruct (l <? 2048); [reflexivity|].
    destruct (l <? 65536); reflexivity.
Qed.

Lemma X2_witness :
  0 <= 233 < 2097152
  /\ normalizer.decodeRune (normalizer.encodeLower 233 ++ bytes "x")
     = (233, length (normalizer.encodeLower 233))
  /\ Z.of_nat (length (normalizer.encodeLower 233)) = wordprocessor.RuneLen 233.
Proof.
  split; [lia|]. apply (X2_encode_decode_round_trip 233 (bytes "x")). lia.
Defined.

(** X3.  On a sequence that Go's [utf8.DecodeRune] accepts as a multi-byte
    rune, and on an ASCII byte, the repository's decoder returns the same
    rune and the same width. *)
Theorem X3_decodeRune_agrees_with_utf8 (p : list byte) :
  (2 <= snd (utf8.DecodeRune p))%nat \/ (exists b rest, p = b :: rest /\ bz b < 128) ->
  normalizer.decodeRune p = utf8.DecodeRune p.
Proof.
  intros [Hsize|(b & rest & -> & Hb)].
  2:{ rewrite decodeRune_ascii, DecodeRune_ascii by assumption. reflexivity. }
  revert Hsize.
  destruct p as [|b0 [|b1 [|b2 [|b3 rest]]]];
    try pose proof (bz_range b0); try pose proof (bz_range b1);
    try pose proof (bz_range b2); try pose proof (bz_range b3);
    unfold utf8.DecodeRune; cbv zeta; split_tests; cbn [snd]; try lia; intros _.
  all: rewrite decodeRune_lead by lia; unfold need.
  all: repeat match goal with
       | |- context [Z.ltb ?a ?b] => destruct (Z.ltb_spec a b); try lia
       end.
  all: repeat match goal with
       | |- context [isCont ?c] => rewrite (proj2 (isCont_true c)) by lia
       end; reflexivity.
Qed.

Lemma X3_witness :
  ((2 <= snd (utf8.DecodeRune [xe2; x82; xac; x21]))%nat
   \/ exists b rest, [xe2; x82; xac; x21] = b :: rest /\ bz b < 128)
  /\ normalizer.decodeRune [xe2; x82; xac; x21] = utf8.DecodeRune [xe2; x82; xac; x21]
  /\ utf8.DecodeRune [xe2; x82; xac; x21] = (8364, 3%nat).
Proof.
  assert (H : (2 <= snd (utf8.DecodeRune [xe2; x82; xac; x21]))%nat
              \/ exists b rest, [xe2; x82; xac; x21] = b :: rest /\ bz b < 128)
    by (left; vm_compute; lia).
  split; [exact H|]. split; [|vm_compute; reflexivity].
  exact (X3_decodeRune_agrees_with_utf8 [xe2; x82; xac; x21] H).
Defined.

(** ** What the normalizers keep and what they never write *)

Lemma RuneCount_runesString rs :
  Forall scalar rs -> utf8.RuneCount (utf8.runesString rs) = Z.of_nat (length rs).
Proof.
  intros Hs. unfold utf8.RuneCount. rewrite stringRunes_runesString by assumption.
  reflexivity.
Qed.

Lemma RuneCount_runes (h : Z -> Z) (N : list byte -> list byte) x :
  (forall x, N x = utf8.runesString (map h (utf8.stringRunes x))) ->
  (forall r, scalar r -> scalar (h r) /\ h (h r) = h r) ->
  utf8.RuneCount (N x) = utf8.RuneCount x.
Proof.
  intros HN Hh. rewrite HN.
  pose proof (stringRunes_scalar (S (length x)) x ltac:(lia)) as Hs.
  rewrite RuneCount_runesString.
  - rewrite length_map. reflexivity.
  - apply List.Forall_map. eapply List.Forall_impl; [|exact Hs]. intros r Hr.
    apply Hh. assumption.
Qed.

(** X4.  The normalizers that write one rune for every rune they read (the
    default normalizer, the rune-buffer optimized normalizer and the fast
    normalizer) keep the number of runes of every text, valid UTF-8 or
    not: a count taken after normalization is the count of the text. *)
Theorem X4_rune_count_preserved {T : unicode.Tables} (x : list byte) :
  CaseTables T ->
  utf8.RuneCount (normalizer.DefaultNormalize x) = utf8.RuneCount x
  /\ utf8.RuneCount (normalizer.OptimizedNormalizeRunes x) = utf8.RuneCount x
  /\ utf8.RuneCount (normalizer.FastNormalize x) = utf8.RuneCount x.
Proof.
  intros HT. repeat split.
  - apply (RuneCount_runes defaultRune);
      [apply (DefaultNormalize_runes HT)|apply (defaultRune_twice HT)].
  - apply (RuneCount_runes optimizedRunesRune);
      [apply OptimizedNormalizeRunes_runes|apply (optimizedRunesRune_twice HT)].
  - apply (RuneCount_runes fastRune);
      [apply FastNormalize_runes|apply (fastRune_twice HT)].
Qed.

Lemma X4_witness :
  CaseTables unicode.latin1
  /\ utf8.RuneCount (defaultNormalizer mixedText) = utf8.RuneCount mixedText
  /\ utf8.RuneCount (normalizer.OptimizedNormalizeRunes (T := unicode.latin1) mixedText)
     = utf8.RuneCount mixedText
  /\ utf8.RuneCount (normalizer.FastNormalize (T := unicode.latin1) mixedText)
     = utf8.RuneCount mixedText.
Proof.
  split; [exact latin1_tables|].
  exact (X4_rune_count_preserved (T := unicode.latin1) mixedText latin1_tables).
Defined.

Section AsciiAgreement.
Context {T : unicode.Tables}.

Lemma DefaultNormalize_ascii x :
  Forall (fun b => bz b < 128) x ->
  normalizer.DefaultNormalize x
  = utf8.runesString (map defaultRune (map bz x)).
Proof.
  intros Ha. unfold normalizer.DefaultNormalize. cbv zeta. rewrite fold_left_write.
  unfold strings.ToLower, utf8.RuneSelf.
  assert (Hf : forallb (fun c => bz c <? 128) x = true).
  { clear -Ha. induction Ha as [|c rest Hc _ IH]; [reflexivity|].
    simpl. rewrite IH. destruct (Z.ltb_spec (bz c) 128); [reflexivity|lia]. }
  rewrite Hf. rewrite stringRunes_ascii.
  - rewrite !map_map. cbn [app]. f_equal. apply map_ext_in. intros c Hc.
    rewrite List.Forall_forall in Ha. specialize (Ha c Hc). pose proof (bz_range c).
    assert (E : bz (if unicode.asciiUpper (bz c) then byte_of_Z (bz c + 32) else c)
                = unicode.ToLower (bz c)).
    { unfold unicode.ToLower, unicode.MaxASCII.
      destruct (Z.leb_spec (bz c) 127); [|lia].
      destruct (unicode.asciiUpper (bz c)) eqn:Hu; [|reflexivity].
      unfold unicode.asciiUpper in Hu.
      rewrite bz_byte_of_Z, Z.mod_small by lia. reflexivity. }
    rewrite E. reflexivity.
  - clear Hf. induction Ha as [|c rest Hc _ IH]; constructor; [|exact IH].
    pose proof (bz_range c).
    destruct (unicode.asciiUpper (bz c)) eqn:Hu; [|assumption].
    unfold unicode.asciiUpper in Hu. rewrite bz_byte_of_Z, Z.mod_small by lia. lia.
Qed.

Lemma ascii_runes_agree r :
  0 <= r < 128 ->
  defaultRune r = fastRune r /\ defaultRune r = optimizedRunesRune r.
Proof.
  intros Hr. unfold defaultRune, fastRune, optimizedRunesRune, unicode.IsPunct,
    unicode.ToLower, unicode.MaxASCII, unicode.asciiUpper, unicode.asciiPunct, existsb.
  split; split_ifs; lia.
Qed.

End AsciiAgreement.

(** X5.  On a text of ASCII bytes the default normalizer, the fast
    normalizer and the rune-buffer optimized normalizer return the same
    bytes. *)
Theorem X5_rune_normalizers_agree_on_ascii {T : unicode.Tables} (x : list byte) :
  Forall (fun b => bz b < 128) x ->
  normalizer.FastNormalize x = normalizer.DefaultNormalize x
  /\ normalizer.OptimizedNormalizeRunes x = normalizer.DefaultNormalize x.
Proof.
  intros Ha.
  rewrite FastNormalize_runes, OptimizedNormalizeRunes_runes, DefaultNormalize_ascii
    by assumption.
  rewrite stringRunes_ascii by assumption.
  split; f_equal; apply map_ext_in; intros r Hr;
    apply in_map_iff in Hr as (c & <- & Hc);
    rewrite List.Forall_forall in Ha; specialize (Ha c Hc); pose proof (bz_range c);
    symmetry; apply ascii_runes_agree; lia.
Qed.

Lemma X5_witness :
  Forall (fun b => bz b < 128) (bytes "Hello, World!!  It's 9 o'clock.")
  /\ normalizer.FastNormalize (T := unicode.latin1)
       (bytes "Hello, World!!  It's 9 o'clock.")
     = normalizer.DefaultNormalize (T := unicode.latin1)
         (bytes "Hello, World!!  It's 9 o'clock.")
  /\ normalizer.OptimizedNormalizeRunes (T := unicode.latin1)
       (bytes "Hello, World!!  It's 9 o'clock.")
     = normalizer.DefaultNormalize (T := unicode.latin1)
         (bytes "Hello, World!!  It's 9 o'clock.").
Proof.
  assert (H : Forall (fun b => bz b < 128) (bytes "Hello, World!!  It's 9 o'clock."))
    by (repeat constructor).
  split; [exact H|].
  exact (X5_rune_normalizers_agree_on_ascii (T := unicode.latin1) _ H).
Defined.

Lemma high_clean b :
  128 <= bz b ->
  unicode.asciiPunct (bz b) = false /\ unicode.asciiUpper (bz b) = false.
Proof. unfold unicode.asciiPunct, unicode.asciiUpper, existsb. lia. Qed.

Lemma isCont_high c : isCont c = true -> 128 <= bz c.
Proof. intros H. apply isCont_true in H. lia. Qed.

Lemma contPrefix_high n : forall rest,
  contPrefix n rest = true -> Forall (fun b => 128 <= bz b) (firstn n rest).
Proof.
  induction n as [|n IH]; intros [|c rest] H; cbn [firstn]; try constructor;
    simpl in H; try discriminate; apply andb_true_iff in H as [Hc Hrest].
  - apply isCont_high. assumption.
  - apply IH. assumption.
Qed.

(** The bytes of a multi-byte token are all above ASCII. *)
Lemma token_high b rest :
  128 <= bz b ->
  Forall (fun c => 128 <= bz c)
         (firstn (snd (normalizer.decodeRune (b :: rest))) (b :: rest)).
Proof.
  intros Hb. pose proof (bz_range b) as Hr.
  assert (Hone : Forall (fun c => 128 <= bz c) (firstn 1 (b :: rest)))
    by (repeat constructor; assumption).
  destruct (Z.lt_ge_cases (bz b) 192).
  { rewrite decodeRune_stray by lia. exact Hone. }
  destruct (Z.lt_ge_cases 247 (bz b)).
  { rewrite decodeRune_stray by lia. exact Hone. }
  destruct (contPrefix (need b) rest) eqn:Hp.
  - rewrite (proj1 (decodeRune_full b rest [] ltac:(lia) Hp)). cbn [firstn].
    constructor; [assumption|]. apply contPrefix_high. assumption.
  - rewrite decodeRune_short by (assumption || lia). exact Hone.
Qed.

Lemma encodeLower_high l :
  128 <= l < 2097152 -> Forall (fun b => 128 <= bz b) (normalizer.encodeLower l).
Proof.
  intros Hl. unfold normalizer.encodeLower.
  destruct (Z.ltb_spec l 128); [lia|].
  destruct (Z.ltb_spec l 2048); [|destruct (Z.ltb_spec l 65536)];
    repeat constructor; rewrite ?lead2_byte, ?lead3_byte, ?lead4_byte, ?cont_byte by lia;
    divmod.
Qed.

Lemma EncodeRune_high c :
  scalar c -> 128 <= c -> Forall (fun b => 128 <= bz b) (utf8.EncodeRune c).
Proof.
  intros Hs Hc. rewrite EncodeRune_scalar by assumption.
  unfold scalar, unicode.MaxRune in Hs.
  destruct (Z.ltb_spec c 128); [lia|].
  destruct (Z.ltb_spec c 2048); [|destruct (Z.ltb_spec c 65536)];
    repeat constructor; rewrite ?lead2_byte, ?lead3_byte, ?lead4_byte, ?cont_byte by lia;
    divmod.
Qed.

Section CleanOutput.
Context {T : unicode.Tables}.
Hypothesis HT : CaseTables T.

Lemma plain_clean c : plain c -> cleanByte c.
Proof. intros (_ & Hp & Hu). split; assumption. Qed.

Lemma high_all_clean y : Forall (fun b => 128 <= bz b) y -> Forall cleanByte y.
Proof. intros H. eapply List.Forall_impl; [|exact H]. intros b. apply high_clean. Qed.

Lemma encodeLower_clean l :
  0 <= l < 2097152 -> unicode.IsPunct l = false ->
  (unicode.IsUpper l = true -> unicode.ToLower l = l) ->
  Forall cleanByte (normalizer.encodeLower l).
Proof.
  intros Hl Hp Hu. destruct (Z.lt_ge_cases l 128) as [Hlt|Hge].
  - destruct (encodeLower_ascii l ltac:(lia)) as [-> Hbz].
    constructor; [|constructor]. unfold cleanByte. rewrite Hbz.
    unfold unicode.IsPunct, unicode.IsUpper, unicode.ToLower, unicode.MaxASCII in *.
    destruct (Z.leb_spec l 127); [|lia]. split; [assumption|].
    destruct (unicode.asciiUpper l); [|reflexivity]. specialize (Hu eq_refl). lia.
  - apply high_all_clean, encodeLower_high. lia.
Qed.

(** The loop of [normalizeUnicode] writes no ASCII punctuation and no ASCII
    upper-case letter. *)
Lemma clean_out n : forall s, (length s < n)%nat -> forall lws,
  Forall cleanByte (normalizer.normalizeUnicodeLoop s [] lws).
Proof.
  induction n as [|n IH]; intros s Hn lws; [lia|].
  destruct s as [|b rest]; [rewrite out_nil; constructor|].
  simpl in Hn. destruct (Z.lt_ge_cases (bz b) 128) as [Hlt|Hge].
  { rewrite out_ascii by assumption.
    destruct (asciiStep_piece b lws Hlt) as [[_ ->]|(c & -> & Hc)]; cbn [app].
    - apply IH. lia.
    - constructor; [apply plain_clean; assumption|]. apply IH. lia. }
  rewrite out_multi by assumption.
  assert (Hnext : (length (skipn (snd (normalizer.decodeRune (b :: rest)) - 1) rest)
                   < n)%nat) by (rewrite length_skipn; lia).
  pose proof (decodeRune_range (b :: rest)) as Hr.
  pose proof (token_high b rest Hge) as Htok.
  unfold normalizer.unicodeStep.
  destruct (normalizer.decodeRune (b :: rest)) as [r size] eqn:Hdec.
  cbn [fst snd] in *.
  destruct (unicode.IsPunct r || unicode.IsSpace r) eqn:Hps.
  { destruct lws; cbn [negb fst snd app].
    - apply IH. assumption.
    - constructor; [apply plain_clean, plain_SP|]. apply IH. assumption. }
  destruct (unicode.IsUpper r) eqn:Hup; cbn [fst snd app].
  - destruct (lower_plain _ HT r Hr Hup) as (Hl & Hlp & Hls & Hlu).
    apply Forall_app. split; [apply encodeLower_clean; assumption|].
    apply IH. assumption.
  - apply Forall_app. split; [apply high_all_clean; assumption|].
    apply IH. assumption.
Qed.

Lemma EncodeRune_clean c : cleanRune c -> Forall cleanByte (utf8.EncodeRune c).
Proof.
  intros (Hs & Hp & Hu). destruct (Z.lt_ge_cases c 128) as [Hlt|Hge].
  - pose proof Hs as [Hc _]. rewrite EncodeRune_ascii by lia.
    constructor; [|constructor]. unfold cleanByte.
    rewrite bz_byte_of_Z, Z.mod_small by lia. split; assumption.
  - apply high_all_clean, EncodeRune_high; assumption.
Qed.

Lemma runesString_clean rs : Forall cleanRune rs -> Forall cleanByte (utf8.runesString rs).
Proof.
  unfold utf8.runesString. induction 1 as [|c rs Hc _ IH]; cbn [flat_map]; [constructor|].
  apply Forall_app. split; [apply EncodeRune_clean; assumption|exact IH].
Qed.

Lemma cleanRune_32 : cleanRune 32.
Proof. split; [apply scalar_32|split; reflexivity]. Qed.

Lemma cleanRune_lower r :
  scalar r -> unicode.IsPunct (unicode.ToLower r) = false ->
  cleanRune (unicode.ToLower r).
Proof.
  intros Hr Hp. pose proof (lower_scalar _ HT r Hr) as Hl.
  split; [assumption|].
  destruct (Z.lt_ge_cases (unicode.ToLower r) 128) as [Hlt|Hge].
  - split; [|apply (lower_not_asciiUpper HT); assumption].
    unfold unicode.IsPunct, unicode.MaxASCII in Hp.
    destruct (Z.leb_spec (unicode.ToLower r) 127); [assumption|lia].
  - unfold unicode.asciiPunct, unicode.asciiUpper, existsb. lia.
Qed.

Lemma runes_clean (h : Z -> Z) x :
  (forall r, scalar r -> cleanRune (h r)) ->
  Forall cleanByte (utf8.runesString (map h (utf8.stringRunes x))).
Proof.
  intros Hh. apply runesString_clean, List.Forall_map.
  eapply List.Forall_impl; [|apply (stringRunes_scalar (S (length x))); lia].
  exact Hh.
Qed.

Lemma defaultRune_clean r : scalar r -> cleanRune (defaultRune r).
Proof.
  intros Hr. unfold defaultRune.
  destruct (unicode.IsPunct (unicode.ToLower r)) eqn:Hp;
    [apply cleanRune_32|apply cleanRune_lower; assumption].
Qed.

Lemma optimizedRunesRune_clean r : scalar r -> cleanRune (optimizedRunesRune r).
Proof.
  intros Hr. unfold optimizedRunesRune.
  destruct (unicode.IsPunct r) eqn:Hp; [apply cleanRune_32|].
  apply cleanRune_lower; [assumption|]. apply (lower_punct _ HT); assumption.
Qed.

Lemma fastRune_clean r : scalar r -> cleanRune (fastRune r).
Proof.
  intros Hr. pose proof Hr as [Hr0 _]. unfold unicode.MaxRune in Hr0.
  unfold fastRune. destruct (Z.ltb_spec r 128) as [Hlt|Hge].
  - destruct (unicode.asciiPunct r) eqn:Hp; [apply cleanRune_32|].
    destruct (unicode.asciiUpper r) eqn:Hu.
    + destruct (asciiPunct_lowered r Hu) as (Hp' & Hu' & _).
      unfold unicode.asciiUpper in Hu.
      split; [unfold scalar, unicode.MaxRune; lia|split; assumption].
    + split; [assumption|split; assumption].
  - destruct (unicode.IsPunct r) eqn:Hp; [apply cleanRune_32|].
    apply cleanRune_lower; [assumption|]. apply (lower_punct _ HT); assumption.
Qed.

Lemma collapse_clean rs : forall w, Forall scalar rs -> Forall cleanRune (collapse rs w).
Proof.
  induction rs as [|r rest IH]; intros w Hs; cbn [collapse]; [constructor|].
  apply List.Forall_cons_iff in Hs as [Hr Hrest].
  destruct (optimizedClass r) as [c|] eqn:Hc.
  - constructor; [|apply IH; assumption].
    destruct (optimizedClass_kept HT r c Hr Hc) as [Hsc Hkept].
    split; [assumption|]. revert Hkept. unfold optimizedClass.
    destruct (Z.ltb_spec c 128).
    + destruct (unicode.asciiPunct c) eqn:Hp; [discriminate|].
      destruct (unicode.asciiSpace c); [discriminate|]. cbn [orb].
      destruct (unicode.asciiUpper c); [intros E; injection E; lia|].
      intros _. split; reflexivity.
    + intros _. unfold unicode.asciiPunct, unicode.asciiUpper, existsb. lia.
  - destruct w; [apply IH; assumption|].
    constructor; [apply cleanRune_32|apply IH; assumption].
Qed.

Lemma normalizers_clean x :
  Forall cleanByte (normalizer.DefaultNormalize x)
  /\ Forall cleanByte (normalizer.Normalize x)
  /\ Forall cleanByte (normalizer.OptimizedNormalize x)
  /\ Forall cleanByte (normalizer.OptimizedNormalizeRunes x)
  /\ Forall cleanByte (normalizer.FastNormalize x).
Proof.
  repeat split.
  - rewrite (DefaultNormalize_runes HT). apply runes_clean, defaultRune_clean.
  - rewrite Normalize_loop. apply (clean_out (S (length x))). lia.
  - rewrite OptimizedNormalize_runes. apply runesString_clean, collapse_clean.
    apply (stringRunes_scalar (S (length x))). lia.
  - rewrite OptimizedNormalizeRunes_runes. apply runes_clean, optimizedRunesRune_clean.
  - rewrite FastNormalize_runes. apply runes_clean, fastRune_clean.
Qed.

End CleanOutput.

(** X6.  No normalizer writes an ASCII punctuation mark or an ASCII
    upper-case letter: every byte of the output of each of the five
    [Normalize] methods is neither, for every input. *)
Theorem X6_no_punctuation_no_upper_case {T : unicode.Tables} (x : list byte) :
  CaseTables T ->
  Forall cleanByte (normalizer.DefaultNormalize x)
  /\ Forall cleanByte (normalizer.Normalize x)
  /\ Forall cleanByte (normalizer.OptimizedNormalize x)
  /\ Forall cleanByte (normalizer.OptimizedNormalizeRunes x)
  /\ Forall cleanByte (normalizer.FastNormalize x).
Proof. intros HT. apply (normalizers_clean HT). Qed.

Lemma X6_witness :
  CaseTables unicode.latin1
  /\ Forall cleanByte (defaultNormalizer mixedText)
  /\ Forall cleanByte (efficientNormalizer mixedText)
  /\ Forall cleanByte (normalizer.OptimizedNormalize (T := unicode.latin1) mixedText)
  /\ Forall cleanByte (normalizer.OptimizedNormalizeRunes (T := unicode.latin1) mixedText)
  /\ Forall cleanByte (normalizer.FastNormalize (T := unicode.latin1) mixedText).
Proof.
  split; [exact latin1_tables|].
  exact (X6_no_punctuation_no_upper_case (T := unicode.latin1) mixedText latin1_tables).
Defined.

Lemma adjacentSpaces_cons b y :
  adjacentSpaces (b :: y)
  = (bool_decide (b = normalizer.SP)
     && match y with c :: _ => bool_decide (c = normalizer.SP) | [] => false end)
    || adjacentSpaces y.
Proof. destruct y as [|c y]; [rewrite andb_false_r|]; reflexivity. Qed.

Lemma adjacentSpaces_app_noSP e : forall y,
  Forall (fun b => b <> normalizer.SP) e ->
  adjacentSpaces (e ++ y) = adjacentSpaces y.
Proof.
  induction e as [|b e IH]; intros y He; [reflexivity|].
  inversion He as [|? ? Hb Hrest]; subst. cbn [app].
  rewrite adjacentSpaces_cons, IH by assumption.
  rewrite bool_decide_eq_false_2 by assumption. reflexivity.
Qed.

Lemma EncodeRune_noSP c :
  scalar c -> c <> 32 -> Forall (fun b => b <> normalizer.SP) (utf8.EncodeRune c).
Proof.
  intros Hs Hc. destruct (Z.lt_ge_cases c 128) as [Hlt|Hge].
  - pose proof Hs as [Hr _]. rewrite EncodeRune_ascii by lia.
    constructor; [|constructor]. intros E. apply (f_equal bz) in E.
    rewrite bz_byte_of_Z, Z.mod_small, bz_SP in E by lia. lia.
  - eapply List.Forall_impl; [|apply EncodeRune_high; assumption].
    intros b Hb E. subst b. rewrite bz_SP in Hb. lia.
Qed.

Section CollapsedSpaces.
Context {T : unicode.Tables}.
Hypothesis HT : CaseTables T.

Lemma collapse_spaces rs : forall w,
  Forall scalar rs ->
  adjacentSpaces (utf8.runesString (collapse rs w)) = false
  /\ (w = true ->
      match utf8.runesString (collapse rs w) with
      | c :: _ => c <> normalizer.SP
      | [] => True
      end).
Proof.
  unfold utf8.runesString.
  induction rs as [|r rest IH]; intros w Hs; cbn [collapse]; [split; [reflexivity|intros _; exact I]|].
  apply List.Forall_cons_iff in Hs as [Hr Hrest].
  destruct (optimizedClass r) as [c|] eqn:Hc.
  - destruct (optimizedClass_kept HT r c Hr Hc) as [Hsc Hkept].
    assert (Hne : c <> 32) by (intros ->; rewrite optimizedClass_32 in Hkept; discriminate).
    pose proof (EncodeRune_noSP c Hsc Hne) as Hno.
    cbn [flat_map]. split.
    + rewrite adjacentSpaces_app_noSP by assumption. apply IH. assumption.
    + intros _. destruct (EncodeRune_cons c) as (b & t & E). rewrite E in *.
      cbn [app]. inversion Hno; assumption.
  - destruct w.
    + apply IH. assumption.
    + destruct (IH true Hrest) as [Hadj Hhd]. specialize (Hhd eq_refl).
      cbn [flat_map]. change (utf8.EncodeRune 32) with [normalizer.SP]. cbn [app].
      split; [|discriminate].
      rewrite adjacentSpaces_cons, Hadj.
      destruct (flat_map utf8.EncodeRune (collapse rest true)) as [|b y];
        [rewrite andb_false_r; reflexivity|].
      rewrite (bool_decide_eq_false_2 _ Hhd), andb_false_r. reflexivity.
Qed.

End CollapsedSpaces.

(** X7.  The table-driven optimized normalizer collapses every run of
    punctuation and white space: its output never holds two spaces next to
    each other, for every input. *)
Theorem X7_optimized_normalizer_collapses_runs {T : unicode.Tables} (x : list byte) :
  CaseTables T ->
  adjacentSpaces (normalizer.OptimizedNormalize x) = false.
Proof.
  intros HT. rewrite OptimizedNormalize_runes.
  apply (collapse_spaces HT). apply (stringRunes_scalar (S (length x))). lia.
Qed.

Lemma X7_witness :
  CaseTables unicode.latin1
  /\ adjacentSpaces (normalizer.OptimizedNormalize (T := unicode.latin1)
                       (bytes "a ,;  b" ++ mixedText)) = false
  /\ adjacentSpaces (bytes "a ,;  b" ++ mixedText) = true.
Proof.
  split; [exact latin1_tables|]. split; [|vm_compute; reflexivity].
  exact (X7_optimized_normalizer_collapses_runs (T := unicode.latin1) _ latin1_tables).
Defined.

(** ** The scorer and the orchestrators, continued *)

(** Zero divided by a positive number, infinity included, is zero. *)
Lemma div_zero_positive (y : float) :
  (0 <? y)%float = true -> (0 / y)%float = 0%float.
Proof.
  intros Hy. apply Prim2SF_inj. rewrite FloatAxioms.div_spec.
  rewrite FloatAxioms.ltb_spec in Hy.
  change (Prim2SF 0) with (S754_zero false) in *.
  destruct (Prim2SF y) as [s|s| |s m e]; try destruct s; try discriminate; reflexivity.
Qed.

Section ScoringMore.
Context {T : unicode.Tables}.

Lemma computeStreaming_augmented_fails (PS : ports.ProcessStreamFn) config ctx
  original augmented origCount e1 original' augCount e augmented' :
  PS ctx original (stream.Mode config) = Some ((origCount, e1), original') ->
  io.failed e1 = None ->
  PS ctx augmented (stream.Mode config) = Some ((augCount, Some e), augmented') ->
  io.isEOF e = false ->
  stream.computeStreaming PS config ctx original augmented
  = Some (stream.failure "augmented" e, original', augmented').
Proof.
  intros H1 F1 H2 F2. unfold stream.computeStreaming.
  rewrite H1, F1, H2. simpl. rewrite F2. reflexivity.
Qed.

Lemma score_equal_counts config n :
  0 < n ->
  (0 <? float64 n * stream.MaxDiffRatio config)%float = true ->
  ports.Score (stream.score config n n) = 1%float
  /\ ports.Passed (stream.score config n n) = (stream.Threshold config <=? 1)%float.
Proof.
  intros Hn Hy. unfold stream.score.
  destruct (Z.eqb_spec n 0); [lia|]. cbn [andb].
  cbn [ports.Score ports.Passed]. rewrite Z.sub_diag.
  change (PrimFloat.abs (float64 0)) with 0%float.
  rewrite (div_zero_positive _ Hy).
  change (1 <? 0)%float with false. cbv iota.
  change (1 - 0)%float with 1%float. split; reflexivity.
Qed.

End ScoringMore.

(** X8.  When the original stream is processed without failure and the
    augmented stream fails (an error other than io.EOF, a cancellation
    included), [ComputeStreaming] of either streaming calculator returns
    score 0, passed = false and the reason under the key "error" of the
    details, naming the augmented stream. *)
Theorem X8_augmented_stream_failure {T : unicode.Tables}
  (bufioScanLines : io.Reader -> (list (list byte) * option io.error) * io.Reader)
  (arrival : list wordprocessor.WordJobResult -> list wordprocessor.WordJobResult)
  (sce : stream.StreamingCalculatorExtended) (sc : stream.StreamingCalculator)
  (ctx : context.Context) (original augmented : io.Reader)
  (origCount1 augCount1 origCount2 augCount2 : Z) (ok1 ok2 : option io.error)
  (e1 e2 : io.error) (original1 original2 augmented1 augmented2 : io.Reader) :
  stream.Processor sce ctx original (stream.Mode (stream.Config sce))
    = Some ((origCount1, ok1), original1) ->
  io.failed ok1 = None ->
  stream.Processor sce ctx augmented (stream.Mode (stream.Config sce))
    = Some ((augCount1, Some e1), augmented1) ->
  io.isEOF e1 = false ->
  stream.ProcessStream bufioScanLines arrival (stream.processor sc) ctx original
    (stream.Mode (stream.config sc)) = Some ((origCount2, ok2), original2) ->
  io.failed ok2 = None ->
  stream.ProcessStream bufioScanLines arrival (stream.processor sc) ctx augmented
    (stream.Mode (stream.config sc)) = Some ((augCount2, Some e2), augmented2) ->
  io.isEOF e2 = false ->
  (exists r,
     stream.StreamingCalculatorExtended_ComputeStreaming sce ctx original augmented
       = Some (r, original1, augmented1)
     /\ ports.Score r = 0%float /\ ports.Passed r = false
     /\ ports.Details r !! "error"
        = Some (ports.DString ("error processing augmented stream: " +:+ io.Error e1)))
  /\ (exists r,
        stream.StreamingCalculator_ComputeStreaming bufioScanLines arrival sc ctx
          original augmented
          = Some (r, original2, augmented2)
        /\ ports.Score r = 0%float /\ ports.Passed r = false
        /\ ports.Details r !! "error"
           = Some (ports.DString ("error processing augmented stream: " +:+ io.Error e2))).
Proof.
  intros H1 F1 H2 F2 H3 F3 H4 F4. split.
  - exists (stream.failure "augmented" e1). split.
    + unfold stream.StreamingCalculatorExtended_ComputeStreaming.
      eapply computeStreaming_augmented_fails; eassumption.
    + split; [reflexivity|]. split; [reflexivity|]. apply lookup_insert_eq.
  - exists (stream.failure "augmented" e2). split.
    + unfold stream.StreamingCalculator_ComputeStreaming.
      eapply computeStreaming_augmented_fails; eassumption.
    + split; [reflexivity|]. split; [reflexivity|]. apply lookup_insert_eq.
Qed.

Lemma X8_witness :
  (exists r,
     stream.StreamingCalculatorExtended_ComputeStreaming lineStreamCalculator
       context.Background (io.stringsReader 8 foxDog) brokenReader
       = Some (r, {| io.script := []; io.reads := 7 |},
                  {| io.script := []; io.reads := 1 |})
     /\ ports.Score r = 0%float /\ ports.Passed r = false
     /\ ports.Details r !! "error"
        = Some (ports.DString "error processing augmented stream: connection reset"))
  /\ (exists r,
        stream.StreamingCalculator_ComputeStreaming (T := unicode.latin1) noLines id
          (streamingCalculator (streamingConfig 0.7 ports.WordByWord))
          context.Background (io.stringsReader 8 foxDog) brokenReader
          = Some (r, {| io.script := []; io.reads := 7 |},
                     {| io.script := []; io.reads := 1 |})
        /\ ports.Score r = 0%float /\ ports.Passed r = false
        /\ ports.Details r !! "error"
           = Some (ports.DString "error processing augmented stream: connection reset")).
Proof.
  apply (X8_augmented_stream_failure (T := unicode.latin1) noLines id
           lineStreamCalculator (streamingCalculator (streamingConfig 0.7 ports.WordByWord))
           context.Background (io.stringsReader 8 foxDog) brokenReader
           44 0 9 0 None None
           (io.New "connection reset") (io.New "connection reset")
           {| io.script := []; io.reads := 7 |} {| io.script := []; io.reads := 7 |}
           {| io.script := []; io.reads := 1 |} {| io.script := []; io.reads := 1 |});
    vm_compute; reflexivity.
Defined.

(** X9.  Two texts with the same count, not zero, score exactly 1.0, and
    pass exactly when the threshold is at most 1.0: in the streaming
    calculator and in the non-streaming word-count calculator, provided
    the product of the count and the maximum difference ratio is positive
    in binary64. *)
Theorem X9_equal_counts_score_one {T : unicode.Tables}
  (sc : stream.StreamingCalculatorExtended) (c : core_length.Calculator)
  (ctx : context.Context) (originalR augmentedR originalR' augmentedR' : io.Reader)
  (e1 e2 : option io.error) (original augmented : list byte) (n : Z) :
  0 < n ->
  (0 <? float64 n * stream.MaxDiffRatio (stream.Config sc))%float = true ->
  (0 <? float64 n * core_length.MaxDiffRatio (core_length.config c))%float = true ->
  stream.Processor sc ctx originalR (stream.Mode (stream.Config sc))
    = Some ((n, e1), originalR') ->
  io.failed e1 = None ->
  stream.Processor sc ctx augmentedR (stream.Mode (stream.Config sc))
    = Some ((n, e2), augmentedR') ->
  io.failed e2 = None ->
  context.Done ctx = false ->
  Z.of_nat (length (strings.Fields (core_length.normalizer c original))) = n ->
  Z.of_nat (length (strings.Fields (core_length.normalizer c augmented))) = n ->
  (exists r,
     stream.StreamingCalculatorExtended_ComputeStreaming sc ctx originalR augmentedR
       = Some (r, originalR', augmentedR')
     /\ ports.Score r = 1%float
     /\ ports.Passed r = (stream.Threshold (stream.Config sc) <=? 1)%float)
  /\ domain.Score (core_length.Compute c ctx original augmented) = 1%float
  /\ domain.Passed (core_length.Compute c ctx original augmented)
     = (core_length.Threshold (core_length.config c) <=? 1)%float.
Proof.
  intros Hn Hy1 Hy2 H1 F1 H2 F2 Hctx Hlo Hla. split.
  - eexists. split.
    + unfold stream.StreamingCalculatorExtended_ComputeStreaming.
      eapply computeStreaming_scores; eassumption.
    + apply score_equal_counts; assumption.
  - unfold core_length.Compute. rewrite Hctx, Hlo, Hla.
    destruct (Z.eqb_spec n 0); [lia|]. cbn [domain.Score domain.Passed].
    rewrite Z.sub_diag. change (PrimFloat.abs (float64 0)) with 0%float.
    rewrite (div_zero_positive _ Hy2).
    change (1 <? 0)%float with false. cbv iota.
    change (1 - 0)%float with 1%float. split; reflexivity.
Qed.

Lemma X9_witness :
  (exists r,
     stream.StreamingCalculatorExtended_ComputeStreaming wordStreamCalculator
       context.Background (io.stringsReader 4096 foxDog)
       (io.stringsReader 4096 foxCanine)
       = Some (r, {| io.script := []; io.reads := 2 |},
                  {| io.script := []; io.reads := 2 |})
     /\ ports.Score r = 1%float
     /\ ports.Passed r = (0.7 <=? 1)%float)
  /\ domain.Score (core_length.Compute (T := unicode.latin1) wordCalculator
                     context.Background foxDog foxCanine) = 1%float
  /\ domain.Passed (core_length.Compute (T := unicode.latin1) wordCalculator
                      context.Background foxDog foxCanine)
     = (0.7 <=? 1)%float.
Proof.
  apply (X9_equal_counts_score_one (T := unicode.latin1) wordStreamCalculator
           wordCalculator context.Background (io.stringsReader 4096 foxDog)
           (io.stringsReader 4096 foxCanine)
           {| io.script := []; io.reads := 2 |} {| io.script := []; io.reads := 2 |}
           None None foxDog foxCanine 9);
    try lia; vm_compute; reflexivity.
Defined.



(** ** Chunked reading of ASCII text *)

Lemma RuneCount_ascii c :
  Forall (fun b => bz b < 128) c -> utf8.RuneCount c = Z.of_nat (length c).
Proof.
  intros Ha. unfold utf8.RuneCount. rewrite stringRunes_ascii by assumption.
  rewrite length_map. reflexivity.
Qed.



Lemma defaultNormalizer_RuneCount c :
  utf8.RuneCount (defaultNormalizer c) = utf8.RuneCount c.
Proof.
  apply (RuneCount_runes (defaultRune (T := unicode.latin1)));
    [apply (DefaultNormalize_runes latin1_tables)|apply (defaultRune_twice latin1_tables)].
Qed.


(** ** The word scanner on ASCII text *)

Section WordScanner.
Context {T : unicode.Tables}.

Lemma wordStep_fst isChar i i' c w s s' :
  fst (wordprocessor.wordStep isChar i c w s)
  = fst (wordprocessor.wordStep isChar i' c w s').
Proof. unfold wordprocessor.wordStep. destruct isChar, w; reflexivity. Qed.

(** The count and the in-word flag do not depend on the indices. *)
Lemma asciiLoop_fst todo : forall i i' c w s s',
  fst (wordprocessor.asciiLoop todo i c w s)
  = fst (wordprocessor.asciiLoop todo i' c w s').
Proof.
  induction todo as [|b rest IH]; intros i i' c w s s'; [reflexivity|].
  cbn [wordprocessor.asciiLoop].
  pose proof (wordStep_fst (wordprocessor.IsASCIIWordChar b) i i' c w s s') as E.
  destruct (wordprocessor.wordStep (wordprocessor.IsASCIIWordChar b) i c w s)
    as [[c1 w1] s1].
  destruct (wordprocessor.wordStep (wordprocessor.IsASCIIWordChar b) i' c w s')
    as [[c2 w2] s2].
  cbn [fst] in E. injection E as -> ->. apply IH.
Qed.

(** Scanning a text in two pieces is scanning it whole. *)
Lemma asciiLoop_app a : forall b i c w s,
  fst (wordprocessor.asciiLoop (a ++ b) i c w s)
  = fst (wordprocessor.asciiLoop b 0
           (fst (fst (wordprocessor.asciiLoop a i c w s)))
           (snd (fst (wordprocessor.asciiLoop a i c w s))) 0).
Proof.
  induction a as [|x a IH]; intros b i c w s; cbn [app wordprocessor.asciiLoop].
  - apply asciiLoop_fst.
  - destruct (wordprocessor.wordStep (wordprocessor.IsASCIIWordChar x) i c w s)
      as [[c1 w1] s1]. apply IH.
Qed.

(** After a chunk the scanner is inside a word exactly when the last byte
    of the chunk is a word character. *)
Lemma asciiLoop_inWord chunk : forall i c w s,
  chunk <> [] ->
  snd (fst (wordprocessor.asciiLoop chunk i c w s))
  = wordprocessor.IsASCIIWordChar (List.last chunk x00).
Proof.
  induction chunk as [|b rest IH]; intros i c w s Hne; [congruence|].
  cbn [wordprocessor.asciiLoop].
  destruct (wordprocessor.wordStep (wordprocessor.IsASCIIWordChar b) i c w s)
    as [[c1 w1] s1] eqn:E.
  destruct rest as [|b' rest'].
  - cbn [wordprocessor.asciiLoop fst snd List.last].
    unfold wordprocessor.wordStep in E.
    destruct (wordprocessor.IsASCIIWordChar b), w; cbn in E; congruence.
  - rewrite IH by discriminate. reflexivity.
Qed.

Lemma processChunk_ascii st chunk :
  Forall (fun b => bz b < 128) chunk -> chunk <> [] ->
  wordprocessor.wordCount (wordprocessor.processChunk st chunk)
  = fst (fst (wordprocessor.asciiLoop chunk 0 (wordprocessor.wordCount st)
                (wordprocessor.inWord st) (wordprocessor.wordStart st)))
  /\ wordprocessor.inWord (wordprocessor.processChunk st chunk)
     = snd (fst (wordprocessor.asciiLoop chunk 0 (wordprocessor.wordCount st)
                   (wordprocessor.inWord st) (wordprocessor.wordStart st)))
  /\ wordprocessor.bytesProcessed (wordprocessor.processChunk st chunk)
     = wordprocessor.bytesProcessed st + Z.of_nat (length chunk)
  /\ wordprocessor.contextCheckCounter (wordprocessor.processChunk st chunk)
     = wordprocessor.contextCheckCounter st.
Proof.
  intros Ha Hne. unfold wordprocessor.processChunk, wordprocessor.IsASCIIOnly.
  change wordprocessor.ASCIITableSize with 128. rewrite forallb_ascii by assumption.
  cbv zeta.
  pose proof (asciiLoop_inWord chunk 0 (wordprocessor.wordCount st)
                (wordprocessor.inWord st) (wordprocessor.wordStart st) Hne) as Hw.
  destruct (wordprocessor.asciiLoop chunk 0 (wordprocessor.wordCount st)
              (wordprocessor.inWord st) (wordprocessor.wordStart st)) as [[c w] s].
  cbn [fst snd] in *.
  assert (Hlen : (0 < length chunk)%nat) by (destruct chunk; [congruence|simpl; lia]).
  destruct (Z.ltb_spec 0 (Z.of_nat (length chunk))); [|lia]. cbn [andb].
  replace (Z.to_nat (Z.of_nat (length chunk) - 1)) with (length chunk - 1)%nat by lia.
  rewrite nth_last_byte, <- Hw.
  destruct w; cbn [andb negb]; repeat split; reflexivity.
Qed.

Lemma processWordsLoop_ascii ctx chunks : forall reads st,
  context.Done ctx = false ->
  Forall (Forall (fun b => bz b < 128)) chunks ->
  wordprocessor.processWordsLoop ctx (map (fun c => (c, None)) chunks) reads st
  = ((if snd (fst (wordprocessor.asciiLoop (concat chunks) 0
                     (wordprocessor.wordCount st) (wordprocessor.inWord st) 0))
      then fst (fst (wordprocessor.asciiLoop (concat chunks) 0
                       (wordprocessor.wordCount st) (wordprocessor.inWord st) 0)) + 1
      else fst (fst (wordprocessor.asciiLoop (concat chunks) 0
                       (wordprocessor.wordCount st) (wordprocessor.inWord st) 0)),
      wordprocessor.bytesProcessed st + Z.of_nat (length (concat chunks)), None),
     {| io.script := []; io.reads := S (reads + length chunks) |}).
Proof.
  induction chunks as [|chunk chunks IH]; intros reads st Hd Ha;
    cbn [map wordprocessor.processWordsLoop]; rewrite Hd, andb_false_r.
  - cbn [concat wordprocessor.asciiLoop fst snd length
         wordprocessor.wordCount wordprocessor.inWord wordprocessor.bytesProcessed].
    change (Z.of_nat 0) with 0. rewrite Z.add_0_r, Nat.add_0_r. reflexivity.
  - apply List.Forall_cons_iff in Ha as [Hc Ha]. cbv zeta.
    rewrite IH by assumption. cbn [concat].
    replace (S (S reads + length chunks)) with (S (reads + length (chunk :: chunks)))
      by (simpl; lia).
    set (st1 := {| wordprocessor.wordCount := wordprocessor.wordCount st;
                   wordprocessor.bytesProcessed := wordprocessor.bytesProcessed st;
                   wordprocessor.inWord := wordprocessor.inWord st;
                   wordprocessor.wordStart := wordprocessor.wordStart st;
                   wordprocessor.lastWordChar := wordprocessor.lastWordChar st;
                   wordprocessor.contextCheckCounter := _ |}).
    rewrite (asciiLoop_app chunk (concat chunks)).
    rewrite (asciiLoop_fst chunk 0 0 (wordprocessor.wordCount st)
               (wordprocessor.inWord st) 0 (wordprocessor.wordStart st)).
    rewrite length_app, Nat2Z.inj_add.
    destruct chunk as [|b chunk'].
    + cbn [length Nat.ltb Nat.leb wordprocessor.asciiLoop fst snd]. subst st1.
      cbn [wordprocessor.wordCount wordprocessor.inWord wordprocessor.bytesProcessed].
      change (Z.of_nat 0) with 0. rewrite Z.add_0_l. reflexivity.
    + change (0 <? length (b :: chunk'))%nat with true. cbv iota.
      destruct (processChunk_ascii st1 (b :: chunk') Hc ltac:(discriminate))
        as (E1 & E2 & E3 & _).
      rewrite E1, E2, E3. subst st1.
      cbn [wordprocessor.wordCount wordprocessor.inWord wordprocessor.bytesProcessed
           wordprocessor.wordStart].
      rewrite Z.add_assoc. reflexivity.
Qed.

End WordScanner.

(** X12.  The sequential word counter on ASCII text does not depend on
    the chunk boundaries: however the reader cuts the text into chunks, the
    call returns the count of the text scanned whole, the number of bytes
    of the text, and a nil error. *)
Theorem X12_word_count_of_ascii_text_ignores_chunking {T : unicode.Tables}
  (ctx : context.Context) (chunks : list (list byte)) (reads : nat) :
  context.Done ctx = false ->
  Forall (Forall (fun b => bz b < 128)) chunks ->
  wordprocessor.processWordsOptimized ctx
    {| io.script := map (fun c => (c, None)) chunks; io.reads := reads |}
  = ((let '(count, inWord, _) :=
        wordprocessor.asciiLoop (concat chunks) 0 0 false 0 in
      if inWord then count + 1 else count,
      Z.of_nat (length (concat chunks)), None),
     {| io.script := []; io.reads := S (reads + length chunks) |}).
Proof.
  intros Hd Ha. unfold wordprocessor.processWordsOptimized. cbn [io.script io.reads].
  rewrite processWordsLoop_ascii by assumption.
  cbn [wordprocessor.initial wordprocessor.wordCount wordprocessor.inWord
       wordprocessor.bytesProcessed].
  destruct (wordprocessor.asciiLoop (concat chunks) 0 0 false 0) as [[c w] s].
  reflexivity.
Qed.

Lemma X12_witness :
  wordprocessor.processWordsOptimized (T := unicode.latin1) context.Background
    {| io.script := map (fun c => (c, None))
                      [bytes "The qu"; bytes "ick bro"; []; bytes "wn fox"];
       io.reads := 0 |}
  = ((4, 19, None), {| io.script := []; io.reads := 5 |})
  /\ wordprocessor.processWordsOptimized (T := unicode.latin1) context.Background
       {| io.script := map (fun c => (c, None)) [bytes "The quick brown fox"];
          io.reads := 0 |}
     = ((4, 19, None), {| io.script := []; io.reads := 2 |}).
Proof.
  split.
  - apply (X12_word_count_of_ascii_text_ignores_chunking (T := unicode.latin1)
             context.Background
             [bytes "The qu"; bytes "ick bro"; []; bytes "wn fox"] 0);
      [reflexivity|repeat constructor].
  - vm_compute. reflexivity.
Defined.

(** ** How often the read loops look at the context *)

Section WordCancellation.
Context {T : unicode.Tables}.

Lemma word_processChunk_frame st chunk :
  wordprocessor.contextCheckCounter (wordprocessor.processChunk st chunk)
  = wordprocessor.contextCheckCounter st
  /\ wordprocessor.bytesProcessed (wordprocessor.processChunk st chunk)
     = wordprocessor.bytesProcessed st + Z.of_nat (length chunk).
Proof.
  unfold wordprocessor.processChunk. cbv zeta.
  destruct (wordprocessor.IsASCIIOnly chunk).
  - destruct (wordprocessor.asciiLoop _ _ _ _ _) as [[c w] s].
    destruct (w && _); split; reflexivity.
  - destruct (wordprocessor.utf8Loop _ _ _ _ _) as [[c w] s].
    destruct (w && _); split; reflexivity.
Qed.

(** Below the check frequency the loop never looks at the context. *)
Lemma processWordsLoop_unchecked ctx ctx' script : forall reads st,
  wordprocessor.contextCheckCounter st + Z.of_nat (length script) + 1
    < wordprocessor.ContextCheckFrequency ->
  wordprocessor.processWordsLoop ctx script reads st
  = wordprocessor.processWordsLoop ctx' script reads st.
Proof.
  change wordprocessor.ContextCheckFrequency with 5000.
  induction script as [|[chunk err] rest IH]; intros reads st Hc;
    cbn [wordprocessor.processWordsLoop length] in *;
    change wordprocessor.ContextCheckFrequency with 5000;
    destruct (Z.leb_spec 5000 (wordprocessor.contextCheckCounter st + 1)); try lia;
    cbn [andb]; [reflexivity|].
  cbv zeta. destruct err as [e|]; [reflexivity|]. apply IH.
  destruct (0 <? length chunk)%nat;
    [rewrite (proj1 (word_processChunk_frame _ chunk))|];
    cbn [wordprocessor.contextCheckCounter]; lia.
Qed.

(** With a cancelled context the loop stops at the iteration at which the
    counter reaches the check frequency. *)
Lemma processWordsLoop_cancelled ctx (k : nat) : forall chunks reads st,
  context.Done ctx = true ->
  wordprocessor.contextCheckCounter st + Z.of_nat k + 1
    = wordprocessor.ContextCheckFrequency ->
  (k <= length chunks)%nat ->
  exists count,
    wordprocessor.processWordsLoop ctx (map (fun c => (c, None)) chunks) reads st
    = ((count,
        wordprocessor.bytesProcessed st + Z.of_nat (length (concat (firstn k chunks))),
        Some (context.Err ctx)),
       {| io.script := map (fun c => (c, None)) (skipn k chunks);
          io.reads := reads + k |}).
Proof.
  change wordprocessor.ContextCheckFrequency with 5000.
  induction k as [|k IH]; intros chunks reads st Hd Hc Hl.
  - exists (wordprocessor.wordCount st).
    destruct chunks; cbn [map wordprocessor.processWordsLoop firstn skipn concat length];
      change wordprocessor.ContextCheckFrequency with 5000;
      (destruct (Z.leb_spec 5000 (wordprocessor.contextCheckCounter st + 1)); [|lia]);
      rewrite Hd; cbn [andb]; change (Z.of_nat 0) with 0;
      rewrite Z.add_0_r, Nat.add_0_r; reflexivity.
  - destruct chunks as [|chunk chunks]; [simpl in Hl; lia|].
    cbn [map wordprocessor.processWordsLoop firstn skipn concat length] in *.
    change wordprocessor.ContextCheckFrequency with 5000.
    destruct (Z.leb_spec 5000 (wordprocessor.contextCheckCounter st + 1)); [lia|].
    cbn [andb]. cbv zeta.
    match goal with
    | |- context [wordprocessor.processWordsLoop ctx _ (S reads) ?s] =>
      destruct (IH chunks (S reads) s Hd) as [count E]
    end.
    + destruct (0 <? length chunk)%nat;
        [rewrite (proj1 (word_processChunk_frame _ chunk))|];
        cbn [wordprocessor.contextCheckCounter]; lia.
    + lia.
    + exists count. rewrite E. rewrite length_app, Nat2Z.inj_add.
      replace (S reads + k)%nat with (reads + S k)%nat by lia.
      f_equal. f_equal. f_equal.
      destruct chunk as [|b chunk'].
      * cbn [length Nat.ltb Nat.leb wordprocessor.bytesProcessed].
        change (Z.of_nat 0) with 0. lia.
      * change (0 <? length (b :: chunk'))%nat with true. cbv iota.
        rewrite (proj2 (word_processChunk_frame _ (b :: chunk'))).
        cbn [wordprocessor.bytesProcessed]. lia.
Qed.

End WordCancellation.

Section LineCancellation.
Variable p : lineprocessor.Processor.

Lemma line_processChunk_frame st chunk :
  lineprocessor.contextCheckCounter (lineprocessor.processChunk p st chunk)
  = lineprocessor.contextCheckCounter st
  /\ lineprocessor.bytesProcessed (lineprocessor.processChunk p st chunk)
     = lineprocessor.bytesProcessed st + Z.of_nat (length chunk).
Proof.
  unfold lineprocessor.processChunk. cbv zeta.
  destruct (lineprocessor.scanChunk _ _ _ _ _ _ _ _) as [[l c] n].
  destruct (l <? _); split; reflexivity.
Qed.

Lemma processLinesLoop_unchecked ctx ctx' script : forall reads st,
  lineprocessor.contextCheckCounter st + Z.of_nat (length script) + 1
    < lineprocessor.ContextCheckFrequency ->
  lineprocessor.processLinesLoop p ctx script reads st
  = lineprocessor.processLinesLoop p ctx' script reads st.
Proof.
  change lineprocessor.ContextCheckFrequency with 500.
  induction script as [|[chunk err] rest IH]; intros reads st Hc;
    cbn [lineprocessor.processLinesLoop length] in *;
    change lineprocessor.ContextCheckFrequency with 500;
    destruct (Z.leb_spec 500 (lineprocessor.contextCheckCounter st + 1)); try lia;
    cbn [andb]; [reflexivity|].
  cbv zeta. destruct err as [e|]; [reflexivity|]. apply IH.
  destruct (0 <? length chunk)%nat;
    [rewrite (proj1 (line_processChunk_frame _ chunk))|];
    cbn [lineprocessor.contextCheckCounter]; lia.
Qed.

Lemma processLinesLoop_cancelled ctx (k : nat) : forall chunks reads st,
  context.Done ctx = true ->
  lineprocessor.contextCheckCounter st + Z.of_nat k + 1
    = lineprocessor.ContextCheckFrequency ->
  (k <= length chunks)%nat ->
  exists count,
    lineprocessor.processLinesLoop p ctx (map (fun c => (c, None)) chunks) reads st
    = ((count,
        lineprocessor.bytesProcessed st
        + Z.of_nat (length (concat (firstn k chunks))),
        Some (context.Err ctx)),
       {| io.script := map (fun c => (c, None)) (skipn k chunks);
          io.reads := reads + k |}).
Proof.
  change lineprocessor.ContextCheckFrequency with 500.
  induction k as [|k IH]; intros chunks reads st Hd Hc Hl.
  - exists (lineprocessor.charCount st).
    destruct chunks; cbn [map lineprocessor.processLinesLoop firstn skipn concat length];
      change lineprocessor.ContextCheckFrequency with 500;
      (destruct (Z.leb_spec 500 (lineprocessor.contextCheckCounter st + 1)); [|lia]);
      rewrite Hd; cbn [andb]; change (Z.of_nat 0) with 0;
      rewrite Z.add_0_r, Nat.add_0_r; reflexivity.
  - destruct chunks as [|chunk chunks]; [simpl in Hl; lia|].
    cbn [map lineprocessor.processLinesLoop firstn skipn concat length] in *.
    change lineprocessor.ContextCheckFrequency with 500.
    destruct (Z.leb_spec 500 (lineprocessor.contextCheckCounter st + 1)); [lia|].
    cbn [andb]. cbv zeta.
    match goal with
    | |- context [lineprocessor.processLinesLoop p ctx _ (S reads) ?s] =>
      destruct (IH chunks (S reads) s Hd) as [count E]
    end.
    + destruct (0 <? length chunk)%nat;
        [rewrite (proj1 (line_processChunk_frame _ chunk))|];
        cbn [lineprocessor.contextCheckCounter]; lia.
    + lia.
    + exists count. rewrite E. rewrite length_app, Nat2Z.inj_add.
      replace (S reads + k)%nat with (reads + S k)%nat by lia.
      f_equal. f_equal. f_equal.
      destruct chunk as [|b chunk'].
      * cbn [length Nat.ltb Nat.leb lineprocessor.bytesProcessed].
        change (Z.of_nat 0) with 0. lia.
      * change (0 <? length (b :: chunk'))%nat with true. cbv iota.
        rewrite (proj2 (line_processChunk_frame _ (b :: chunk'))).
        cbn [lineprocessor.bytesProcessed]. lia.
Qed.

End LineCancellation.

(** X13.  The sequential word and line counters look at the context only
    on every 5000th (words) or 500th (lines) turn of the read loop.  A
    stream that ends within fewer reads is processed to its end whatever
    the state of the context: the call returns what it returns with the
    background context, also when the context was cancelled before the
    call. *)
Theorem X13_short_streams_ignore_cancellation {T : unicode.Tables}
  (p : lineprocessor.Processor) (ctx : context.Context) (words lines : io.Reader) :
  (length (io.script words) < 4999)%nat ->
  (length (io.script lines) < 499)%nat ->
  wordprocessor.processWordsOptimized ctx words
  = wordprocessor.processWordsOptimized context.Background words
  /\ lineprocessor.processLinesOptimized p ctx lines
     = lineprocessor.processLinesOptimized p context.Background lines.
Proof.
  intros Hw Hl. split.
  - apply processWordsLoop_unchecked.
    change wordprocessor.ContextCheckFrequency with 5000.
    cbn [wordprocessor.initial wordprocessor.contextCheckCounter]. lia.
  - apply processLinesLoop_unchecked.
    change lineprocessor.ContextCheckFrequency with 500.
    cbn [lineprocessor.initial lineprocessor.contextCheckCounter]. lia.
Qed.

Lemma X13_witness :
  wordprocessor.processWordsOptimized (T := unicode.latin1) context.Cancelled
    (io.stringsReader 8 foxDog)
  = ((9, 44, None), {| io.script := []; io.reads := 7 |})
  /\ lineprocessor.processLinesOptimized (lineProcessor defaultNormalizer 8 false)
       context.Cancelled (io.stringsReader 8 foxDog)
     = ((44, 44, None), {| io.script := []; io.reads := 7 |}).
Proof.
  destruct (X13_short_streams_ignore_cancellation (T := unicode.latin1)
              (lineProcessor defaultNormalizer 8 false) context.Cancelled
              (io.stringsReader 8 foxDog) (io.stringsReader 8 foxDog)) as [Ew El].
  - vm_compute. lia.
  - vm_compute. lia.
  - rewrite Ew, El. vm_compute. split; reflexivity.
Defined.

(** X14.  With a context that is already cancelled and a reader that keeps
    delivering data, the sequential word counter returns the context's
    error only after 4999 reads and the sequential line counter after 499
    reads; the bytes of those reads are counted in [bytesProcessed]. *)
Theorem X14_cancellation_is_noticed_late {T : unicode.Tables}
  (p : lineprocessor.Processor) (ctx : context.Context)
  (chunks : list (list byte)) (reads : nat) :
  context.Done ctx = true ->
  (4999 <= length chunks)%nat ->
  let reader := {| io.script := map (fun c => (c, None)) chunks; io.reads := reads |} in
  (exists count,
     wordprocessor.processWordsOptimized ctx reader
     = ((count, Z.of_nat (length (concat (firstn 4999 chunks))), Some (context.Err ctx)),
        {| io.script := map (fun c => (c, None)) (skipn 4999 chunks);
           io.reads := reads + 4999 |}))
  /\ (exists count,
        lineprocessor.processLinesOptimized p ctx reader
        = ((count, Z.of_nat (length (concat (firstn 499 chunks))), Some (context.Err ctx)),
           {| io.script := map (fun c => (c, None)) (skipn 499 chunks);
              io.reads := reads + 499 |})).
Proof.
  intros Hd Hl reader. split.
  - destruct (processWordsLoop_cancelled ctx 4999 chunks reads wordprocessor.initial Hd)
      as [count E]; [reflexivity|lia|].
    exists count. exact E.
  - destruct (processLinesLoop_cancelled p ctx 499 chunks reads lineprocessor.initial Hd)
      as [count E]; [reflexivity|lia|].
    exists count. exact E.
Qed.

Lemma X14_witness :
  let chunks := repeat (bytes "ab ") 4999 in
  let reader := {| io.script := map (fun c => (c, None)) chunks; io.reads := 0 |} in
  (exists count,
     wordprocessor.processWordsOptimized (T := unicode.latin1) context.Cancelled reader
     = ((count, Z.of_nat (length (concat (firstn 4999 chunks))), Some io.Canceled),
        {| io.script := map (fun c => (c, None)) (skipn 4999 chunks);
           io.reads := 0 + 4999 |}))
  /\ (exists count,
        lineprocessor.processLinesOptimized (lineProcessor defaultNormalizer 8 false)
          context.Cancelled reader
        = ((count, Z.of_nat (length (concat (firstn 499 chunks))), Some io.Canceled),
           {| io.script := map (fun c => (c, None)) (skipn 499 chunks);
              io.reads := 0 + 499 |})).
Proof.
  apply (X14_cancellation_is_noticed_late (T := unicode.latin1)
           (lineProcessor defaultNormalizer 8 false) context.Cancelled
           (repeat (bytes "ab ") 4999) 0).
  - reflexivity.
  - rewrite repeat_length. lia.
Defined.

(** ** The collector of the word worker pool *)

Section Collector.

(** The workers' results in the order of the jobs: the result at index [j]
    carries the chunk id [j] and no error. *)
Variable rs : list wordprocessor.WordJobResult.
Hypothesis rs_ids : forall (j : nat) r,
  rs !! j = Some r ->
  wordprocessor.ResultChunkID r = Z.of_nat j /\ wordprocessor.Error r = None.

Lemma countsTo_S (k : nat) r :
  rs !! k = Some r -> countsTo rs (S k) = countsTo rs k + wordprocessor.WordCount r.
Proof.
  intros Hk. unfold countsTo. rewrite (take_S_r _ _ _ Hk), map_app, fold_right_app.
  cbn [map fold_right]. rewrite Z.add_0_r.
  generalize (map wordprocessor.WordCount (take k rs)). intros l.
  induction l as [|x l IH]; cbn [fold_right]; [lia|]. rewrite IH. lia.
Qed.

Lemma known_insert m (j : nat) r :
  known rs m -> rs !! j = Some r -> known rs (<[Z.of_nat j := r]> m).
Proof.
  intros Hm Hj i r' Hi. destruct (decide (i = Z.of_nat j)) as [->|Hne].
  - rewrite lookup_insert_eq in Hi. injection Hi as <-. eauto.
  - rewrite lookup_insert_ne in Hi by congruence. eauto.
Qed.

Lemma known_delete m i : known rs m -> known rs (delete i m).
Proof.
  intros Hm i' r Hi. destruct (decide (i' = i)) as [->|Hne].
  - rewrite lookup_delete_eq in Hi. discriminate.
  - rewrite lookup_delete_ne in Hi by congruence. eauto.
Qed.

(** [drain] folds the run of results that are present from [next] on,
    removes them from the map, and stops at the first id that is missing. *)
Lemma drain_spec m next count :
  forall k : nat, next = Z.of_nat k -> known rs m -> (k <= length rs)%nat ->
  exists k' : nat,
    (k <= k' <= length rs)%nat
    /\ wordprocessor.failed (wordprocessor.drain m next count) = None
    /\ wordprocessor.nextChunkID (wordprocessor.drain m next count) = Z.of_nat k'
    /\ wordprocessor.total (wordprocessor.drain m next count)
       = count + countsTo rs k' - countsTo rs k
    /\ wordprocessor.resultMap (wordprocessor.drain m next count) !! Z.of_nat k' = None
    /\ forall i, wordprocessor.resultMap (wordprocessor.drain m next count) !! i
                 = if bool_decide (Z.of_nat k <= i < Z.of_nat k') then None
                   else m !! i.
Proof.
  apply (wordprocessor.drain_elim
    (fun m next count c =>
       forall k : nat, next = Z.of_nat k -> known rs m -> (k <= length rs)%nat ->
       exists k' : nat,
         (k <= k' <= length rs)%nat
         /\ wordprocessor.failed c = None
         /\ wordprocessor.nextChunkID c = Z.of_nat k'
         /\ wordprocessor.total c = count + countsTo rs k' - countsTo rs k
         /\ wordprocessor.resultMap c !! Z.of_nat k' = None
         /\ forall i, wordprocessor.resultMap c !! i
                      = if bool_decide (Z.of_nat k <= i < Z.of_nat k') then None
                        else m !! i)); clear m next count.
  - intros m next Hnone count _ k -> Hm Hk. exists k.
    cbn [wordprocessor.failed wordprocessor.nextChunkID wordprocessor.total
         wordprocessor.resultMap].
    repeat split; try lia; try assumption.
    intros i. rewrite bool_decide_eq_false_2 by lia. reflexivity.
  - intros m next result e Hsome count He _ k -> Hm Hk.
    destruct (Hm _ _ Hsome) as (j & _ & Hj).
    destruct (rs_ids j result Hj) as [_ Hnoerr]. congruence.
  - intros m next result Hsome count IH _ _ k -> Hm Hk.
    destruct (Hm _ _ Hsome) as (j & Hjk & Hj).
    assert (j = k) by lia. subst j.
    assert (HSk : (S k <= length rs)%nat)
      by (apply lookup_lt_Some in Hj; lia).
    destruct (IH (S k) ltac:(lia) (known_delete m _ Hm) HSk)
      as (k' & Hk' & Hf & Hn & Ht & Hnone & Hmap).
    exists k'. rewrite Hf, Hn, Ht, (countsTo_S k result Hj).
    repeat split; try lia; try assumption.
    intros i. rewrite Hmap.
    destruct (decide (i = Z.of_nat k)) as [->|Hne].
    + rewrite lookup_delete_eq.
      rewrite (bool_decide_eq_true_2 (Z.of_nat k <= Z.of_nat k < Z.of_nat k')) by lia.
      destruct (bool_decide _); reflexivity.
    + rewrite lookup_delete_ne by congruence.
      destruct (bool_decide_reflect (Z.of_nat (S k) <= i < Z.of_nat k'));
        destruct (bool_decide_reflect (Z.of_nat k <= i < Z.of_nat k'));
        try reflexivity; lia.
Qed.

Lemma collected_collect arrived c (j : nat) r :
  collected rs arrived c -> rs !! j = Some r ->
  collected rs (arrived ++ [r]) (wordprocessor.collect c r).
Proof.
  intros (Hf & Hm & k & Hk & Hn & Ht & Hnone & Harr) Hj.
  unfold wordprocessor.collect. rewrite Hf, Hn, Ht.
  destruct (rs_ids j r Hj) as [Hid _]. rewrite Hid.
  pose proof (known_insert _ j r Hm Hj) as Hm1.
  destruct (drain_spec (<[Z.of_nat j := r]> (wordprocessor.resultMap c))
              (Z.of_nat k) (countsTo rs k) k eq_refl Hm1 Hk)
    as (k' & Hk' & Hf' & Hn' & Ht' & Hnone' & Hmap).
  split; [exact Hf'|]. split.
  - intros i r' Hi. rewrite Hmap in Hi.
    destruct (bool_decide _); [discriminate|]. exact (Hm1 _ _ Hi).
  - exists k'. split; [lia|]. split; [exact Hn'|]. split; [rewrite Ht'; lia|].
    split; [exact Hnone'|].
    intros j' r' Hj' Hin. apply elem_of_app in Hin as [Hin|Hin].
    + destruct (Harr j' r' Hj' Hin) as [Hlt|Hin'].
      * left. lia.
      * destruct (decide (j' < k')%nat) as [Hlt'|Hge]; [left; exact Hlt'|].
        right. rewrite Hmap. rewrite bool_decide_eq_false_2 by lia.
        destruct (decide (j' = j)) as [->|Hne].
        -- rewrite lookup_insert_eq. congruence.
        -- rewrite lookup_insert_ne by lia. exact Hin'.
    + apply list_elem_of_singleton in Hin. subst r'.
      assert (j' = j).
      { destruct (rs_ids j' r Hj') as [E1 _]. lia. }
      subst j'.
      destruct (decide (j < k')%nat) as [Hlt'|Hge]; [left; exact Hlt'|].
      right. rewrite Hmap. rewrite bool_decide_eq_false_2 by lia.
      apply lookup_insert_eq.
Qed.

Lemma collected_fold results : forall arrived c,
  collected rs arrived c -> (forall r, r ∈ results -> r ∈ rs) ->
  collected rs (arrived ++ results) (fold_left wordprocessor.collect results c).
Proof.
  induction results as [|r results IH]; intros arrived c Hc Hin.
  - rewrite app_nil_r. exact Hc.
  - cbn [fold_left].
    destruct (proj1 (list_elem_of_lookup rs r) (Hin r ltac:(left))) as [j Hj].
    replace (arrived ++ r :: results) with ((arrived ++ [r]) ++ results)
      by (rewrite <- app_assoc; reflexivity).
    apply IH; [exact (collected_collect arrived c j r Hc Hj)|].
    intros r' Hr'. apply Hin. right. exact Hr'.
Qed.

(** Whatever the order of arrival, the collector ends with the sum of the
    workers' counts and no error. *)
Lemma collect_all results :
  results ≡ₚ rs ->
  let c := fold_left wordprocessor.collect results
             {| wordprocessor.total := 0; wordprocessor.resultMap := ∅;
                wordprocessor.nextChunkID := 0; wordprocessor.failed := None |} in
  wordprocessor.failed c = None
  /\ wordprocessor.total c = countsTo rs (length rs).
Proof.
  intros Hp c.
  assert (Hinit : collected rs []
            {| wordprocessor.total := 0; wordprocessor.resultMap := ∅;
               wordprocessor.nextChunkID := 0; wordprocessor.failed := None |}).
  { split; [reflexivity|]. split.
    - intros i r Hi. cbn [wordprocessor.resultMap] in Hi.
      rewrite lookup_empty in Hi. discriminate.
    - exists 0%nat. cbn. repeat split; try lia.
      intros j r _ Hin. apply elem_of_nil in Hin. contradiction. }
  destruct (collected_fold results [] _ Hinit) as (Hf & _ & k & Hk & Hn & Ht & Hnone & Harr).
  { intros r Hr. rewrite <- Hp. exact Hr. }
  fold c in Hf, Hn, Ht, Hnone, Harr.
  split; [exact Hf|]. rewrite Ht. f_equal.
  destruct (decide (k = length rs)) as [E|Hne]; [exact E|].
  exfalso. destruct (lookup_lt_is_Some_2 rs k ltac:(lia)) as [r Hr].
  destruct (Harr k r Hr) as [Hlt|Hin]; [|lia|congruence].
  cbn [app]. rewrite Hp. apply list_elem_of_lookup. eauto.
Qed.

End Collector.

Section WorkerPool.
Context {T : unicode.Tables}.

Lemma produceJobs_ids ctx script : forall reads id inW bytes (j : nat) job,
  fst (fst (wordprocessor.produceJobs ctx script reads id inW bytes)) !! j = Some job ->
  wordprocessor.ChunkID job = id + Z.of_nat j.
Proof.
  induction script as [|[chunk err] rest IH]; intros reads id inW bytes j job;
    cbn [wordprocessor.produceJobs]; destruct (context.Done ctx); cbn [fst];
    try (rewrite lookup_nil; discriminate).
  cbv zeta.
  assert (Hrest : forall jobs (j : nat) job,
            (forall (j : nat) job, jobs !! j = Some job ->
               wordprocessor.ChunkID job
               = (if 0 <? Z.of_nat (length chunk) then id + 1 else id) + Z.of_nat j) ->
            ((if 0 <? Z.of_nat (length chunk)
              then [{| wordprocessor.Chunk := chunk; wordprocessor.ChunkID := id;
                       wordprocessor.StartWord := inW |}]
              else []) ++ jobs) !! j = Some job ->
            wordprocessor.ChunkID job = id + Z.of_nat j).
  { clear. intros jobs j job Hjobs. destruct (0 <? Z.of_nat (length chunk)).
    - destruct j as [|j]; cbn [app lookup list_lookup].
      + intros [= <-]. cbn. lia.
      + intros Hj. rewrite (Hjobs j job Hj). lia.
    - cbn [app]. intros Hj. rewrite (Hjobs j job Hj). lia. }
  destruct err as [e|].
  - cbn [fst]. intros Hj. apply (Hrest [] j job); [|rewrite app_nil_r; exact Hj].
    intros j' job'. rewrite lookup_nil. discriminate.
  - specialize (IH (S reads) (if 0 <? Z.of_nat (length chunk) then id + 1 else id)
                   (if 0 <? Z.of_nat (length chunk)
                    then wordprocessor.IsASCIIWordChar
                           (nth (Z.to_nat (Z.of_nat (length chunk) - 1)) chunk x00)
                    else inW)
                   (if 0 <? Z.of_nat (length chunk)
                    then bytes + Z.of_nat (length chunk) else bytes)).
    destruct (wordprocessor.produceJobs ctx rest _ _ _ _) as [[jobs e] r].
    cbn [fst] in *. apply Hrest. exact IH.
Qed.

Lemma wordWorker_ids ctx jobs :
  context.Done ctx = false ->
  (forall (j : nat) job, jobs !! j = Some job ->
     wordprocessor.ChunkID job = Z.of_nat j) ->
  forall (j : nat) r,
    map (wordprocessor.wordWorker ctx) jobs !! j = Some r ->
    wordprocessor.ResultChunkID r = Z.of_nat j /\ wordprocessor.Error r = None.
Proof.
  intros Hd Hjobs j r Hj. rewrite list_lookup_fmap_Some in Hj.
  destruct Hj as (job & -> & Hjob). rewrite <- (Hjobs j job Hjob).
  unfold wordprocessor.wordWorker. rewrite Hd.
  destruct (wordprocessor.IsASCIIOnly _).
  - destruct (wordprocessor.asciiLoop _ _ _ _ _) as [[c w] s]. split; reflexivity.
  - destruct (wordprocessor.utf8Loop _ _ _ _ _) as [[c w] s]. split; reflexivity.
Qed.

(** The worker pool returns the sum of the workers' counts, in whatever
    order the results arrive. *)
Lemma processWordsParallel_sum ctx reader arrival :
  context.Done ctx = false ->
  (forall l, arrival l ≡ₚ l) ->
  wordprocessor.processWordsParallel ctx reader arrival
  = match wordprocessor.produceJobs ctx (io.script reader) (io.reads reader) 0 false 0
    with
    | (jobs, wordprocessor.LeftOpen _, r) => None
    | (jobs, wordprocessor.Closed err bytes, r) =>
      Some ((fold_right Z.add 0
               (map wordprocessor.WordCount (map (wordprocessor.wordWorker ctx) jobs)),
             bytes, err), r)
    end.
Proof.
  intros Hd Hp. unfold wordprocessor.processWordsParallel.
  pose proof (produceJobs_ids ctx (io.script reader) (io.reads reader) 0 false 0) as Hids.
  destruct (wordprocessor.produceJobs ctx _ _ _ _ _) as [[jobs e] r].
  cbn [fst] in Hids. destruct e as [err bytes|e]; [|reflexivity].
  destruct (collect_all (map (wordprocessor.wordWorker ctx) jobs)
              (wordWorker_ids ctx jobs Hd ltac:(intros j job Hj; rewrite (Hids j job Hj); lia))
              (arrival (map (wordprocessor.wordWorker ctx) jobs)) (Hp _))
    as [Hf Ht].
  cbv zeta. rewrite Hf, Ht. unfold countsTo. rewrite firstn_all. reflexivity.
Qed.


End WorkerPool.



Section WorkerPoolAscii.
Context {T : unicode.Tables}.

(** The scanner adds to the count it is given. *)
Lemma asciiLoop_count todo : forall i c w s,
  fst (fst (wordprocessor.asciiLoop todo i c w s))
  = c + fst (fst (wordprocessor.asciiLoop todo i 0 w s))
  /\ snd (fst (wordprocessor.asciiLoop todo i c w s))
     = snd (fst (wordprocessor.asciiLoop todo i 0 w s)).
Proof.
  induction todo as [|b rest IH]; intros i c w s; cbn [wordprocessor.asciiLoop].
  - cbn [fst snd]. split; [lia|reflexivity].
  - unfold wordprocessor.wordStep.
    destruct (wordprocessor.IsASCIIWordChar b), w; cbn [negb];
      try (apply IH).
    destruct (IH (i + 1) (c + 1) false s) as [E1 E2].
    destruct (IH (i + 1) (0 + 1) false s) as [E3 E4].
    rewrite E1, E2, E3, E4. split; [lia|reflexivity].
Qed.

Lemma asciiLoop_last todo i c w s :
  snd (fst (wordprocessor.asciiLoop todo i c w s))
  = match todo with
    | [] => w
    | _ => wordprocessor.IsASCIIWordChar (List.last todo x00)
    end.
Proof.
  destruct todo as [|b rest]; [reflexivity|].
  apply asciiLoop_inWord. discriminate.
Qed.

Lemma produceJobs_ascii ctx chunks : forall reads id inW bytes,
  context.Done ctx = false ->
  Forall (Forall (fun b => bz b < 128)) chunks ->
  exists jobs,
    wordprocessor.produceJobs ctx (map (fun c => (c, None)) chunks) reads id inW bytes
    = (jobs, wordprocessor.Closed None (bytes + Z.of_nat (length (concat chunks))),
       {| io.script := []; io.reads := S (reads + length chunks) |})
    /\ forall c,
         c + fold_right Z.add 0
               (map wordprocessor.WordCount (map (wordprocessor.wordWorker ctx) jobs))
         = fst (fst (wordprocessor.asciiLoop (concat chunks) 0 c inW 0)).
Proof.
  induction chunks as [|chunk chunks IH]; intros reads id inW bytes Hd Ha;
    cbn [map wordprocessor.produceJobs]; rewrite Hd.
  - exists []. cbn [concat length map fold_right wordprocessor.asciiLoop fst].
    change (Z.of_nat 0) with 0. rewrite Z.add_0_r, Nat.add_0_r.
    split; [reflexivity|intros c; lia].
  - apply List.Forall_cons_iff in Ha as [Hc Ha]. cbv zeta.
    destruct chunk as [|b chunk'].
    + change (0 <? Z.of_nat (length (@nil byte))) with false. cbv iota.
      destruct (IH (S reads) id inW bytes Hd Ha) as (jobs & E & Hsum).
      rewrite E. exists jobs. cbn [concat app length].
      replace (S (S reads + length chunks)) with (S (reads + S (length chunks))) by lia.
      split; [reflexivity|exact Hsum].
    + set (chunk := b :: chunk') in *.
      assert (Hpos : (0 <? Z.of_nat (length chunk)) = true)
        by (apply Z.ltb_lt; subst chunk; cbn [length]; lia).
      rewrite Hpos.
      destruct (IH (S reads) (id + 1)
                  (wordprocessor.IsASCIIWordChar
                     (nth (Z.to_nat (Z.of_nat (length chunk) - 1)) chunk x00))
                  (bytes + Z.of_nat (length chunk)) Hd Ha) as (jobs & E & Hsum).
      rewrite E. eexists. split.
      * cbn [concat length]. fold chunk.
        rewrite length_app, Nat2Z.inj_add, Z.add_assoc.
        replace (S (S reads + length chunks)) with (S (reads + S (length chunks)))
          by lia.
        reflexivity.
      * intros c. cbn [app map fold_right concat].
        rewrite asciiLoop_app.
        replace (Z.to_nat (Z.of_nat (length chunk) - 1)) with (length chunk - 1)%nat
          in Hsum by lia.
        rewrite nth_last_byte in Hsum.
        rewrite (asciiLoop_inWord chunk 0 c inW 0) by (subst chunk; discriminate).
        rewrite <- Hsum.
        rewrite (proj1 (asciiLoop_count chunk 0 c inW 0)).
        unfold wordprocessor.wordWorker at 1. rewrite Hd.
        cbn [wordprocessor.Chunk wordprocessor.StartWord wordprocessor.ChunkID].
        unfold wordprocessor.IsASCIIOnly.
        change wordprocessor.ASCIITableSize with 128.
        rewrite forallb_ascii by assumption.
        destruct (wordprocessor.asciiLoop chunk 0 0 inW 0) as [[c1 w1] s1].
        cbn [fst snd wordprocessor.WordCount]. lia.
Qed.

End WorkerPoolAscii.

(** X16.  On ASCII text the word worker pool returns the count of the
    sequential path, less one when the text ends inside a word: the word
    that ends with the stream is the only difference, and byte count, error
    and reader are the same.  This holds for every cut of the text into
    chunks and every order of arrival of the workers' results. *)
Theorem X16_worker_pool_drops_the_last_word {T : unicode.Tables}
  (ctx : context.Context) (chunks : list (list byte)) (reads : nat)
  (arrival : list wordprocessor.WordJobResult -> list wordprocessor.WordJobResult) :
  context.Done ctx = false ->
  Forall (Forall (fun b => bz b < 128)) chunks ->
  (forall l, arrival l ≡ₚ l) ->
  let reader := {| io.script := map (fun c => (c, None)) chunks; io.reads := reads |} in
  wordprocessor.processWordsParallel ctx reader arrival
  = (let '((count, bytesProcessed, err), r) :=
       wordprocessor.processWordsOptimized ctx reader in
     Some ((if wordprocessor.IsASCIIWordChar (List.last (concat chunks) x00)
            then count - 1 else count, bytesProcessed, err), r)).
Proof.
  intros Hd Ha Hp reader.
  rewrite (processWordsParallel_sum ctx reader arrival Hd Hp).
  unfold wordprocessor.processWordsOptimized. subst reader. cbn [io.script io.reads].
  rewrite processWordsLoop_ascii by assumption.
  destruct (produceJobs_ascii ctx chunks reads 0 false 0 Hd Ha) as (jobs & E & Hsum).
  specialize (Hsum 0). rewrite Z.add_0_l in Hsum. rewrite E, Hsum.
  cbn [wordprocessor.initial wordprocessor.wordCount wordprocessor.inWord
       wordprocessor.bytesProcessed].
  rewrite (asciiLoop_last (concat chunks) 0 0 false 0).
  destruct (concat chunks) as [|b rest] eqn:Ec.
  - change (wordprocessor.IsASCIIWordChar (List.last [] x00)) with false.
    cbv iota. reflexivity.
  - destruct (wordprocessor.IsASCIIWordChar (List.last (b :: rest) x00));
      repeat f_equal; lia.
Qed.

Lemma X16_witness :
  wordprocessor.processWordsParallel (T := unicode.latin1) context.Background
    {| io.script := map (fun c => (c, None)) [bytes "hello wo"; bytes "rld"];
       io.reads := 0 |} (@rev _)
  = Some ((1, 11, None), {| io.script := []; io.reads := 3 |}).
Proof.
  rewrite (X16_worker_pool_drops_the_last_word (T := unicode.latin1)
             context.Background [bytes "hello wo"; bytes "rld"] 0 (@rev _)).
  - vm_compute. reflexivity.
  - reflexivity.
  - repeat constructor.
  - intros l. symmetry. apply Permutation_rev.
Defined.

(** ** The sequential line counter on ASCII text without CR *)

Section LinesAscii.
Variable p : lineprocessor.Processor.
Hypothesis counts_bytes : forall line,
  Forall (fun b => bz b < 128) line ->
  utf8.RuneCount (lineprocessor.normalizer p line) = Z.of_nat (length line).

Lemma processLine_ascii line count :
  Forall (fun b => bz b < 128) line ->
  lineprocessor.processLine p line count = count + Z.of_nat (length line).
Proof.
  intros Ha. unfold lineprocessor.processLine. destruct line as [|b rest].
  - cbn. lia.
  - cbn [length Nat.eqb]. rewrite counts_bytes by assumption. reflexivity.
Qed.

(** Without CR every byte other than LF is counted once, when its line
    ends or, for the bytes after the last LF, when they are handed over. *)
Lemma scanAcc_bytes todo : forall cur cr count,
  ~ In lineprocessor.CR todo ->
  Forall (fun b => bz b < 128) cur -> Forall (fun b => bz b < 128) todo ->
  snd (scanAcc p cur todo cr count)
  + Z.of_nat (length (fst (fst (scanAcc p cur todo cr count))))
  = count + Z.of_nat (length cur)
    + Z.of_nat (length (filter (fun b => b <> lineprocessor.LF) todo))
  /\ Forall (fun b => bz b < 128) (fst (fst (scanAcc p cur todo cr count))).
Proof.
  induction todo as [|b rest IH]; intros cur cr count Hcr Hcur Htodo.
  - cbn [scanAcc fst snd filter length]. split; [cbn; lia|exact Hcur].
  - assert (Hb : b <> lineprocessor.CR) by (intros ->; apply Hcr; left; reflexivity).
    assert (Hrest : ~ In lineprocessor.CR rest) by (intros H; apply Hcr; right; exact H).
    apply List.Forall_cons_iff in Htodo as [Hb128 Htodo].
    cbn [scanAcc].
    destruct (decide (b = lineprocessor.LF)) as [Hlf|Hlf].
    + destruct (decide (b = lineprocessor.LF \/ b = lineprocessor.CR)); [|tauto].
      destruct (decide (b = lineprocessor.CR)); [tauto|].
      rewrite filter_cons_False by tauto.
      destruct (IH [] false (lineprocessor.processLine p cur count) Hrest
                  (Forall_nil_2 _) Htodo) as [E Ha].
      split; [|exact Ha]. rewrite E, processLine_ascii by assumption. cbn [length]. lia.
    + destruct (decide (b = lineprocessor.LF \/ b = lineprocessor.CR)); [tauto|].
      rewrite filter_cons_True by assumption.
      destruct (IH (cur ++ [b]) cr count Hrest) as [E Ha]; [|assumption|].
      { apply List.Forall_app. split; [assumption|]. constructor; [assumption|constructor]. }
      split; [|exact Ha]. rewrite E, length_app. cbn [length]. lia.
Qed.

Lemma processLinesLoop_ascii ctx chunks : forall reads st,
  context.Done ctx = false ->
  Forall (Forall (fun b => bz b < 128)) chunks ->
  Forall (fun chunk => ~ In lineprocessor.CR chunk) chunks ->
  (lineprocessor.inLine st = true \/ lineprocessor.lineBuffer st = []) ->
  Forall (fun b => bz b < 128) (lineprocessor.lineBuffer st) ->
  lineprocessor.processLinesLoop p ctx (map (fun c => (c, None)) chunks) reads st
  = ((lineprocessor.charCount st + Z.of_nat (length (lineprocessor.lineBuffer st))
      + Z.of_nat (length (filter (fun b => b <> lineprocessor.LF) (concat chunks))),
      lineprocessor.bytesProcessed st + Z.of_nat (length (concat chunks)), None),
     {| io.script := []; io.reads := S (reads + length chunks) |}).
Proof.
  induction chunks as [|chunk chunks IH]; intros reads st Hd Ha Hcr Hin Hbuf;
    cbn [map lineprocessor.processLinesLoop]; rewrite Hd, andb_false_r.
  - cbv zeta. unfold lineprocessor.finish.
    cbn [lineprocessor.inLine lineprocessor.lineBuffer lineprocessor.charCount
         lineprocessor.bytesProcessed concat filter length].
    change (Z.of_nat 0) with 0. rewrite !Z.add_0_r, Nat.add_0_r.
    f_equal. f_equal. f_equal.
    destruct Hin as [-> | ->].
    + cbn [andb]. destruct (lineprocessor.lineBuffer st) as [|b rest] eqn:E.
      * cbn. lia.
      * change (0 <? length (b :: rest))%nat with true. cbv iota.
        apply processLine_ascii. exact Hbuf.
    + rewrite andb_false_r. cbn. lia.
  - apply List.Forall_cons_iff in Ha as [Hc Ha].
    apply List.Forall_cons_iff in Hcr as [Hccr Hcr]. cbv zeta.
    set (st1 := {| lineprocessor.charCount := lineprocessor.charCount st;
                   lineprocessor.bytesProcessed := lineprocessor.bytesProcessed st;
                   lineprocessor.inLine := lineprocessor.inLine st;
                   lineprocessor.carryoverCR := lineprocessor.carryoverCR st;
                   lineprocessor.contextCheckCounter := _;
                   lineprocessor.lineBuffer := lineprocessor.lineBuffer st |}).
    cbn [concat]. rewrite filter_app, !length_app, !Nat2Z.inj_add.
    replace (S (reads + length (chunk :: chunks))) with (S (S reads + length chunks))
      by (simpl; lia).
    destruct chunk as [|b chunk'].
    + cbn [length Nat.ltb Nat.leb filter]. change (Z.of_nat 0) with 0.
      rewrite IH by assumption. subst st1.
      cbn [lineprocessor.charCount lineprocessor.lineBuffer lineprocessor.bytesProcessed].
      repeat match goal with |- (_, _) = (_, _) => f_equal end; lia.
    + change (0 <? length (b :: chunk'))%nat with true. cbv iota.
      set (chunk := b :: chunk') in *.
      rewrite processChunk_scanAcc. cbv zeta.
      destruct (scanAcc_bytes chunk [] (lineprocessor.carryoverCR st1)
                  (lineprocessor.charCount st1) Hccr (Forall_nil_2 _) Hc) as [E Hcur].
      destruct (Nat.ltb_spec 0
                  (length (fst (fst (scanAcc p [] chunk (lineprocessor.carryoverCR st1)
                                       (lineprocessor.charCount st1)))))) as [Hlt|Hge].
      * rewrite IH; try assumption.
        -- cbn [lineprocessor.charCount lineprocessor.lineBuffer
                lineprocessor.bytesProcessed]. rewrite length_app, Nat2Z.inj_add.
           subst st1. cbn [lineprocessor.charCount lineprocessor.lineBuffer
                           lineprocessor.bytesProcessed lineprocessor.carryoverCR] in *.
           cbn [length] in E.
           repeat match goal with |- (_, _) = (_, _) => f_equal end; lia.
        -- left. reflexivity.
        -- cbn [lineprocessor.lineBuffer]. apply List.Forall_app. split; assumption.
      * rewrite IH; try assumption.
        cbn [lineprocessor.charCount lineprocessor.lineBuffer
             lineprocessor.bytesProcessed].
        subst st1. cbn [lineprocessor.charCount lineprocessor.lineBuffer
                        lineprocessor.bytesProcessed lineprocessor.carryoverCR] in *.
        cbn [length] in E.
        repeat match goal with |- (_, _) = (_, _) => f_equal end; lia.
Qed.

End LinesAscii.

(** X17.  The sequential line counter on ASCII text without CR, with a
    normalizer that keeps the number of runes: however the reader cuts the
    text into chunks, the count is the number of bytes of the text other
    than LF, the byte count is the length of the text, and the error is
    nil. *)
Theorem X17_line_count_of_ascii_text_ignores_chunking
  (p : lineprocessor.Processor) (ctx : context.Context)
  (chunks : list (list byte)) (reads : nat) :
  context.Done ctx = false ->
  (forall line, utf8.RuneCount (lineprocessor.normalizer p line) = utf8.RuneCount line) ->
  Forall (Forall (fun b => bz b < 128)) chunks ->
  Forall (fun chunk => ~ In lineprocessor.CR chunk) chunks ->
  lineprocessor.processLinesOptimized p ctx
    {| io.script := map (fun c => (c, None)) chunks; io.reads := reads |}
  = ((Z.of_nat (length (filter (fun b => b <> lineprocessor.LF) (concat chunks))),
      Z.of_nat (length (concat chunks)), None),
     {| io.script := []; io.reads := S (reads + length chunks) |}).
Proof.
  intros Hd Hn Ha Hcr. unfold lineprocessor.processLinesOptimized.
  cbn [io.script io.reads].
  rewrite (processLinesLoop_ascii p
             (fun line Hl => eq_trans (Hn line) (RuneCount_ascii line Hl))
             ctx chunks reads lineprocessor.initial Hd Ha Hcr
             (or_intror eq_refl) (Forall_nil_2 _)).
  reflexivity.
Qed.

Lemma X17_witness :
  lineprocessor.processLinesOptimized (lineProcessor defaultNormalizer 4 false)
    context.Background
    {| io.script := map (fun c => (c, None))
                      [bytes "ab"; [x0a; x63; x64; x0a]; bytes "e"; bytes "f"];
       io.reads := 0 |}
  = ((6, 8, None), {| io.script := []; io.reads := 5 |}).
Proof.
  apply (X17_line_count_of_ascii_text_ignores_chunking
           (lineProcessor defaultNormalizer 4 false) context.Background
           [bytes "ab"; [x0a; x63; x64; x0a]; bytes "e"; bytes "f"] 0).
  - reflexivity.
  - exact defaultNormalizer_RuneCount.
  - repeat constructor.
  - repeat constructor; cbn; intuition discriminate.
Defined.

(** ** The two scanning loops of the word counter *)

Section WordPaths.
Context {T : unicode.Tables}.

Lemma HandleUTF8_ascii b rest :
  bz b < 128 ->
  wordprocessor.HandleUTF8 (b :: rest) = (bz b, 1%nat, wordprocessor.IsASCIIWordChar b).
Proof.
  intros Hb. unfold wordprocessor.HandleUTF8, wordprocessor.IsASCIIWordChar.
  change wordprocessor.ASCIITableSize with 128.
  change (normalizer.at_ (b :: rest) 0) with (bz b).
  destruct (Z.ltb_spec (bz b) 128); [reflexivity|lia].
Qed.

Lemma utf8Loop_ascii chunk : forall i count inW start,
  Forall (fun b => bz b < 128) chunk ->
  wordprocessor.utf8Loop chunk i count inW start
  = wordprocessor.asciiLoop chunk i count inW start.
Proof.
  induction chunk as [|b rest IH]; intros i count inW start Ha.
  - rewrite wordprocessor.utf8Loop_equation_1. reflexivity.
  - apply List.Forall_cons_iff in Ha as [Hb Ha].
    rewrite wordprocessor.utf8Loop_equation_2. cbv zeta.
    rewrite (HandleUTF8_ascii b rest Hb). cbn [fst snd wordprocessor.asciiLoop].
    change (skipn (1 - 1) rest) with rest. change (Z.of_nat 1) with 1.
    rewrite (IH _ _ _ _ Ha).
    destruct (wordprocessor.wordStep (wordprocessor.IsASCIIWordChar b) i count inW start)
      as [[c w] s]. reflexivity.
Qed.

End WordPaths.

Lemma skipn_last_byte (l : list byte) :
  l <> [] -> skipn (length l - 1) l = [List.last l x00].
Proof.
  induction l as [|b [|c rest] IH]; intros Hne; [congruence|reflexivity|].
  replace (length (b :: c :: rest) - 1)%nat with (S (length (c :: rest) - 1))
    by (cbn [length]; lia).
  cbn [skipn]. rewrite IH by discriminate. reflexivity.
Qed.

(** X18.  On a chunk of ASCII bytes the general scanning loop of the word
    counter, which decodes runes, computes what the fast ASCII loop
    computes: the same count, in-word flag and word start from every
    state, and the same verdict on the last character of the chunk.  The
    fast path changes the cost, not the result. *)
Theorem X18_word_scanner_paths_agree {T : unicode.Tables}
  (chunk : list byte) (i count : Z) (inW : bool) (start : Z) :
  Forall (fun b => bz b < 128) chunk ->
  wordprocessor.utf8Loop chunk i count inW start
  = wordprocessor.asciiLoop chunk i count inW start
  /\ (chunk <> [] ->
      snd (wordprocessor.HandleUTF8 (skipn (length chunk - 1) chunk))
      = wordprocessor.IsASCIIWordChar (nth (length chunk - 1) chunk x00)).
Proof.
  intros Ha. split; [apply utf8Loop_ascii; assumption|].
  intros Hne. rewrite skipn_last_byte, nth_last_byte by assumption.
  rewrite HandleUTF8_ascii; [reflexivity|].
  rewrite List.Forall_forall in Ha. apply Ha.
  destruct chunk as [|b rest]; [congruence|].
  rewrite <- nth_last_byte. apply nth_In. simpl. lia.
Qed.

Lemma X18_witness :
  wordprocessor.utf8Loop (T := unicode.latin1) (bytes "it's a well-known fact") 0 0 false 0
  = wordprocessor.asciiLoop (bytes "it's a well-known fact") 0 0 false 0
  /\ wordprocessor.asciiLoop (bytes "it's a well-known fact") 0 0 false 0
     = (3, true, 18).
Proof.
  split; [|vm_compute; reflexivity].
  apply (X18_word_scanner_paths_agree (T := unicode.latin1)
           (bytes "it's a well-known fact") 0 0 false 0).
  repeat constructor.
Defined.

(** ** Cutting a buffer into lines *)

Lemma splitLoop_concat s : forall cur,
  concat (map (fun line => line ++ [lineprocessor.LF]) (lineprocessor.splitLoop cur s))
  = cur ++ s ++ [lineprocessor.LF].
Proof.
  induction s as [|b rest IH]; intros cur; cbn [lineprocessor.splitLoop].
  - cbn [map concat app]. rewrite app_nil_r. reflexivity.
  - destruct (decide (b = lineprocessor.LF)) as [->|Hb].
    + cbn [map concat]. rewrite IH, <- app_assoc. reflexivity.
    + rewrite IH, <- !app_assoc. reflexivity.
Qed.

Lemma splitLoop_noLF s : forall cur,
  ~ In lineprocessor.LF cur ->
  Forall (fun line => ~ In lineprocessor.LF line) (lineprocessor.splitLoop cur s).
Proof.
  induction s as [|b rest IH]; intros cur Hcur; cbn [lineprocessor.splitLoop].
  - constructor; [exact Hcur|constructor].
  - destruct (decide (b = lineprocessor.LF)) as [->|Hb].
    + constructor; [exact Hcur|]. apply IH. intros [].
    + apply IH. rewrite in_app_iff. intros [H|[H|[]]]; [tauto|congruence].
Qed.

Lemma splitLoop_nonempty s cur : lineprocessor.splitLoop cur s <> [].
Proof.
  revert cur. induction s as [|b rest IH]; intros cur; cbn [lineprocessor.splitLoop];
    [discriminate|].
  destruct (decide (b = lineprocessor.LF)); [discriminate|apply IH].
Qed.

Lemma last_app_nonempty {A} (l1 l2 : list A) d :
  l2 <> [] -> List.last (l1 ++ l2) d = List.last l2 d.
Proof.
  intros Hne. induction l1 as [|x l1 IH]; [reflexivity|].
  cbn [app]. rewrite last_cons_nonempty; [exact IH|].
  destruct l1; [exact Hne|discriminate].
Qed.

(** The last piece is empty exactly when the text is empty or ends with
    LF. *)
Lemma splitLoop_last s : forall cur,
  ~ In lineprocessor.LF cur ->
  List.last (lineprocessor.splitLoop cur s) [] = []
  <-> (cur ++ s = [] \/ List.last (cur ++ s) x00 = lineprocessor.LF).
Proof.
  induction s as [|b rest IH]; intros cur Hcur; cbn [lineprocessor.splitLoop].
  - rewrite app_nil_r. cbn [List.last]. split.
    + intros ->. left. reflexivity.
    + intros [H|H]; [exact H|]. destruct cur as [|c cur']; [reflexivity|].
      exfalso. apply Hcur. rewrite <- H. rewrite <- nth_last_byte.
      apply nth_In. simpl. lia.
  - destruct (decide (b = lineprocessor.LF)) as [->|Hb].
    + rewrite last_cons_nonempty by apply splitLoop_nonempty.
      rewrite (IH [] ltac:(intros [])). cbn [app].
      rewrite last_app_nonempty by discriminate.
      destruct rest as [|c rest'].
      * cbn [List.last]. split; [intros _; right; reflexivity|intros _; left; reflexivity].
      * rewrite (last_cons_nonempty lineprocessor.LF (c :: rest')) by discriminate.
        split; intros [H|H]; try discriminate; try (right; exact H).
        destruct cur; discriminate.
    + rewrite IH.
      * rewrite <- app_assoc. reflexivity.
      * rewrite in_app_iff. intros [H|[H|[]]]; [tauto|congruence].
Qed.

Lemma nth_last_list {A} (l : list A) d : nth (length l - 1) l d = List.last l d.
Proof.
  induction l as [|x l IH]; [reflexivity|].
  destruct l as [|y l']; [reflexivity|].
  change (List.last (x :: y :: l') d) with (List.last (y :: l') d). rewrite <- IH.
  replace (length (x :: y :: l') - 1)%nat with (S (length (y :: l') - 1))
    by (simpl; lia).
  reflexivity.
Qed.

(** X19.  [findLines] returns the number of lines it stores; no line
    holds an LF; and the lines, each followed by an LF, make up the data,
    completed by a final LF when the data is not empty and does not end
    with one.  For the empty data there is no line. *)
Theorem X19_findLines_round_trip (data : list byte) :
  snd (lineprocessor.findLines data)
  = Z.of_nat (length (fst (lineprocessor.findLines data)))
  /\ Forall (fun line => ~ In lineprocessor.LF line) (fst (lineprocessor.findLines data))
  /\ concat (map (fun line => line ++ [lineprocessor.LF])
               (fst (lineprocessor.findLines data)))
     = (if bool_decide (data = [] \/ List.last data x00 = lineprocessor.LF)
        then data else data ++ [lineprocessor.LF]).
Proof.
  unfold lineprocessor.findLines, lineprocessor.Split. cbv zeta.
  pose proof (splitLoop_concat data []) as Hcat.
  pose proof (splitLoop_noLF data [] ltac:(intros [])) as Hno.
  pose proof (splitLoop_last data [] ltac:(intros [])) as Hlast.
  pose proof (splitLoop_nonempty data []) as Hne.
  cbn [app] in Hcat, Hlast.
  set (lines := lineprocessor.splitLoop [] data) in *.
  assert (Hlen : (0 < length lines)%nat) by (destruct lines; [congruence|simpl; lia]).
  replace (Z.to_nat (Z.of_nat (length lines) - 1)) with (length lines - 1)%nat by lia.
  rewrite nth_last_list.
  destruct (Z.ltb_spec 0 (Z.of_nat (length lines))); [|lia]. cbn [andb].
  destruct (Nat.eqb_spec (length (List.last lines [])) 0) as [He|He].
  - apply length_zero_iff_nil in He. cbn [fst snd].
    rewrite (bool_decide_eq_true_2 _ (proj1 Hlast He)).
    assert (Hrl : firstn (length lines - 1) lines = removelast lines).
    { rewrite removelast_firstn_len. f_equal. lia. }
    rewrite Hrl.
    assert (Hl : length lines = S (length (removelast lines))).
    { rewrite (app_removelast_last [] Hne) at 1. rewrite length_app. simpl. lia. }
    rewrite (app_removelast_last [] Hne), He in Hcat, Hno.
    rewrite map_app, concat_app in Hcat. cbn [map concat app] in Hcat.
    apply app_inv_tail in Hcat.
    repeat split.
    + lia.
    + apply List.Forall_app in Hno. tauto.
    + exact Hcat.
  - cbn [fst snd]. rewrite bool_decide_eq_false_2.
    + repeat split; assumption.
    + intros Hend. apply He. apply Hlast in Hend. rewrite Hend. reflexivity.
Qed.

(** ** Line ranges *)

Lemma Add_spec lr s e :
  0 <= lineprocessor.Count lr <= Z.of_nat (length (lineprocessor.Ranges lr)) ->
  exists lr',
    lineprocessor.Add lr s e = Some lr'
    /\ lineprocessor.Count lr' = lineprocessor.Count lr + 1
    /\ lineprocessor.Count lr' <= Z.of_nat (length (lineprocessor.Ranges lr'))
    /\ lineprocessor.Ranges lr' !! Z.to_nat (lineprocessor.Count lr) = Some (s, e)
    /\ forall j : nat, (j < Z.to_nat (lineprocessor.Count lr))%nat ->
         lineprocessor.Ranges lr' !! j = lineprocessor.Ranges lr !! j.
Proof.
  intros Hinv. unfold lineprocessor.Add. cbv zeta.
  set (ranges := if Z.of_nat (length (lineprocessor.Ranges lr)) <=? lineprocessor.Count lr
                 then _ else _).
  assert (Hr : lineprocessor.Count lr < Z.of_nat (length ranges)
               /\ forall j : nat, (j < Z.to_nat (lineprocessor.Count lr))%nat ->
                    ranges !! j = lineprocessor.Ranges lr !! j).
  { subst ranges.
    destruct (Z.leb_spec (Z.of_nat (length (lineprocessor.Ranges lr)))
                (lineprocessor.Count lr)) as [Hfull|Hroom];
      [ | split; [lia | reflexivity] ].
    set (cap := if Z.of_nat (length (lineprocessor.Ranges lr)) * 2 =? 0 then 8
                else Z.of_nat (length (lineprocessor.Ranges lr)) * 2).
    assert (Hcap : Z.of_nat (length (lineprocessor.Ranges lr)) <= cap
                   /\ lineprocessor.Count lr < cap).
    { subst cap.
      destruct (Z.eqb_spec (Z.of_nat (length (lineprocessor.Ranges lr)) * 2) 0); lia. }
    rewrite take_ge by lia. split.
    - rewrite length_app, repeat_length. lia.
    - intros j Hj. apply lookup_app_l. lia. }
  destruct Hr as [Hlt Hold].
  destruct (Z.leb_spec 0 (lineprocessor.Count lr)); [|lia].
  destruct (Z.ltb_spec (lineprocessor.Count lr) (Z.of_nat (length ranges))); [|lia].
  cbn [andb]. eexists. split; [reflexivity|].
  cbn [lineprocessor.Count lineprocessor.Ranges]. rewrite length_insert.
  split; [reflexivity|]. split; [lia|]. split.
  - apply list_lookup_insert_eq. lia.
  - intros j Hj. rewrite list_lookup_insert_ne by lia. apply Hold. exact Hj.
Qed.

Lemma addAll_cons lr r rs :
  addAll lr (r :: rs)
  = match lineprocessor.Add lr (fst r) (snd r) with
    | Some lr' => addAll lr' rs
    | None => None
    end.
Proof.
  unfold addAll. cbn [fold_left].
  destruct (lineprocessor.Add lr (fst r) (snd r)); [reflexivity|].
  induction rs as [|r' rs IH]; [reflexivity|exact IH].
Qed.

Lemma addAll_spec rs : forall lr,
  0 <= lineprocessor.Count lr <= Z.of_nat (length (lineprocessor.Ranges lr)) ->
  exists lr',
    addAll lr rs = Some lr'
    /\ lineprocessor.Count lr' = lineprocessor.Count lr + Z.of_nat (length rs)
    /\ lineprocessor.Count lr' <= Z.of_nat (length (lineprocessor.Ranges lr'))
    /\ (forall j : nat, (j < Z.to_nat (lineprocessor.Count lr))%nat ->
          lineprocessor.Ranges lr' !! j = lineprocessor.Ranges lr !! j)
    /\ forall j : nat, (j < length rs)%nat ->
         lineprocessor.Ranges lr' !! (Z.to_nat (lineprocessor.Count lr) + j)%nat
         = rs !! j.
Proof.
  induction rs as [|[s e] rs IH]; intros lr Hinv.
  - exists lr. cbn [length]. repeat split; try reflexivity; try lia.
  - rewrite addAll_cons. cbn [fst snd].
    destruct (Add_spec lr s e Hinv) as (lr1 & -> & Hc1 & Hl1 & Hnew & Hold).
    destruct (IH lr1 ltac:(lia)) as (lr' & -> & Hc & Hl & Hold' & Hnew').
    exists lr'. split; [reflexivity|]. split; [cbn [length]; lia|].
    split; [exact Hl|]. split.
    + intros j Hj. rewrite Hold' by lia. apply Hold. exact Hj.
    + intros [|j] Hj; cbn [lookup list_lookup].
      * rewrite Nat.add_0_r, Hold' by lia. exact Hnew.
      * cbn [length] in Hj.
        replace (Z.to_nat (lineprocessor.Count lr) + S j)%nat
          with (Z.to_nat (lineprocessor.Count lr1) + j)%nat by lia.
        apply Hnew'. lia.
Qed.

Lemma addAll_Get rs lr :
  0 <= lineprocessor.Count lr <= Z.of_nat (length (lineprocessor.Ranges lr)) ->
  exists lr',
    addAll lr rs = Some lr'
    /\ lineprocessor.Count lr' = lineprocessor.Count lr + Z.of_nat (length rs)
    /\ lineprocessor.Count lr' <= Z.of_nat (length (lineprocessor.Ranges lr'))
    /\ forall i,
         lineprocessor.Get lr' i
         = if i <? lineprocessor.Count lr then lineprocessor.Get lr i
           else Some (nth (Z.to_nat (i - lineprocessor.Count lr)) rs (0, 0)).
Proof.
  intros Hinv.
  destruct (addAll_spec rs lr Hinv) as (lr' & E & Hc & Hl & Hold & Hnew).
  exists lr'. split; [exact E|]. split; [exact Hc|]. split; [exact Hl|].
  intros i. unfold lineprocessor.Get. rewrite Hc.
  destruct (Z.ltb_spec i (lineprocessor.Count lr)) as [Hlt|Hge].
  - destruct (Z.ltb_spec i 0); [reflexivity|]. cbn [orb].
    destruct (Z.leb_spec (lineprocessor.Count lr + Z.of_nat (length rs)) i); [lia|].
    destruct (Z.leb_spec (lineprocessor.Count lr) i); [lia|].
    apply Hold. lia.
  - destruct (Z.ltb_spec i 0); [lia|]. cbn [orb].
    destruct (Z.leb_spec (lineprocessor.Count lr + Z.of_nat (length rs)) i) as [Hout|Hin].
    + rewrite nth_overflow by lia. reflexivity.
    + replace (Z.to_nat i)
        with (Z.to_nat (lineprocessor.Count lr) + Z.to_nat (i - lineprocessor.Count lr))%nat
        by lia.
      rewrite Hnew by lia.
      destruct (lookup_lt_is_Some_2 rs (Z.to_nat (i - lineprocessor.Count lr))
                  ltac:(lia)) as [r Hr].
      rewrite Hr. f_equal. symmetry. apply nth_lookup_Some. exact Hr.
Qed.

(** X20.  A [LineRanges] whose count is within its slice (as after
    [Reset], [Put] or any [Add]) takes any number of ranges: [Add] never
    indexes out of range, growing the slice when it is full; afterwards
    [Get] returns the ranges added, in order, after the ones that were
    there, and the zero range for every other index. *)
Theorem X20_line_ranges_add_get (lr : lineprocessor.LineRanges) (rs : list (Z * Z)) :
  0 <= lineprocessor.Count lr <= Z.of_nat (length (lineprocessor.Ranges lr)) ->
  exists lr',
    addAll lr rs = Some lr'
    /\ lineprocessor.Count lr' = lineprocessor.Count lr + Z.of_nat (length rs)
    /\ lineprocessor.Count lr' <= Z.of_nat (length (lineprocessor.Ranges lr'))
    /\ forall i,
         lineprocessor.Get lr' i
         = if i <? lineprocessor.Count lr then lineprocessor.Get lr i
           else Some (nth (Z.to_nat (i - lineprocessor.Count lr)) rs (0, 0)).
Proof. apply addAll_Get. Qed.

Lemma X20_witness :
  exists lr',
    addAll (lineprocessor.Reset {| lineprocessor.Ranges := [(5, 9)];
                                   lineprocessor.Count := 1 |})
           [(0, 3); (3, 4); (4, 9)] = Some lr'
    /\ lineprocessor.Count lr' = 0 + Z.of_nat 3
    /\ lineprocessor.Count lr' <= Z.of_nat (length (lineprocessor.Ranges lr'))
    /\ forall i,
         lineprocessor.Get lr' i
         = if i <? 0
           then lineprocessor.Get
                  (lineprocessor.Reset {| lineprocessor.Ranges := [(5, 9)];
                                          lineprocessor.Count := 1 |}) i
           else Some (nth (Z.to_nat (i - 0)) [(0, 3); (3, 4); (4, 9)] (0, 0)).
Proof.
  apply (X20_line_ranges_add_get
           (lineprocessor.Reset {| lineprocessor.Ranges := [(5, 9)];
                                   lineprocessor.Count := 1 |})
           [(0, 3); (3, 4); (4, 9)]).
  cbn. lia.
Defined.

(** ** Finding the line ranges of a chunk *)

Lemma addAll_None rs :
  fold_left (fun acc r =>
               match acc with
               | Some lr => lineprocessor.Add lr (fst r) (snd r)
               | None => None
               end) rs None = None.
Proof. induction rs as [|r rs IH]; [reflexivity|exact IH]. Qed.

(** The loop of [findLineRanges] and the last [Add] record the layout of
    the pieces of the data. *)
Lemma findLineRangesLoop_layout offset n todo : forall cur i ranges lineStart lineCount,
  i = lineStart + Z.of_nat (length cur) ->
  n = i + Z.of_nat (length todo) ->
  match lineprocessor.findLineRangesLoop todo i offset ranges lineStart lineCount with
  | None => None
  | Some (ranges, lineStart, lineCount) =>
    if lineStart <? n then
      match lineprocessor.Add ranges (lineStart + offset) (n + offset) with
      | None => None
      | Some ranges => Some (ranges, lineCount + 1)
      end
    else Some (ranges, lineCount)
  end
  = match addAll ranges (layout (lineStart + offset) (splitAfter cur todo)) with
    | None => None
    | Some ranges' =>
      Some (ranges', lineCount + Z.of_nat (length (splitAfter cur todo)))
    end.
Proof.
  induction todo as [|b rest IH]; intros cur i ranges lineStart lineCount Hi Hn;
    cbn [lineprocessor.findLineRangesLoop splitAfter length] in *.
  - destruct cur as [|c cur'].
    + cbn [length] in Hi. destruct (Z.ltb_spec lineStart n); [lia|].
      cbn [layout addAll fold_left length]. rewrite Z.add_0_r. reflexivity.
    + destruct (Z.ltb_spec lineStart n); [|cbn [length] in Hi; lia].
      cbn [layout length]. rewrite addAll_cons. cbn [fst snd].
      replace (lineStart + offset + Z.of_nat (S (length cur'))) with (n + offset)
        by (cbn [length] in Hi; lia).
      destruct (lineprocessor.Add ranges (lineStart + offset) (n + offset));
        reflexivity.
  - destruct (decide (b = lineprocessor.LF)) as [Hb|Hb].
    + cbn [layout]. rewrite addAll_cons. cbn [fst snd].
      replace (lineStart + offset + Z.of_nat (length (cur ++ [b])))
        with (i + 1 + offset) by (rewrite length_app; cbn [length]; lia).
      destruct (lineprocessor.Add ranges (lineStart + offset) (i + 1 + offset))
        as [ranges1|]; [|reflexivity].
      rewrite (IH [] (i + 1) ranges1 (i + 1) (lineCount + 1))
        by (cbn [length]; lia).
      destruct (addAll ranges1 _); [|reflexivity].
      cbn [length]. f_equal. f_equal. lia.
    + apply IH; [rewrite length_app; cbn [length]; lia|lia].
Qed.

Lemma splitAfter_concat todo : forall cur,
  concat (splitAfter cur todo) = cur ++ todo.
Proof.
  induction todo as [|b rest IH]; intros cur; cbn [splitAfter].
  - destruct cur; cbn [concat]; rewrite ?app_nil_r; reflexivity.
  - destruct (decide (b = lineprocessor.LF)).
    + cbn [concat]. rewrite IH, <- app_assoc. reflexivity.
    + rewrite IH, <- app_assoc. reflexivity.
Qed.

(** Every piece is a stretch without LF, closed by an LF or, for the
    last piece only, by the end of the data. *)
Lemma splitAfter_pieces todo : forall cur,
  ~ In lineprocessor.LF cur ->
  Forall (fun piece => piece <> [] /\ ~ In lineprocessor.LF (removelast piece))
         (splitAfter cur todo)
  /\ Forall (fun piece => List.last piece x00 = lineprocessor.LF)
            (removelast (splitAfter cur todo)).
Proof.
  induction todo as [|b rest IH]; intros cur Hcur; cbn [splitAfter].
  - destruct cur as [|c cur'].
    + split; constructor.
    + split; [|constructor]. constructor; [|constructor].
      split; [discriminate|]. intros H. apply Hcur.
      rewrite (app_removelast_last x00 (l := c :: cur')) by discriminate.
      apply in_or_app. left. exact H.
  - destruct (decide (b = lineprocessor.LF)) as [->|Hb].
    + destruct (IH [] ltac:(intros [])) as [H1 H2]. split.
      * constructor; [|exact H1]. split; [destruct cur; discriminate|].
        rewrite removelast_last. exact Hcur.
      * destruct (splitAfter [] rest) as [|p ps] eqn:E; [constructor|].
        change (removelast ((cur ++ [lineprocessor.LF]) :: p :: ps))
          with ((cur ++ [lineprocessor.LF]) :: removelast (p :: ps)).
        constructor; [apply last_last|exact H2].
    + apply IH. rewrite in_app_iff. intros [H|[H|[]]]; [tauto|congruence].
Qed.

(** X21.  [findLineRanges] on a [LineRanges] whose count is within its
    slice (the caller resets it first) never indexes out of range, returns
    the number of pieces of the data cut after each LF, and adds the ranges
    of those pieces, laid end to end from [offset]: the pieces make up the
    data, each is a stretch without LF closed by an LF or, for the last
    one only, by the end of the data. *)
Theorem X21_findLineRanges_tiles_the_data
  (data : list byte) (lr : lineprocessor.LineRanges) (offset : Z) :
  0 <= lineprocessor.Count lr <= Z.of_nat (length (lineprocessor.Ranges lr)) ->
  concat (splitAfter [] data) = data
  /\ Forall (fun piece => piece <> [] /\ ~ In lineprocessor.LF (removelast piece))
            (splitAfter [] data)
  /\ Forall (fun piece => List.last piece x00 = lineprocessor.LF)
            (removelast (splitAfter [] data))
  /\ exists lr',
       lineprocessor.findLineRanges data lr offset
       = Some (lr', Z.of_nat (length (splitAfter [] data)))
       /\ lineprocessor.Count lr'
          = lineprocessor.Count lr + Z.of_nat (length (splitAfter [] data))
       /\ forall i,
            lineprocessor.Get lr' i
            = if i <? lineprocessor.Count lr then lineprocessor.Get lr i
              else Some (nth (Z.to_nat (i - lineprocessor.Count lr))
                             (layout offset (splitAfter [] data)) (0, 0)).
Proof.
  intros Hinv. split; [apply splitAfter_concat|].
  destruct (splitAfter_pieces data [] ltac:(intros [])) as [H1 H2].
  split; [exact H1|]. split; [exact H2|].
  destruct (addAll_Get (layout offset (splitAfter [] data)) lr Hinv)
    as (lr' & E & Hc & _ & Hget).
  assert (Hlen : forall start pieces, length (layout start pieces) = length pieces).
  { intros start pieces. revert start.
    induction pieces as [|p ps IH]; intros start; cbn [layout length];
      [reflexivity|]. rewrite IH. reflexivity. }
  rewrite Hlen in Hc.
  exists lr'. split; [|split; [exact Hc|exact Hget]].
  unfold lineprocessor.findLineRanges.
  rewrite (findLineRangesLoop_layout offset (Z.of_nat (length data)) data [] 0 lr 0 0)
    by (cbn [length]; lia).
  rewrite Z.add_0_l, E, Z.add_0_l. reflexivity.
Qed.

Lemma X21_witness :
  exists lr',
    lineprocessor.findLineRanges [x61; x62; x0a; x0a; x63; x0a; x64; x65]
      (lineprocessor.Reset {| lineprocessor.Ranges := [(5, 9)];
                              lineprocessor.Count := 1 |}) 3
    = Some (lr', 4)
    /\ lineprocessor.Count lr' = 4
    /\ map (lineprocessor.Get lr') [-1; 0; 1; 2; 3; 4]
       = [Some (0, 0); Some (3, 6); Some (6, 7); Some (7, 9); Some (9, 11);
          Some (0, 0)].
Proof.
  destruct (X21_findLineRanges_tiles_the_data
              [x61; x62; x0a; x0a; x63; x0a; x64; x65]
              (lineprocessor.Reset {| lineprocessor.Ranges := [(5, 9)];
                                      lineprocessor.Count := 1 |}) 3)
    as (_ & _ & _ & lr' & E & Hc & Hget).
  - cbn. lia.
  - exists lr'. split; [exact E|]. split; [exact Hc|].
    cbn [map]. rewrite !Hget. reflexivity.
Defined.

(** ** The word count of the streaming and of the non-streaming calculator *)

Section WordCounts.
Context {T : unicode.Tables}.

Lemma defaultRune_ascii_range r : 0 <= r < 128 -> 0 <= defaultRune r < 128.
Proof.
  intros Hr. unfold defaultRune, unicode.IsPunct, unicode.ToLower, unicode.MaxASCII,
    unicode.asciiUpper.
  split_ifs; lia.
Qed.

(** After the default normalizer an ASCII character is white space exactly
    when it was punctuation or white space. *)
Lemma defaultRune_space r :
  0 <= r < 128 ->
  unicode.IsSpace (defaultRune r) = unicode.asciiPunct r || unicode.asciiSpace r.
Proof.
  intros Hr. pose proof (defaultRune_ascii_range r Hr) as Hd. revert Hd.
  unfold defaultRune, unicode.IsSpace, unicode.IsPunct, unicode.ToLower,
    unicode.MaxASCII, unicode.asciiUpper, unicode.asciiPunct, unicode.asciiSpace, existsb.
  intros Hd. split_ifs; try reflexivity; try lia.
Qed.

Lemma DefaultNormalize_bytes x :
  Forall (fun b => bz b < 128) x ->
  normalizer.DefaultNormalize x = map (fun b => byte_of_Z (defaultRune (bz b))) x.
Proof.
  intros Ha. rewrite DefaultNormalize_ascii by assumption. unfold utf8.runesString.
  induction Ha as [|b rest Hb _ IH]; [reflexivity|].
  cbn [map flat_map]. rewrite IH. pose proof (bz_range b).
  rewrite EncodeRune_ascii by (apply defaultRune_ascii_range; lia). reflexivity.
Qed.

Lemma fieldsLoop_words x : forall cur i s,
  Forall (fun b => bz b < 128
                   /\ wordprocessor.IsASCIIWordChar b
                      = negb (unicode.asciiPunct (bz b) || unicode.asciiSpace (bz b))) x ->
  Z.of_nat (length (strings.fieldsLoop cur
                      (utf8.stringTokens
                         (map (fun b => byte_of_Z (defaultRune (bz b))) x))))
  = fst (fst (wordprocessor.asciiLoop x i 0 (bool_decide (is_Some cur)) s))
    + (if snd (fst (wordprocessor.asciiLoop x i 0 (bool_decide (is_Some cur)) s))
       then 1 else 0).
Proof.
  induction x as [|b rest IH]; intros cur i s Hx.
  - cbn [map]. rewrite utf8.stringTokens_equation_1.
    cbn [strings.fieldsLoop wordprocessor.asciiLoop fst snd].
    destruct cur; reflexivity.
  - apply List.Forall_cons_iff in Hx as [[Hb Hw] Hx]. pose proof (bz_range b) as Hr.
    pose proof (defaultRune_ascii_range (bz b) ltac:(lia)) as Hd.
    cbn [map]. rewrite stringTokens_cons.
    rewrite DecodeRune_ascii by (rewrite bz_byte_of_Z, Z.mod_small by lia; lia).
    cbn [fst snd]. change (skipn (1 - 1) ?l) with l. change (firstn (1 - 1) ?l) with (@nil byte).
    cbn [strings.fieldsLoop wordprocessor.asciiLoop].
    rewrite bz_byte_of_Z, Z.mod_small by lia.
    rewrite defaultRune_space by lia. rewrite Hw.
    unfold wordprocessor.wordStep.
    destruct (unicode.asciiPunct (bz b) || unicode.asciiSpace (bz b)); cbn [negb].
    + destruct cur as [f|].
      * rewrite (bool_decide_eq_true_2 (is_Some (Some f))) by eauto.
        cbn [length]. rewrite Nat2Z.inj_succ, (IH None (i + 1) s Hx).
        rewrite (bool_decide_eq_false_2 (is_Some None)) by (intros [? ?]; discriminate).
        destruct (asciiLoop_count rest (i + 1) (0 + 1) false s) as [E1 E2].
        rewrite E1, E2. lia.
      * rewrite (bool_decide_eq_false_2 (is_Some None)) by (intros [? ?]; discriminate).
        rewrite (IH None (i + 1) s Hx).
        rewrite (bool_decide_eq_false_2 (is_Some None)) by (intros [? ?]; discriminate).
        reflexivity.
    + destruct cur as [f|].
      * rewrite (bool_decide_eq_true_2 (is_Some (Some f))) by eauto. cbn [negb].
        rewrite (IH (Some _) (i + 1) s Hx).
        rewrite (bool_decide_eq_true_2 (is_Some (Some _))) by eauto. reflexivity.
      * rewrite (bool_decide_eq_false_2 (is_Some None)) by (intros [? ?]; discriminate).
        cbn [negb]. rewrite (IH (Some _) (i + 1) s Hx).
        rewrite (bool_decide_eq_true_2 (is_Some (Some _))) by eauto.
        pose proof (asciiLoop_fst rest (i + 1) (i + 1) 0 true i s) as E.
        rewrite E. reflexivity.
Qed.

End WordCounts.

(** X22.  On ASCII text in which the word characters of the streaming
    counter are exactly the characters that are neither punctuation nor
    white space (letters, digits, white space and punctuation other than
    underscore, hyphen and apostrophe), the sequential streaming word count
    of the text, read in any chunks, is the number of words the
    non-streaming calculator counts: the fields of the text after the
    default normalizer. *)
Theorem X22_streaming_word_count_is_the_field_count {T : unicode.Tables}
  (ctx : context.Context) (chunks : list (list byte)) (reads : nat) :
  context.Done ctx = false ->
  Forall (Forall (fun b =>
            bz b < 128
            /\ wordprocessor.IsASCIIWordChar b
               = negb (unicode.asciiPunct (bz b) || unicode.asciiSpace (bz b)))) chunks ->
  fst (fst (fst (wordprocessor.processWordsOptimized ctx
                   {| io.script := map (fun c => (c, None)) chunks;
                      io.reads := reads |})))
  = Z.of_nat (length (strings.Fields (normalizer.DefaultNormalize (concat chunks)))).
Proof.
  intros Hd Hx.
  assert (Ha : Forall (Forall (fun b => bz b < 128)) chunks).
  { eapply List.Forall_impl; [|exact Hx]. intros c Hc.
    eapply List.Forall_impl; [|exact Hc]. intros b [Hb _]. exact Hb. }
  assert (Hcat : Forall (fun b =>
            bz b < 128
            /\ wordprocessor.IsASCIIWordChar b
               = negb (unicode.asciiPunct (bz b) || unicode.asciiSpace (bz b)))
            (concat chunks)).
  { clear -Hx. induction Hx as [|c cs Hc _ IH]; [constructor|].
    cbn [concat]. apply List.Forall_app. split; assumption. }
  unfold wordprocessor.processWordsOptimized. cbn [io.script io.reads].
  rewrite processWordsLoop_ascii by assumption. cbn [fst].
  cbn [wordprocessor.initial wordprocessor.wordCount wordprocessor.inWord].
  unfold strings.Fields. rewrite DefaultNormalize_bytes.
  - rewrite (fieldsLoop_words (concat chunks) None 0 0 Hcat).
    rewrite (bool_decide_eq_false_2 (is_Some None)) by (intros [? ?]; discriminate).
    destruct (wordprocessor.asciiLoop (concat chunks) 0 0 false 0) as [[c w] s].
    cbn [fst snd]. destruct w; lia.
  - eapply List.Forall_impl; [|exact Hcat]. intros b [Hb _]. exact Hb.
Qed.

Lemma X22_witness :
  fst (fst (fst (wordprocessor.processWordsOptimized (T := unicode.latin1)
                   context.Background
                   {| io.script := map (fun c => (c, None))
                                     [bytes "Hello, wo"; bytes "rld! 42 ti"; bytes "mes."];
                      io.reads := 0 |})))
  = Z.of_nat (length (strings.Fields (T := unicode.latin1)
                        (defaultNormalizer (bytes "Hello, world! 42 times."))))
  /\ length (strings.Fields (T := unicode.latin1)
               (defaultNormalizer (bytes "Hello, world! 42 times."))) = 4%nat.
Proof.
  split; [|vm_compute; reflexivity].
  apply (X22_streaming_word_count_is_the_field_count (T := unicode.latin1)
           context.Background [bytes "Hello, wo"; bytes "rld! 42 ti"; bytes "mes."] 0).
  - reflexivity.
  - repeat (constructor; try (split; reflexivity)).
Defined.
